(** * A shallow embedding of the rule-driven JSON validator

    The development follows [src/lib/validator.js] function by function and
    takes the format registry of [src/lib/validatorformats.js] as the module
    the engine imports.

    Conventions of the embedding.
    - A number value is an integer ([Z]) and is exact, whatever its size: a
      fraction, NaN and the rounding of doubles are outside the value domain.
      The number a string converts to for a comparison is exact as well, a
      decimal [m × 10^e] or an infinity.
    - A string is the sequence of its code units, each below 256.
    - Data is a tree: two different positions never hold the same object, so
      [===] between two objects or arrays is [false].  The frames of the
      stack hold the sibling values by reference, as the source does; see
      [mutatedInFrame].
    - An object is the list of its own enumerable properties in the order
      [Object.keys] reports them.  The members every object inherits from
      [Object.prototype] are modelled where a frame's record object is read
      ([prevChildValueOf]) and where the filter calls [hasOwnProperty] on the
      Rule Map; the lookups [obj[name]] and [rules[ruleName]], the lookups of
      a format and of a condition in their registries, and the conversion of
      an object to a primitive, read own properties only, so they are the
      source's for the names [Object.prototype] does not define.  The
      statements that lean on such a lookup carry that restriction as a
      hypothesis ([plainName], [plainValue], [plainRules]).
    - A thrown exception leaves the data as mutated so far: every function
      that mutates returns the data next to its completion. *)

From Stdlib Require Import ZArith Lia Ascii String.
From stdpp Require Import base option list strings gmap pretty.

Local Open Scope string_scope.
Local Open Scope list_scope.
Local Open Scope Z_scope.

(** ** Values *)

#[warnings="-register-all"]
Inductive value :=
  | VUndef
  | VNull
  | VBool (b : bool)
  | VNum (n : Z)
  | VStr (s : string)
  | VArr (elems : list value)
  | VObj (fields : list (string * value)).

(** [typeof v === 'undefined'] *)
Definition is_undefined (v : value) : bool :=
  match v with VUndef => true | _ => false end.

(** [typeof v === 'object'] *)
Definition typeof_object (v : value) : bool :=
  match v with VNull | VArr _ | VObj _ => true | _ => false end.

(** [Array.isArray(v)] *)
Definition isArray (v : value) : bool :=
  match v with VArr _ => true | _ => false end.

(** ToBoolean *)
Definition truthy (v : value) : bool :=
  match v with
  | VUndef | VNull => false
  | VBool b => b
  | VNum n => negb (n =? 0)
  | VStr s => negb (String.eqb s "")
  | VArr _ | VObj _ => true
  end.

(** [x === y] *)
Definition strict_eq (x y : value) : bool :=
  match x, y with
  | VUndef, VUndef | VNull, VNull => true
  | VBool a, VBool b => Bool.eqb a b
  | VNum a, VNum b => a =? b
  | VStr a, VStr b => String.eqb a b
  | _, _ => false
  end.

(** ToString; inside [Array.prototype.join] null and undefined print as the
    empty string. *)
Fixpoint ToString (v : value) : string :=
  match v with
  | VUndef => "undefined"
  | VNull => "null"
  | VBool b => if b then "true" else "false"
  | VNum n => pretty n
  | VStr s => s
  | VArr l =>
      String.concat ","
        (map (fun e => match e with VUndef | VNull => "" | _ => ToString e end) l)
  | VObj _ => "[object Object]"
  end.

Definition ToPrimitive (v : value) : value :=
  match v with
  | VArr _ | VObj _ => VStr (ToString v)
  | _ => v
  end.

Definition isWhiteSpace (c : ascii) : bool :=
  let n := nat_of_ascii c in
  ((9 <=? n) && (n <=? 13))%nat || (n =? 32)%nat || (n =? 160)%nat.

Fixpoint trimStart (s : string) : string :=
  match s with
  | String c s' => if isWhiteSpace c then trimStart s' else s
  | EmptyString => s
  end.

Definition trim (s : string) : string :=
  String.rev (trimStart (String.rev (trimStart s))).

Definition digitValue (c : ascii) : option Z :=
  let n := nat_of_ascii c in
  if ((48 <=? n) && (n <=? 57))%nat then Some (Z.of_nat n - 48) else None.

(** The value of a non-empty string of decimal digits, [None] otherwise. *)
Fixpoint digitsFrom (acc : Z) (s : string) : option Z :=
  match s with
  | EmptyString => Some acc
  | String c s' =>
      match digitValue c with
      | Some d => digitsFrom (10 * acc + d) s'
      | None => None
      end
  end.

Definition decimalDigits (s : string) : option Z :=
  match s with
  | EmptyString => None
  | _ => digitsFrom 0 s
  end.

(** The numbers a conversion yields: a decimal [m × 10^e] or an infinity;
    NaN is [None] where a number is expected. *)
Inductive Number :=
  | Decimal (m e : Z)
  | Infinity (negative : bool).

Definition negate (n : Number) : Number :=
  match n with
  | Decimal m e => Decimal (- m) e
  | Infinity negative => Infinity (negb negative)
  end.

(** [x < y] and [x == y] between two numbers; two decimals are compared at
    their smaller exponent. *)
Definition Number_ltb (x y : Number) : bool :=
  match x, y with
  | Decimal m e, Decimal m' e' =>
      if e =? e' then m <? m'
      else let e0 := Z.min e e' in m * 10 ^ (e - e0) <? m' * 10 ^ (e' - e0)
  | Decimal _ _, Infinity negative => negb negative
  | Infinity negative, Decimal _ _ => negative
  | Infinity negative, Infinity negative' => negative && negb negative'
  end.

Definition Number_eqb (x y : Number) : bool :=
  match x, y with
  | Decimal m e, Decimal m' e' =>
      if e =? e' then m =? m'
      else let e0 := Z.min e e' in m * 10 ^ (e - e0) =? m' * 10 ^ (e' - e0)
  | Infinity negative, Infinity negative' => Bool.eqb negative negative'
  | _, _ => false
  end.

(** The longest prefix of decimal digits, and the rest. *)
Fixpoint spanDigits (s : string) : string * string :=
  match s with
  | String c s' =>
      if bool_decide (is_Some (digitValue c))
      then let '(digits, rest) := spanDigits s' in (String c digits, rest)
      else (EmptyString, s)
  | EmptyString => (EmptyString, EmptyString)
  end.

(** A digit of a literal of the given radix, in either case. *)
Definition radixDigit (radix : Z) (c : ascii) : option Z :=
  let n := Z.of_nat (nat_of_ascii c) in
  d ← (if (48 <=? n) && (n <=? 57) then Some (n - 48)
       else if (97 <=? n) && (n <=? 102) then Some (n - 87)
       else if (65 <=? n) && (n <=? 70) then Some (n - 55)
       else None);
  if d <? radix then Some d else None.

Fixpoint radixDigits (radix acc : Z) (s : string) : option Z :=
  match s with
  | EmptyString => Some acc
  | String c s' =>
      match radixDigit radix c with
      | Some d => radixDigits radix (radix * acc + d) s'
      | None => None
      end
  end.

(** [0x], [0o] and [0b] literals: no sign, at least one digit. *)
Definition NonDecimalIntegerLiteral (s : string) : option Z :=
  match s with
  | String "0"%char (String p digits) =>
      radix ← (if Ascii.eqb p "x" || Ascii.eqb p "X" then Some 16
               else if Ascii.eqb p "o" || Ascii.eqb p "O" then Some 8
               else if Ascii.eqb p "b" || Ascii.eqb p "B" then Some 2
               else None);
      match digits with
      | EmptyString => None
      | _ => radixDigits radix 0 digits
      end
  | _ => None
  end.

(** The exponent a literal ends with: [e] or [E], a sign, digits; none is 0. *)
Definition ExponentPart (s : string) : option Z :=
  match s with
  | EmptyString => Some 0
  | String c s' =>
      if Ascii.eqb c "e" || Ascii.eqb c "E" then
        match s' with
        | String "+"%char digits => decimalDigits digits
        | String "-"%char digits => Z.opp <$> decimalDigits digits
        | digits => decimalDigits digits
        end
      else None
  end.

(** [Infinity], or digits with an optional fraction and exponent; there is a
    digit before or after the point. *)
Definition StrUnsignedDecimalLiteral (s : string) : option Number :=
  if String.eqb s "Infinity" then Some (Infinity false) else
  let '(int, rest) := spanDigits s in
  let '(fraction, rest) :=
    match rest with
    | String "."%char rest' => spanDigits rest'
    | _ => (EmptyString, rest)
    end in
  if String.eqb (int +:+ fraction) "" then None else
  e ← ExponentPart rest;
  m ← digitsFrom 0 (int +:+ fraction);
  Some (Decimal m (e - Z.of_nat (String.length fraction))).

(** StringToNumber: white space around a numeric literal; the empty string
    is 0 and anything else NaN ([None]). *)
Definition StringToNumber (s : string) : option Number :=
  match trim s with
  | EmptyString => Some (Decimal 0 0)
  | String "+"%char s' => StrUnsignedDecimalLiteral s'
  | String "-"%char s' => negate <$> StrUnsignedDecimalLiteral s'
  | s' =>
      match NonDecimalIntegerLiteral s' with
      | Some n => Some (Decimal n 0)
      | None => StrUnsignedDecimalLiteral s'
      end
  end.

(** ToNumber, [None] for NaN. *)
Definition ToNumber (v : value) : option Number :=
  match ToPrimitive v with
  | VUndef => None
  | VNull => Some (Decimal 0 0)
  | VBool b => Some (Decimal (if b then 1 else 0) 0)
  | VNum n => Some (Decimal n 0)
  | VStr s => StringToNumber s
  | VArr _ | VObj _ => None
  end.

(** [x < y]: the abstract relational comparison; two strings are compared
    by code units, anything else as numbers, and an undefined result (a NaN
    operand) is falsy. *)
Definition js_lt (x y : value) : bool :=
  match ToPrimitive x, ToPrimitive y with
  | VStr a, VStr b => String.ltb a b
  | px, py =>
      match ToNumber px, ToNumber py with
      | Some a, Some b => Number_ltb a b
      | _, _ => false
      end
  end.

(** [x > y] *)
Definition js_gt (x y : value) : bool := js_lt y x.

(** [x == n] for a number [n]: null and undefined equal no number, anything
    else is compared as a number. *)
Definition loose_eq_number (x : value) (n : Z) : bool :=
  match x with
  | VUndef | VNull => false
  | _ =>
      match ToNumber x with
      | Some a => Number_eqb a (Decimal n 0)
      | None => false
      end
  end.

(** ** Exceptions and completions *)

(** What a [TrackValidationError] reports about the value at [key]; the
    message text of the source is [key] followed by the phrase shown. *)
Inductive reason :=
  | NotDefinedButRequired                            (* not defined but required! *)
  | FormatError (e : string)                         (* format error: e *)
  | NotAValidFormatValue (format : string)           (* is not a valid format value *)
  | NotInAllowedValues (v : value) (allowed : list value)
  | OutOfRange (v from to : value)                   (* is out of range *)
  | MinLengthNotReached (expected : Z) (actual : value)
  | WrongLength (expected : Z) (actual : value)
  | MaxLengthExceeded (expected : Z) (actual : value)
  | DifferentLength (actual previous : value)        (* has a different length *)
  | BreaksAscendingOrder                             (* breaks ascending order *)
  | BreaksDescendingOrder                            (* breaks descending order *)
  | RepeatsPreviousSibling            (* repeats the value from its previous sibling *)
  | InvalidConditionName (name : string)             (* invalid condition name *)
  | ExpectedObjectOrArray.                (* is expected to be an object or array *)

Inductive exn :=
  | TrackValidationError (key : string) (r : reason)  (* Err.TrackValidationError *)
  | Error (format key : string)   (* new Error(format + ' is not a valid format ...') *)
  | TypeError                     (* a property read on undefined or null *)
  | SyntaxError                   (* JSON.parse of undefined *)
  | StringThrown (e : string).    (* throw "..." inside a converter *)

(** How a call completes: it returns, it throws, or the fuel that bounds
    the recursion of [processRule] ran out ([Diverge]; [validate] gives
    enough fuel, see [validate_returns]). *)
Inductive completion (A : Type) :=
  | Normal (a : A)
  | Throw (e : exn)
  | Diverge.
Arguments Normal {A} a.
Arguments Throw {A} e.
Arguments Diverge {A}.

#[global] Instance completion_ret : MRet completion := @Normal.
#[global] Instance completion_bind : MBind completion := λ A B k c,
  match c with
  | Normal a => k a
  | Throw e => Throw e
  | Diverge => Diverge
  end.

(** [if (c) { body }] for a body that only throws. *)
Definition when (c : bool) (body : completion unit) : completion unit :=
  if c then body else Normal ().

(** ** Property access *)

(** [ruleNames[ruleIndex]], [array[i]]: undefined out of range. *)
Definition nth_value (l : list value) (i : nat) : value := default VUndef (l !! i).

Fixpoint assoc {A} (k : string) (l : list (string * A)) : option A :=
  match l with
  | [] => None
  | (k', a) :: l' => if String.eqb k' k then Some a else assoc k l'
  end.

(** Own properties of a string primitive: its characters by index. *)
Fixpoint charProps (i : nat) (s : string) : list (string * value) :=
  match s with
  | EmptyString => []
  | String c s' => (pretty i, VStr (String c EmptyString)) :: charProps (S i) s'
  end.

Fixpoint indexProps (i : nat) (l : list value) : list (string * value) :=
  match l with
  | [] => []
  | v :: l' => (pretty i, v) :: indexProps (S i) l'
  end.

(** [Object.keys(v)] with the values: throws on undefined and null. *)
Definition ownProps (v : value) : completion (list (string * value)) :=
  match v with
  | VUndef | VNull => Throw TypeError
  | VBool _ | VNum _ => Normal []
  | VStr s => Normal (charProps 0 s)
  | VArr l => Normal (indexProps 0 l)
  | VObj f => Normal f
  end.

(** [v.length] *)
Definition get_length (v : value) : completion value :=
  match v with
  | VUndef | VNull => Throw TypeError
  | VBool _ | VNum _ => Normal VUndef
  | VStr s => Normal (VNum (Z.of_nat (String.length s)))
  | VArr l => Normal (VNum (Z.of_nat (length l)))
  | VObj f => Normal (default VUndef (assoc "length" f))
  end.

(** [obj[name]] on the own properties of [obj]: what the source reads under
    a name that the prototype of [obj] does not define. *)
Definition get_prop (obj : value) (name : string) : completion value :=
  match obj with
  | VUndef | VNull => Throw TypeError
  | VBool _ | VNum _ => Normal VUndef
  | VStr s =>
      if String.eqb name "length" then get_length obj
      else Normal (default VUndef (assoc name (charProps 0 s)))
  | VArr l =>
      if String.eqb name "length" then get_length obj
      else Normal (default VUndef (assoc name (indexProps 0 l)))
  | VObj f => Normal (default VUndef (assoc name f))
  end.

(** ** Rules, formats and options *)

(** A Rule Map entry: one rule, or a list of conditional alternatives. *)
Inductive ruleEntry (R : Type) :=
  | Single (r : R)
  | Alternatives (rs : list R).
Arguments Single {R} r.
Arguments Alternatives {R} rs.

(** A rule; [None] is an absent constraint.  A Rule Map is the list of its
    entries in [Object.keys] order. *)
#[warnings="-register-all"]
Inductive rule := Rule {
  required : bool;
  format : option string;
  allowedValues : option (list value);
  range : option (list value);
  minLength : option Z;
  maxLength : option Z;
  rule_length : option Z;
  fixedChildLength : bool;
  ascending : bool;
  descending : bool;
  noRepeat : bool;
  condition : option string;
  childRules : option (list (string * ruleEntry rule))
}.

Abbreviation ruleMap := (list (string * ruleEntry rule)).

(** The rule [{}]. *)
Definition emptyRule : rule :=
  Rule false None None None None None None false false false false None None.

Definition wildcardRuleName : string := "*".

(** [Object.keys(rules)] *)
Definition keys {A} (m : list (string * A)) : list string := m.*1.

(** [rules.hasOwnProperty(key)] *)
Definition hasOwnProperty {A} (m : list (string * A)) (key : string) : bool :=
  bool_decide (is_Some (assoc key m)).

(** The registry module [validatorformats]: validators and converters by
    format name, as functions of the value that return or throw.  A
    converter returns a number or a boolean, so its result never shares
    structure with its argument. *)
Record Formats := {
  validators : string → option (value → completion bool);
  converters : string → option (value → completion value)
}.

(** [options.conditions]: predicates of [(parentValue, value)] by name. *)
Abbreviation conditionsRegistry := (string → option (value → value → bool)).

Record Options := {
  opt_filter : bool;
  opt_debug : bool;
  opt_convert : bool;
  opt_conditions : option conditionsRegistry
}.

Definition defaultOptions : Options :=
  {| opt_filter := false; opt_debug := false; opt_convert := false;
     opt_conditions := None |}.

(** The [options] argument of [validate]: each key may be absent. *)
Record UserOptions := {
  user_filter : option bool;
  user_debug : option bool;
  user_convert : option bool;
  user_conditions : option conditionsRegistry
}.

(** [_.extend({}, defaultOptions, options)] *)
Definition extend (d : Options) (o : UserOptions) : Options :=
  {| opt_filter := default (opt_filter d) (user_filter o);
     opt_debug := default (opt_debug d) (user_debug o);
     opt_convert := default (opt_convert d) (user_convert o);
     opt_conditions :=
       match user_conditions o with Some c => Some c | None => opt_conditions d end |}.

(** A numeric constraint that is truthy: [0] is falsy. *)
Definition truthyNumber (c : option Z) : option Z :=
  match c with
  | Some n => if n =? 0 then None else Some n
  | None => None
  end.

(** A string constraint that is truthy: the empty string is falsy. *)
Definition truthyString (c : option string) : option string :=
  match c with
  | Some f => if String.eqb f "" then None else Some f
  | None => None
  end.

(** ** The sibling state stack *)

(** One frame of [ParentStack]: [fixedChildLength] is undefined until
    enabled, then [-1], then the length of the first child seen;
    [prevChildValues] is created by the first ordering check. *)
Record frame := Frame {
  info_fixedChildLength : value;
  info_prevChildValues : option (gmap string value)
}.

(** The frame [{}]. *)
Definition emptyFrame : frame := Frame VUndef None.

(** [this.stack]; the top of the stack is the last element. *)
Abbreviation ParentStack := (list frame).

Definition new_ParentStack : ParentStack := [].

Definition push (s : ParentStack) : ParentStack := s ++ [emptyFrame].

Definition pop (s : ParentStack) : ParentStack := removelast s.

(** [this.stack[this.stack.length - 1 - offset]] *)
Definition peek (offset : nat) (s : ParentStack) : option frame :=
  if decide (offset < length s)%nat then s !! (length s - 1 - offset)%nat else None.

(** Assignment to a field of the frame [peek(offset)] returns. *)
Definition poke (offset : nat) (f : frame) (s : ParentStack) : ParentStack :=
  if decide (offset < length s)%nat then <[(length s - 1 - offset)%nat := f]> s else s.

Definition enableFixedChildLength (s : ParentStack) : completion ParentStack :=
  match peek 0 s with
  | None => Throw TypeError
  | Some f => Normal (poke 0 (Frame (VNum (-1)) (info_prevChildValues f)) s)
  end.

(** The key [ruleName] names in [prevChildValues] and [rules]: an undefined
    name reads as the string "undefined". *)
Definition propertyKey (ruleName : option string) : string :=
  default "undefined" ruleName.

(** The closure [setPrevChildValue] of [processSortingRules]: the record
    object is created on first use.  (Under the name [__proto__] the
    assignment of the source sets the prototype of the record object instead
    of a property; that name is outside the embedding.) *)
Definition setPrevChildValue (ruleName : option string) (v : value)
    (s : ParentStack) : ParentStack :=
  match peek 1 s with
  | None => s
  | Some parentInfo =>
      let m := default ∅ (info_prevChildValues parentInfo) in
      poke 1 (Frame (info_fixedChildLength parentInfo)
                    (Some (<[propertyKey ruleName := v]> m))) s
  end.

(** The names every object inherits from [Object.prototype], each with the
    string its member converts to under [ToPrimitive]: a built-in function
    gives its source text, as Node prints it, and the prototype object under
    [__proto__] gives the text of an object. *)
Definition Object_prototype : list (string * string) :=
  [("constructor", "function Object() { [native code] }");
   ("__defineGetter__", "function __defineGetter__() { [native code] }");
   ("__defineSetter__", "function __defineSetter__() { [native code] }");
   ("hasOwnProperty", "function hasOwnProperty() { [native code] }");
   ("__lookupGetter__", "function __lookupGetter__() { [native code] }");
   ("__lookupSetter__", "function __lookupSetter__() { [native code] }");
   ("isPrototypeOf", "function isPrototypeOf() { [native code] }");
   ("propertyIsEnumerable", "function propertyIsEnumerable() { [native code] }");
   ("toString", "function toString() { [native code] }");
   ("valueOf", "function valueOf() { [native code] }");
   ("__proto__", "[object Object]");
   ("toLocaleString", "function toLocaleString() { [native code] }")].

(** What a lookup in a record object finds: an own property, a member
    inherited from [Object.prototype] (given by the string it converts to), or
    nothing, which reads as undefined. *)
Inductive found :=
  | Own (v : value)
  | Inherited (text : string)
  | NotFound.

(** [typeof x === 'undefined'], the operand [x] is in [<] and [>], and
    [x === v] for what a lookup found: an inherited member is an object of
    the host, defined, compared as its text and identical to no value of the
    data. *)
Definition found_undefined (x : found) : bool :=
  match x with
  | Own v => is_undefined v
  | Inherited _ => false
  | NotFound => true
  end.

Definition comparand (x : found) : value :=
  match x with
  | Own v => v
  | Inherited text => VStr text
  | NotFound => VUndef
  end.

Definition identical (x : found) (v : value) : bool :=
  match x with
  | Own w => strict_eq w v
  | Inherited _ => false
  | NotFound => strict_eq VUndef v
  end.

(** One ordering check: throw when a previous value is defined and [broken],
    record the new value otherwise. *)
Definition sortingCheck (enabled broken : bool) (prevChildValue : found)
    (key : string) (r : reason) (ruleName : option string) (v : value)
    (s : ParentStack) : completion ParentStack :=
  if enabled then
    if negb (found_undefined prevChildValue) && broken
    then Throw (TrackValidationError key r)
    else Normal (setPrevChildValue ruleName v s)
  else Normal s.

(** What the frame records under the rule-name: the own property of its
    record object, if there is one. *)
Definition recorded (parentInfo : frame) (ruleName : option string) : option value :=
  m ← info_prevChildValues parentInfo; m !! propertyKey ruleName.

(** [prevChildValue]: undefined while the frame has no record object, then
    [parentInfo.prevChildValues[ruleName]], which finds an inherited member
    under a name that has no record. *)
Definition prevChildValueOf (parentInfo : frame) (ruleName : option string) : found :=
  match info_prevChildValues parentInfo with
  | None => NotFound
  | Some m =>
      match m !! propertyKey ruleName with
      | Some v => Own v
      | None =>
          match assoc (propertyKey ruleName) Object_prototype with
          | Some text => Inherited text
          | None => NotFound
          end
      end
  end.

Definition processSortingRules (key : string) (r : rule)
    (ruleName : option string) (v : value) (s : ParentStack)
    : completion ParentStack :=
  match peek 1 s with
  | None => Throw TypeError
  | Some parentInfo =>
      let prevChildValue := prevChildValueOf parentInfo ruleName in
      s ← sortingCheck (ascending r) (js_gt (comparand prevChildValue) v)
            prevChildValue key BreaksAscendingOrder ruleName v s;
      s ← sortingCheck (descending r) (js_lt (comparand prevChildValue) v)
            prevChildValue key BreaksDescendingOrder ruleName v s;
      sortingCheck (noRepeat r) (identical prevChildValue v) prevChildValue
            key RepeatsPreviousSibling ruleName v s
  end.

Definition processSiblingRules (key : string) (r : rule)
    (ruleName : option string) (v : value) (s : ParentStack)
    : completion ParentStack :=
  match peek 1 s with
  | None => Normal s
  | Some parentInfo =>
      s ← (if truthy (info_fixedChildLength parentInfo) then
             len ← get_length v;
             if strict_eq (info_fixedChildLength parentInfo) (VNum (-1)) then
               Normal (poke 1 (Frame len (info_prevChildValues parentInfo)) s)
             else if negb (strict_eq (info_fixedChildLength parentInfo) len) then
               Throw (TrackValidationError key
                        (DifferentLength len (info_fixedChildLength parentInfo)))
             else Normal s
           else Normal s);
      processSortingRules key r ruleName v s
  end.

(** ** Iteration strategies *)

(** [valueName]: an array index or a property name. *)
Inductive position :=
  | Index (i : nat)
  | Name (n : string).

Definition positionString (p : position) : string :=
  match p with
  | Index i => pretty i
  | Name n => n
  end.

(** The arguments of one call of the callback: [(value, ruleName, valueName)].
    A strategy is the list of the calls it makes, in order.  No position
    occurs twice in it, so the value a call is given is the one the parent
    held when the strategy started. *)
Abbreviation item := (value * option string * position)%type.

(** [ruleNames.indexOf(name)] *)
Fixpoint indexOf (name : string) (l : list string) : Z :=
  match l with
  | [] => -1
  | n :: l' =>
      if String.eqb n name then 0
      else let i := indexOf name l' in if i <? 0 then -1 else i + 1
  end.

(** [ruleNames[ruleIndex]] for a numeric index. *)
Definition nameAt (ruleNames : list string) (ruleIndex : Z) : option string :=
  if ruleIndex <? 0 then None else ruleNames !! Z.to_nat ruleIndex.

(** [rules[wildcardRuleName].required] *)
Definition entryRequired (e : ruleEntry rule) : bool :=
  match e with
  | Single r => required r
  | Alternatives _ => false
  end.

(** The rule index [iterateArrayWithRulesWildcard] computes for position [i]. *)
Definition wildcardRuleIndex (wildcardIndex wildcardEndIndex i : Z) : Z :=
  if wildcardEndIndex <? i then i - wildcardEndIndex + 1
  else if (wildcardIndex <=? i) && (i <=? wildcardEndIndex) then wildcardIndex
  else i.

Definition iterateArrayWithRulesWildcard (array : list value) (rules : ruleMap)
    : completion (list item) :=
  let ruleNames := keys rules in
  match assoc wildcardRuleName rules with
  | None => Throw TypeError
  | Some wildcardRule =>
      let maybeRequiredRuleCount :=
        Z.of_nat (length ruleNames) - (if entryRequired wildcardRule then 0 else 1) in
      let total := Z.max (Z.of_nat (length array)) maybeRequiredRuleCount in
      let wildcardIndex := indexOf wildcardRuleName ruleNames in
      let nonWildcardRulesAtEnd := Z.of_nat (length ruleNames) - 1 - wildcardIndex in
      let wildcardEndIndex := total - nonWildcardRulesAtEnd - 1 in
      Normal
        ((fun i : nat =>
            let ruleIndex :=
              wildcardRuleIndex wildcardIndex wildcardEndIndex (Z.of_nat i) in
            (nth_value array i, nameAt ruleNames ruleIndex, Index i))
         <$> seq 0 (Z.to_nat total))
  end.

Definition iterateArrayWithRules (array : list value) (rules : ruleMap)
    : completion (list item) :=
  let ruleNames := keys rules in
  let total := Nat.max (length array) (length ruleNames) in
  Normal
    ((fun i : nat =>
        (* [i % 0] is NaN and names no rule *)
        let ruleName :=
          if decide (length ruleNames = 0)%nat then None
          else ruleNames !! (i mod length ruleNames)%nat in
        (nth_value array i, ruleName, Index i))
     <$> seq 0 total).

Definition iterateObjectWithRules (obj : value) (rules : ruleMap)
    : completion (list item) :=
  mapM (fun ruleName =>
          v ← get_prop obj ruleName;
          Normal (v, Some ruleName, Name ruleName))
       (keys rules).

Definition iterateObjectWithRulesWildcard (obj : value) (rules : ruleMap)
    : completion (list item) :=
  props ← ownProps obj;
  let valueNames := keys props in
  let ruleNames := keys rules in
  let explicitNames :=
    List.filter (fun name => negb (String.eqb name wildcardRuleName)) ruleNames in
  let implicitNames :=
    List.filter (fun name => indexOf name explicitNames =? -1) valueNames in
  let names := explicitNames ++ implicitNames in
  mapM (fun name =>
          (* [!rules[ruleName]]: an entry of the Rule Map is truthy, so under a
             name [Object.prototype] does not define this asks whether the
             Rule Map has the entry *)
          let ruleName :=
            if hasOwnProperty rules name then name else wildcardRuleName in
          v ← get_prop obj name;
          Normal (v, Some ruleName, Name name))
       names.

(** The strategy [processChildRules] selects and calls: by whether the
    parent is an array and whether the Rule Map has a wildcard entry. *)
Definition iterate (parentValue : value) (rules : ruleMap) : completion (list item) :=
  let hasWildcard := hasOwnProperty rules wildcardRuleName in
  match parentValue with
  | VArr array =>
      if hasWildcard then iterateArrayWithRulesWildcard array rules
      else iterateArrayWithRules array rules
  | _ =>
      if hasWildcard then iterateObjectWithRulesWildcard parentValue rules
      else iterateObjectWithRules parentValue rules
  end.

(** ** Mutation of the value tree *)

Fixpoint updateField (name : string) (v : value) (f : list (string * value))
    : list (string * value) :=
  match f with
  | [] => []
  | (k, x) :: f' =>
      if String.eqb k name then (k, v) :: f' else (k, x) :: updateField name v f'
  end.

(** The parent after the child it holds at [p] was mutated in place into
    [child]: the parent keeps the reference, so it shows the mutation. *)
Definition replaceChild (parent : value) (p : position) (child : value) : value :=
  match parent, p with
  | VArr l, Index i => VArr (<[i := child]> l)
  | VObj f, Name n => VObj (updateField n child f)
  | _, _ => parent
  end.

(** [parentValue[valueName] = v]: an array grows to hold the index, an object
    gains the property; a primitive ignores the assignment. *)
Definition assign (parent : value) (p : position) (v : value) : completion value :=
  match parent, p with
  | (VUndef | VNull), _ => Throw TypeError
  | VArr l, Index i =>
      if decide (i < length l)%nat then Normal (VArr (<[i := v]> l))
      else Normal (VArr (l ++ replicate (i - length l) VUndef ++ [v]))
  | VObj f, Name n =>
      if hasOwnProperty f n then Normal (VObj (updateField n v f))
      else Normal (VObj (f ++ [(n, v)]))
  | _, _ => Normal parent
  end.

(** [delete obj[key]] on an object; the properties of a string primitive
    cannot be deleted. *)
Definition deleteProp (obj : value) (key : string) : value :=
  match obj with
  | VObj f => VObj (List.filter (fun kv => negb (String.eqb kv.1 key)) f)
  | _ => obj
  end.

(** [rules.hasOwnProperty(key)]: the method every object inherits, unless
    the Rule Map has an entry of that name, and an entry is no function. *)
Definition rules_hasOwnProperty (rules : ruleMap) (key : string) : completion bool :=
  if hasOwnProperty rules "hasOwnProperty" then Throw TypeError
  else Normal (hasOwnProperty rules key).

(** The loop runs over the keys the object had when it started. *)
Definition applyFilterForObject (parentKey : string) (obj : value) (rules : ruleMap)
    : completion value :=
  props ← ownProps obj;
  let valueKeys := keys props in
  foldl (fun (c : completion value) key =>
           o ← c;
           named ← rules_hasOwnProperty rules key;
           Normal (if negb named then deleteProp o key else o))
        (Normal obj) valueKeys.

(** [names.forEach(callback)] over the pair of the parent value and the
    stack; the first exception ends the loop. *)
Fixpoint forEach (callback : item → value → ParentStack → value * completion ParentStack)
    (items : list item) (parentValue : value) (parentStack : ParentStack)
    : value * completion ParentStack :=
  match items with
  | [] => (parentValue, Normal parentStack)
  | it :: items' =>
      match callback it parentValue parentStack with
      | (parentValue', Normal parentStack') =>
          forEach callback items' parentValue' parentStack'
      | stopped => stopped
      end
  end.

(** ** The rule engine *)

Section engine.

(** [var formats = require('./validatorformats')] and the module variable
    [currentOptions] that [validate] sets. *)
Context (formats : Formats) (currentOptions : Options).

Definition arrayContains (v : value) (allowedValues : list value) : bool :=
  existsb (fun allowedValue => strict_eq allowedValue v) allowedValues.

Definition isRequired (rules : rule) (v : value) (key : string) : completion unit :=
  if is_undefined v then Throw (TrackValidationError key NotDefinedButRequired)
  else Normal ().

(** Returns [Some] of the converter's output, or [None] when
    [convertedValue] is still [value] itself. *)
Definition isCorrectFormat (rules : rule) (v : value) (key : string)
    : completion (option value) :=
  let format := default "" (format rules) in
  let validator := validators formats format in
  let converter :=
    if opt_convert currentOptions then converters formats format else None in
  match converter, validator with
  | Some converter, _ =>
      match converter v with
      | Normal convertedValue => Normal (Some convertedValue)
      | Throw (StringThrown e) => Throw (TrackValidationError key (FormatError e))
      | Throw e => Throw e
      | Diverge => Diverge
      end
  | None, Some validator =>
      ok ← validator v;
      if negb ok then Throw (TrackValidationError key (NotAValidFormatValue format))
      else Normal None
  | None, None => Throw (Error format key)
  end.

Definition isAllowedValue (rules : rule) (v : value) (key : string) : completion unit :=
  let allowedValues := default [] (allowedValues rules) in
  if negb (arrayContains v allowedValues)
  then Throw (TrackValidationError key (NotInAllowedValues v allowedValues))
  else Normal ().

Definition isInRange (rules : rule) (v : value) (key : string) : completion unit :=
  let from := nth_value (default [] (range rules)) 0 in
  let to := nth_value (default [] (range rules)) 1 in
  if js_lt v from || js_gt v to
  then Throw (TrackValidationError key (OutOfRange v from to))
  else Normal ().

Definition isMinLength (rules : rule) (v : value) (key : string) : completion unit :=
  let minLength := default 0 (minLength rules) in
  len ← get_length v;
  if js_lt len (VNum minLength)
  then Throw (TrackValidationError key (MinLengthNotReached minLength len))
  else Normal ().

Definition isLength (rules : rule) (v : value) (key : string) : completion unit :=
  let length := default 0 (rule_length rules) in
  len ← get_length v;
  if negb (strict_eq len (VNum length))
  then Throw (TrackValidationError key (WrongLength length len))
  else Normal ().

Definition isMaxLength (rules : rule) (v : value) (key : string) : completion unit :=
  let maxLength := default 0 (maxLength rules) in
  len ← get_length v;
  if js_gt len (VNum maxLength)
  then Throw (TrackValidationError key (MaxLengthExceeded maxLength len))
  else Normal ().

(** The callback of [rule.some(...)]: the first alternative whose named
    condition holds. *)
Fixpoint someCondition (alternatives : list rule) (v parentValue : value)
    (key : string) : completion (option rule) :=
  match alternatives with
  | [] => Normal None
  | r :: alternatives' =>
      match truthyString (condition r) with
      | None => someCondition alternatives' v parentValue key
      | Some name =>
          match opt_conditions currentOptions with
          | None => Throw TypeError
          | Some conditions =>
              match conditions name with
              | None => Throw (TrackValidationError key (InvalidConditionName name))
              | Some cond =>
                  if cond parentValue v then Normal (Some r)
                  else someCondition alternatives' v parentValue key
              end
          end
      end
  end.

(** [rule] is [None] when the Rule Map has no entry under the name. *)
Definition selectConditionalRule (r : option (ruleEntry rule)) (v parentValue : value)
    (key : string) : completion (option rule) :=
  match r with
  | None => Normal None
  | Some (Single r) => Normal (Some r)
  | Some (Alternatives alternatives) =>
      let elseConditions :=
        List.filter (fun selector => bool_decide (condition selector = None))
                    alternatives in
      selectedRule ← someCondition alternatives v parentValue key;
      match selectedRule, elseConditions with
      | Some r, _ => Normal (Some r)
      | None, [] => Normal (Some emptyRule)
      | None, r :: _ => Normal (Some r)
      end
  end.

(** The part of [processRule] before the recursion into [childRules]:
    [None] when the value is undefined and the function returns early,
    otherwise the rule, the result of the conversion and the stack. *)
Definition processRuleChecks (key : string) (r : option rule)
    (ruleName : option string) (v : value) (parentStack : ParentStack)
    : completion (option (rule * option value * ParentStack)) :=
  r ← match r with
      | Some r => Normal r
      | None => Throw (if opt_debug currentOptions then SyntaxError else TypeError)
      end;
  when (required r) (isRequired r v key);;
  if is_undefined v then Normal None else
  convertedValue ← (if bool_decide (is_Some (truthyString (format r)))
                    then isCorrectFormat r v key else Normal None);
  when (bool_decide (is_Some (allowedValues r))) (isAllowedValue r v key);;
  when (bool_decide (is_Some (range r))) (isInRange r v key);;
  when (bool_decide (is_Some (truthyNumber (minLength r)))) (isMinLength r v key);;
  when (bool_decide (is_Some (truthyNumber (maxLength r)))) (isMaxLength r v key);;
  when (bool_decide (is_Some (truthyNumber (rule_length r)))) (isLength r v key);;
  parentStack ← (if fixedChildLength r then enableFixedChildLength parentStack
                 else Normal parentStack);
  parentStack ← processSiblingRules key r ruleName v parentStack;
  Normal (Some (r, convertedValue, parentStack)).

(** [key] in the callback of [processChildRules]: the path of the child. *)
Definition childKey (parentKey : string) (isArray hasMultipleRules : bool)
    (ruleName : option string) (valueName : position) : string :=
  if isArray then
    (* include the rulename in the index if there is more than one rule defined *)
    if hasMultipleRules
    then parentKey +:+ "[" +:+ positionString valueName +:+ ",rule="
           +:+ propertyKey ruleName +:+ "]"
    else parentKey +:+ "[" +:+ positionString valueName +:+ "]"
  else parentKey +:+ (if String.eqb parentKey "" then "" else ".")
         +:+ positionString valueName.

(** The end of the callback, from the result of [processRule]: the child
    holds what the call mutated in place, and with [convert] a defined
    [convertedValue] is assigned to its position. *)
Definition writeBack (parentValue : value) (valueName : position)
    (result : value * completion (value * ParentStack))
    : value * completion ParentStack :=
  let '(v', c) := result in
  let parentValue := replaceChild parentValue valueName v' in
  match c with
  | Throw e => (parentValue, Throw e)
  | Diverge => (parentValue, Diverge)
  | Normal (convertedValue, parentStack) =>
      if negb (is_undefined convertedValue) && opt_convert currentOptions then
        match assign parentValue valueName convertedValue with
        | Normal parentValue' => (parentValue', Normal parentStack)
        | Throw e => (parentValue, Throw e)
        | Diverge => (parentValue, Diverge)
        end
      else (parentValue, Normal parentStack)
  end.

Section children.

(** The recursive call, bound by [processRule] below. *)
Variable processRule :
  string → option rule → option string → value → ParentStack →
  value * completion (value * ParentStack).

(** The function passed to [iterate] in [processChildRules]. *)
Definition callback (parentKey : string) (rules : ruleMap)
    (isArray hasMultipleRules : bool) (it : item)
    (parentValue : value) (parentStack : ParentStack)
    : value * completion ParentStack :=
  let '(v, ruleName, valueName) := it in
  let r := assoc (propertyKey ruleName) rules in
  let key := childKey parentKey isArray hasMultipleRules ruleName valueName in
  match selectConditionalRule r v parentValue key with
  | Throw e => (parentValue, Throw e)
  | Diverge => (parentValue, Diverge)
  | Normal r => writeBack parentValue valueName (processRule key r ruleName v parentStack)
  end.

Definition processChildRules (parentKey : string) (rules : ruleMap)
    (parentValue : value) (parentStack : option ParentStack)
    : value * completion ParentStack :=
  let hasWildcard := hasOwnProperty rules wildcardRuleName in
  let hasMultipleRules := bool_decide (1 < length (keys rules))%nat in
  let isArray := isArray parentValue in
  (* initialize the parent stack if it was not passed *)
  let parentStack := default new_ParentStack parentStack in
  let parentStack := push parentStack in
  match iterate parentValue rules with
  | Throw e => (parentValue, Throw e)
  | Diverge => (parentValue, Diverge)
  | Normal items =>
      match forEach (callback parentKey rules isArray hasMultipleRules)
                    items parentValue parentStack with
      | (parentValue, Normal parentStack) =>
          if opt_filter currentOptions && negb isArray && negb hasWildcard then
            match applyFilterForObject parentKey parentValue rules with
            | Normal parentValue' => (parentValue', Normal (pop parentStack))
            | Throw e => (parentValue, Throw e)
            | Diverge => (parentValue, Diverge)
            end
          else (parentValue, Normal (pop parentStack))
      | stopped => stopped
      end
  end.

End children.

(** The frame one level up holds the value an ordering check recorded by
    reference, so what the level below mutates in place in the value shows in
    that frame: once the level below has run, the record made under an
    ordering flag is the value [v'] as that level left it.  (Nothing between
    the check and the end of the level reads or writes this record: the
    level below works on its own frame and on the frame of [v].) *)
Definition mutatedInFrame (r : rule) (ruleName : option string) (v' : value)
    (s : ParentStack) : ParentStack :=
  if ascending r || descending r || noRepeat r
  then setPrevChildValue ruleName v' s else s.

(** [fuel] bounds the nesting of [childRules] the call may enter. *)
Fixpoint processRule (fuel : nat) (key : string) (r : option rule)
    (ruleName : option string) (v : value) (parentStack : ParentStack)
    {struct fuel} : value * completion (value * ParentStack) :=
  match processRuleChecks key r ruleName v parentStack with
  | Throw e => (v, Throw e)
  | Diverge => (v, Diverge)
  | Normal None => (v, Normal (VUndef, parentStack))
  | Normal (Some (r, convertedValue, parentStack)) =>
      match childRules r with
      | None => (v, Normal (default v convertedValue, parentStack))
      | Some rules =>
          if negb (typeof_object v)
          then (v, Throw (TrackValidationError key ExpectedObjectOrArray))
          else
            match fuel with
            | O => (v, Diverge)
            | S fuel' =>
                let '(v', c) :=
                  processChildRules (processRule fuel') key rules v (Some parentStack) in
                (v', parentStack ← c;
                     Normal (default v' convertedValue,
                             mutatedInFrame r ruleName v' parentStack))
            end
      end
  end.

End engine.

(** The nesting depth of [childRules] below a rule and below a Rule Map. *)
Fixpoint depth (r : rule) : nat :=
  match childRules r with
  | None => 0
  | Some rules =>
      S (foldr (fun e d =>
                  Nat.max
                    match e.2 with
                    | Single r' => depth r'
                    | Alternatives rs => foldr (fun r' d' => Nat.max (depth r') d') 0%nat rs
                    end d)
               0%nat rules)
  end.

Definition entryDepth (e : ruleEntry rule) : nat :=
  match e with
  | Single r => depth r
  | Alternatives rs => foldr (fun r d => Nat.max (depth r) d) 0%nat rs
  end.

Definition rulesDepth (rules : ruleMap) : nat :=
  foldr (fun e d => Nat.max (entryDepth e.2) d) 0%nat rules.

(** [validate(data, rules, options)]: the data after the call and how the
    call completed. *)
Definition validate (formats : Formats) (data : value) (rules : ruleMap)
    (options : UserOptions) : value * completion unit :=
  let currentOptions := extend defaultOptions options in
  let '(data', c) :=
    processChildRules currentOptions
      (processRule formats currentOptions (rulesDepth rules)) "" rules data None in
  (data', c ;; Normal ()).

(** ** The format registry of [validatorformats.js] *)

Module validatorformats.

(** [parseInt(s, 10)]: the longest prefix of digits after white space and a
    sign; [None] is NaN. *)
Fixpoint digitPrefix (acc : option Z) (s : string) : option Z :=
  match s with
  | EmptyString => acc
  | String c s' =>
      match digitValue c with
      | Some d => digitPrefix (Some (10 * default 0 acc + d)) s'
      | None => acc
      end
  end.

Definition parseInt (s : string) : option Z :=
  match trimStart s with
  | String "+"%char s' => digitPrefix None s'
  | String "-"%char s' => Z.opp <$> digitPrefix None s'
  | s' => digitPrefix None s'
  end.

Definition charCodes (s : string) : list nat :=
  nat_of_ascii <$> list_ascii_of_string s.

Definition isAlnumCode (code : nat) : bool :=
  ((65 <=? code) && (code <=? 90) || (97 <=? code) && (code <=? 122)
   || (48 <=? code) && (code <=? 57))%nat.

Definition isHexCode (code : nat) : bool :=
  ((65 <=? code) && (code <=? 70) || (97 <=? code) && (code <=? 102)
   || (48 <=? code) && (code <=? 57))%nat.

Definition number (v : value) : bool :=
  match v with VNum _ => true | _ => false end.

Definition between (lo hi : Z) (v : value) : bool :=
  match v with VNum n => (lo <=? n) && (n <=? hi) | _ => false end.

Definition geo : value → bool := between (-180) 180.

Definition timestamp (v : value) : bool :=
  match v with VNum n => 0 <=? n | _ => false end.

Definition uuidnodashes (v : value) : bool :=
  match v with
  | VStr s => (String.length s =? 32)%nat && forallb isAlnumCode (charCodes s)
  | _ => false
  end.

(** The loop of [hex] runs over [value.length]; on a value that is not a
    string [charCodeAt] is not a function. *)
Definition hex (v : value) : completion bool :=
  len ← get_length v;
  match v with
  | VStr s => Normal (forallb isHexCode (charCodes s))
  | _ => if js_lt (VNum 0) len then Throw TypeError else Normal true
  end.

Definition uuid (v : value) : bool :=
  match v with
  | VStr s =>
      (String.length s =? 36)%nat
      && forallb (fun i => String.eqb (substring i 1 s) "-") [8; 13; 18; 23]%nat
      && uuidnodashes
           (VStr (substring 0 8 s +:+ substring 9 4 s +:+ substring 14 4 s
                  +:+ substring 19 4 s +:+ substring 24 12 s))
  | _ => false
  end.

Definition year : value → bool := between 2000 2099.
Definition month : value → bool := between 1 12.
Definition day : value → bool := between 1 31.

Section registry.

(** The host functions the registry leans on: whether [Date.parse] yields a
    number, and the two regular expression tests. *)
Context (dateParses emailPattern iso8601DatePattern : value → completion bool).

Definition validators (format : string) : option (value → completion bool) :=
  let pure (f : value → bool) := Some (fun v => Normal (f v)) in
  if String.eqb format "date" then Some dateParses
  else if String.eqb format "string" then pure (fun v => match v with VStr _ => true | _ => false end)
  else if String.eqb format "object" then pure (fun v => typeof_object v && negb (isArray v))
  else if String.eqb format "array" then pure isArray
  else if String.eqb format "number" then pure number
  else if String.eqb format "boolean" then pure (fun v => match v with VBool _ => true | _ => false end)
  else if String.eqb format "geo" then pure geo
  else if String.eqb format "timestamp" then pure timestamp
  else if String.eqb format "uuidnodashes" then pure uuidnodashes
  else if String.eqb format "hex" then Some hex
  else if String.eqb format "uuid" then pure uuid
  else if String.eqb format "email" then
    Some (fun v => len ← get_length v;
                   if js_gt len (VNum 256) then Normal false else emailPattern v)
  else if String.eqb format "iso8601DateSubset" then
    Some (fun v => len ← get_length v;
                   if negb (loose_eq_number len 10) then Normal false
                   else (ok ← iso8601DatePattern v;
                         if ok : bool then dateParses v else Normal false))
  else if String.eqb format "year" then pure year
  else if String.eqb format "month" then pure month
  else if String.eqb format "day" then pure day
  else None.

Definition convertNumber (v : value) : completion value :=
  match v with
  | VNum _ => Normal v
  | VStr s =>
      match parseInt s with
      | Some n => Normal (VNum n)
      | None => Throw (StringThrown "NaN is not a number or a number string")
      end
  | _ => Throw (StringThrown (ToString v +:+ " is not a number or a number string"))
  end.

Definition convertChecked (check : value → bool) (e : string) (v : value)
    : completion value :=
  n ← convertNumber v;
  if check n then Normal n else Throw (StringThrown e).

(** [Math.round] of a number of the value domain: an integer, which it
    returns as it is. *)
Definition Math_round (n : value) : value := n.

Definition converters (format : string) : option (value → completion value) :=
  if String.eqb format "number" then Some convertNumber
  else if String.eqb format "boolean" then Some (fun v => Normal (VBool (truthy v)))
  else if String.eqb format "geo" then
    Some (convertChecked geo "geo values should be numbers between -180 and 180")
  else if String.eqb format "altitude" then
    (* validators.altitude is not a function *)
    Some (fun v => _ ← convertNumber v; Throw TypeError)
  else if String.eqb format "timestamp" then
    Some (fun v => n ← convertNumber v;
                   let n := Math_round n in
                   if timestamp n then Normal n
                   else Throw (StringThrown "timestamp values should be positive numbers"))
  else if String.eqb format "year" then
    Some (convertChecked year "year should be between 2000 and 2099")
  else if String.eqb format "month" then
    Some (convertChecked month "month should be between 1 and 12")
  else if String.eqb format "day" then
    Some (convertChecked day "day should be between 1 and 31")
  else None.

Definition exports : Formats :=
  Build_Formats validators converters.

End registry.

End validatorformats.

(** ** Sample rules and data *)

Module sample.

(** The registry with host functions that accept nothing; no sample uses the
    formats that call them. *)
Definition formats : Formats :=
  validatorformats.exports (fun _ => Normal false) (fun _ => Normal false)
                           (fun _ => Normal false).

Definition noOptions : UserOptions := Build_UserOptions None None None None.

Definition convertOn : UserOptions := Build_UserOptions None None (Some true) None.

Definition filterOn : UserOptions := Build_UserOptions (Some true) None None None.

(** [{ascending: true}] *)
Definition ascendingRule : rule :=
  Rule false None None None None None None false true false false None None.

(** [{range: [lo, hi]}] *)
Definition rangeRule (lo hi : Z) : rule :=
  Rule false None None (Some [VNum lo; VNum hi]) None None None
       false false false false None None.

(** [{fixedChildLength: true}] *)
Definition fixedRule : rule :=
  Rule false None None None None None None true false false false None None.

(** [{childRules: rules}] *)
Definition parentRule (rules : ruleMap) : rule :=
  Rule false None None None None None None false false false false None (Some rules).


(** [{format: f, ascending: true}] and [{format: f, descending: true}] *)
Definition formatAscendingRule (f : string) : rule :=
  Rule false (Some f) None None None None None false true false false None None.

Definition formatDescendingRule (f : string) : rule :=
  Rule false (Some f) None None None None None false false true false None None.

(** [{condition: name}] *)
Definition conditionRule (name : string) : rule :=
  Rule false None None None None None None false false false false (Some name) None.

Definition numbers (l : list Z) : value := VArr (VNum <$> l).

(** [{format: f}] *)
Definition formatRule (f : string) : rule :=
  Rule false (Some f) None None None None None false false false false None None.

(** [{conditions: {}}] *)
Definition emptyConditions : UserOptions :=
  Build_UserOptions None None None (Some (fun _ => None)).

(** Two sibling containers whose children run under an ascending wildcard
    rule. *)
Definition twoContainers : ruleMap :=
  [("a", Single (parentRule [("*", Single ascendingRule)]));
   ("b", Single (parentRule [("*", Single ascendingRule)]))].

End sample.

(** ** Predicates of the statements *)

(** A name [Object.prototype] does not define: a lookup under it finds an
    own property or nothing. *)
Definition plainName (name : string) : bool :=
  bool_decide (assoc name Object_prototype = None).

(** A value none of whose objects, at any depth, has a key that
    [Object.prototype] defines. *)
Fixpoint plainValue (v : value) : bool :=
  match v with
  | VArr elems => forallb plainValue elems
  | VObj fields =>
      forallb (fun kv => let '(k, x) := kv in plainName k && plainValue x) fields
  | _ => true
  end.

(** A rule whose constants are plain values, whose format and condition are
    plain names, so that the registries are asked for an entry of their
    own, and whose Rule Maps, at any depth, name no rule as
    [Object.prototype] names a member. *)
Fixpoint plainRule (r : rule) : bool :=
  forallb plainValue (default [] (allowedValues r))
  && forallb plainValue (default [] (range r))
  && plainName (default "" (format r))
  && plainName (default "" (condition r))
  && match childRules r with
     | None => true
     | Some rules =>
         forallb (fun e =>
                    let '(name, entry) := e in
                    plainName name
                    && match entry with
                       | Single r' => plainRule r'
                       | Alternatives rs => forallb plainRule rs
                       end)
                 rules
     end.

Definition plainNames (names : list string) : bool := forallb plainName names.

Definition plainEntry (e : ruleEntry rule) : bool :=
  match e with
  | Single r => plainRule r
  | Alternatives rs => forallb plainRule rs
  end.

Definition plainRules (rules : ruleMap) : bool :=
  forallb (fun e => plainName e.1 && plainEntry e.2) rules.

(** Data every lookup in which is a lookup of an own property: an object or
    an array, not a primitive with the members of its wrapper's prototype,
    and a plain value. *)
Definition plainData (data : value) : bool :=
  typeof_object data && plainValue data.

(** [p'] is [p] with [v] recorded under [ruleName] and nothing else changed. *)
Definition recordedIn (p : frame) (ruleName : option string) (v : value)
    (p' : frame) : Prop :=
  info_prevChildValues p'
  = Some (<[propertyKey ruleName := v]> (default ∅ (info_prevChildValues p)))
  ∧ info_fixedChildLength p' = info_fixedChildLength p.

(** [s'] has the frames of [s] from offset [k] down, and as many frames. *)
Definition agreeFrom (k : nat) (s s' : ParentStack) : Prop :=
  length s' = length s ∧ ∀ o, (k ≤ o)%nat → peek o s' = peek o s.

(** [it] carries the value the parent holds at the item's position. *)
Definition itemOf (parent : value) (it : item) : Prop :=
  match parent, it with
  | VArr l, (v, _, Index i) => v = nth_value l i
  | VObj f, (v, _, Name n) => v = default VUndef (assoc n f)
  | (VArr _ | VObj _), _ => False
  | _, _ => True
  end.

(** [b] has the positions of [a]: as many elements for an array, the same
    keys in the same order for an object; any other value is unchanged. *)
Definition sameShape (a b : value) : Prop :=
  match a, b with
  | VArr l, VArr l' => length l' = length l
  | VObj f, VObj f' => keys f' = keys f
  | _, _ => b = a
  end.

(** [r] without its ordering flags, and a Rule Map without the ordering
    flags of its own rules; the Rule Maps below them are untouched. *)
Definition clearOrdering (r : rule) : rule :=
  Rule (required r) (format r) (allowedValues r) (range r) (minLength r)
       (maxLength r) (rule_length r) (fixedChildLength r) false false false
       (condition r) (childRules r).

Definition clearOrderingEntry (e : ruleEntry rule) : ruleEntry rule :=
  match e with
  | Single r => Single (clearOrdering r)
  | Alternatives rs => Alternatives (clearOrdering <$> rs)
  end.

Definition clearOrderingMap (rules : ruleMap) : ruleMap :=
  prod_map id clearOrderingEntry <$> rules.

(** The functions of the registry return or throw. *)
Definition formatsReturn (formats : Formats) : Prop :=
  (∀ f validator v, validators formats f = Some validator → validator v ≠ Diverge)
  ∧ (∀ f converter v, converters formats f = Some converter → converter v ≠ Diverge).

(** Whether the named condition of alternative [r] is registered and holds
    of [(parentValue, v)]. *)
Definition conditionHolds (conditions : conditionsRegistry) (parentValue v : value)
    (r : rule) : bool :=
  match truthyString (condition r) with
  | Some name =>
      match conditions name with
      | Some cond => cond parentValue v
      | None => false
      end
  | None => false
  end.

(** [{ascending: asc, descending: desc, noRepeat: nr}]: a rule that carries
    ordering flags only. *)
Definition orderingRule (asc desc nr : bool) : rule :=
  Rule false None None None None None None false asc desc nr None None.

(** Whether the number [y] may follow the number [x] under the ordering
    flags of [r]. *)
Definition mayFollow (r : rule) (x y : Z) : bool :=
  (negb (ascending r) || (x <=? y))
  && (negb (descending r) || (y <=? x))
  && (negb (noRepeat r) || negb (x =? y)).

(** What is reported when [y] may not follow [x]: the checks run in the
    order ascending, descending, noRepeat. *)
Definition orderingReason (r : rule) (x y : Z) : reason :=
  if ascending r && (y <? x) then BreaksAscendingOrder
  else if descending r && (x <? y) then BreaksDescendingOrder
  else RepeatsPreviousSibling.

(** The calls a lone wildcard rule receives for the elements [xs] that start
    at index [k] of an array. *)
Definition wildcardItems (k : nat) (xs : list value) : list item :=
  zip_with (λ i v, (v, Some wildcardRuleName, Index i)) (seq k (length xs)) xs.

(** [r] with each falsy constraint value taken out: a length constraint of
    [0] and the empty format name. *)
Definition dropFalsy (r : rule) : rule :=
  Rule (required r) (truthyString (format r)) (allowedValues r) (range r)
       (truthyNumber (minLength r)) (truthyNumber (maxLength r))
       (truthyNumber (rule_length r)) (fixedChildLength r) (ascending r)
       (descending r) (noRepeat r) (condition r) (childRules r).

(** [{minLength: min, maxLength: max, length: len}], each property optional. *)
Definition lengthRule (min max len : option Z) : rule :=
  Rule false None None None min max len false false false false None None.

(** [{allowedValues: allowed, range: [lo, hi]}], [allowedValues] optional. *)
Definition numberRule (allowed : option (list value)) (lo hi : Z) : rule :=
  Rule false None allowed (Some [VNum lo; VNum hi]) None None None
       false false false false None None.

(** Whether [r], or a rule of its Rule Maps at any depth, names the
    format [f]. *)
Fixpoint namesFormat (f : string) (r : rule) : bool :=
  bool_decide (format r = Some f)
  || match childRules r with
     | None => false
     | Some rules =>
         existsb (fun e =>
                    match e.2 with
                    | Single r' => namesFormat f r'
                    | Alternatives rs => existsb (namesFormat f) rs
                    end)
                 rules
     end.

Definition entryNamesFormat (f : string) (e : ruleEntry rule) : bool :=
  match e with
  | Single r => namesFormat f r
  | Alternatives rs => existsb (namesFormat f) rs
  end.

Definition rulesNameFormat (f : string) (rules : ruleMap) : bool :=
  existsb (fun e => entryNamesFormat f e.2) rules.

(** The options [o] with [convert] switched on. *)
Definition withConvert (o : Options) : Options :=
  {| opt_filter := opt_filter o; opt_debug := opt_debug o; opt_convert := true;
     opt_conditions := opt_conditions o |}.

(** The exceptions [validate] lets out: validation errors, the plain error
    of an unknown format name, the type error of a property read on
    undefined or null, and with [debug] the syntax error of the JSON round
    trip; never the bare string a converter throws. *)
Definition raisedByValidate (debug : bool) (e : exn) : Prop :=
  match e with
  | TrackValidationError _ _ | Error _ _ | TypeError => True
  | SyntaxError => debug = true
  | StringThrown _ => False
  end.

(** An exception that names a key names one that extends [key]: the error
    is about the value at [key] or about a value below it. *)
Definition locatedBelow (key : string) (e : exn) : Prop :=
  match e with
  | TrackValidationError k _ | Error _ k => ∃ rest, k = key +:+ rest
  | _ => True
  end.

(** Every exception [c] may raise satisfies [P]. *)
Definition onlyRaises {A} (P : exn → Prop) (c : completion A) : Prop :=
  ∀ e, c = Throw e → P e.

(** [P] holds of the exceptions that name [key]. *)
Definition admits (P : exn → Prop) (key : string) : Prop :=
  (∀ why, P (TrackValidationError key why)) ∧ (∀ f, P (Error f key)).

(** The constraints of [r] that depend on the value alone: the allowed
    values, the range and the three length constraints. *)
Definition satisfies (r : rule) (v : value) : Prop :=
  (∀ allowed, allowedValues r = Some allowed → arrayContains v allowed = true)
  ∧ (∀ bounds, range r = Some bounds →
       js_lt v (nth_value bounds 0) = false ∧ js_gt v (nth_value bounds 1) = false)
  ∧ (∀ a, truthyNumber (minLength r) = Some a →
       ∃ len, get_length v = Normal len ∧ js_lt len (VNum a) = false)
  ∧ (∀ b, truthyNumber (maxLength r) = Some b →
       ∃ len, get_length v = Normal len ∧ js_gt len (VNum b) = false)
  ∧ (∀ c, truthyNumber (rule_length r) = Some c → get_length v = Normal (VNum c)).

(** * Properties *)

(** ** Iteration strategies *)

Lemma length_keys {A} (m : list (string * A)) : length (keys m) = length m.
Proof. unfold keys. by rewrite length_fmap. Qed.



(** The head and the wildcard part of the index computation are as the
    strategy describes them. *)
Lemma wildcardRuleIndex_head (h e i : Z) :
  0 ≤ i < h → i ≤ e → wildcardRuleIndex h e i = i.
Proof.
  intros Hi He. unfold wildcardRuleIndex.
  destruct (e <? i) eqn:E1; [lia |].
  destruct ((h <=? i) && (i <=? e)) eqn:E2; [lia | done].
Qed.

Lemma wildcardRuleIndex_middle (h e i : Z) :
  h ≤ i ≤ e → wildcardRuleIndex h e i = h.
Proof.
  intros Hi. unfold wildcardRuleIndex.
  destruct (e <? i) eqn:E1; [lia |].
  destruct ((h <=? i) && (i <=? e)) eqn:E2; [done | lia].
Qed.

(** Past the wildcard the index is [i - e + 1]; the tail rule that belongs to
    position [i] is number [h + (i - e)], which it is only for [h = 1]. *)
Lemma wildcardRuleIndex_tail (h e i : Z) :
  e < i → (wildcardRuleIndex h e i = h + (i - e) ↔ h = 1).
Proof.
  intros Hi. unfold wildcardRuleIndex.
  destruct (e <? i) eqn:E1; lia.
Qed.

(** C1. With two head rules [a], [b] before the wildcard and one tail rule
    [c] after it, the last position of a four-element sequence is given the
    wildcard rule, not [c]: the value 4 passes although [c] asks for a value
    in 10..20.  With one head rule the tail is assigned as described. *)
Theorem wildcard_tail_rule_misassigned :
  iterate (sample.numbers [1; 2; 3; 4])
    [("a", Single emptyRule); ("b", Single emptyRule);
     ("*", Single emptyRule); ("c", Single (sample.rangeRule 10 20))]
  = Normal [(VNum 1, Some "a", Index 0); (VNum 2, Some "b", Index 1);
            (VNum 3, Some "*", Index 2); (VNum 4, Some "*", Index 3)]
  ∧ validate sample.formats
      (VObj [("arr", sample.numbers [1; 2; 3; 4])])
      [("arr", Single (sample.parentRule
          [("a", Single emptyRule); ("b", Single emptyRule);
           ("*", Single emptyRule); ("c", Single (sample.rangeRule 10 20))]))]
      sample.noOptions
    = (VObj [("arr", sample.numbers [1; 2; 3; 4])], Normal ())
  ∧ iterate (sample.numbers [1; 2; 3; 4; 5])
      [("a", Single emptyRule); ("*", Single emptyRule); ("b", Single emptyRule)]
    = Normal [(VNum 1, Some "a", Index 0); (VNum 2, Some "*", Index 1);
              (VNum 3, Some "*", Index 2); (VNum 4, Some "*", Index 3);
              (VNum 5, Some "b", Index 4)].
Proof. repeat split; vm_compute; reflexivity. Qed.

(** Closed statements about sample inputs are settled by evaluation. *)
Ltac by_evaluation := vm_compute; reflexivity.

(** ** Comparisons *)

Lemma string_ltb_asym (a b : string) : String.ltb a b = true → String.ltb b a = false.
Proof.
  unfold String.ltb. rewrite (String.compare_antisym b a).
  by destruct (String.compare a b).
Qed.

Lemma string_ltb_irrefl (a : string) : String.ltb a a = false.
Proof.
  destruct (String.ltb a a) eqn:E; [| done].
  by rewrite (string_ltb_asym _ _ E) in E.
Qed.





Lemma js_lt_numbers (a b : Z) : js_lt (VNum a) (VNum b) = (a <? b).
Proof. reflexivity. Qed.

(** Only a primitive is identical to a value at another position. *)
Lemma strict_eq_eq (a b : value) : strict_eq a b = true → a = b.
Proof.
  destruct a, b; cbn [strict_eq]; try done.
  - intros H. f_equal. by apply Bool.eqb_prop.
  - intros H. f_equal. lia.
  - intros H. f_equal. by apply String.eqb_eq.
Qed.


(** ** The frames of the stack *)

Lemma length_poke (o : nat) (f : frame) (s : ParentStack) :
  length (poke o f s) = length s.
Proof. unfold poke. case_decide; [| done]. by rewrite length_insert. Qed.

Lemma peek_Some_lt (o : nat) (s : ParentStack) (f : frame) :
  peek o s = Some f → (o < length s)%nat.
Proof. unfold peek. by case_decide. Qed.

Lemma peek_poke_eq (o : nat) (f : frame) (s : ParentStack) :
  (o < length s)%nat → peek o (poke o f s) = Some f.
Proof.
  intros Ho. unfold peek. rewrite length_poke.
  case_decide; [| done]. unfold poke. case_decide; [| done].
  apply list_lookup_insert_eq. lia.
Qed.

Lemma peek_poke_ne (o o' : nat) (f : frame) (s : ParentStack) :
  o ≠ o' → peek o' (poke o f s) = peek o' s.
Proof.
  intros Hne. unfold peek. rewrite length_poke.
  case_decide; [| done]. unfold poke. case_decide; [| done].
  apply list_lookup_insert_ne. lia.
Qed.

Lemma peek_one_frame (o : nat) (f : frame) : peek (S o) [f] = None.
Proof. unfold peek. case_decide; [simpl in *; lia | done]. Qed.

Lemma recordedIn_trans (p p' p'' : frame) (ruleName : option string) (v : value) :
  recordedIn p ruleName v p' → recordedIn p' ruleName v p'' →
  recordedIn p ruleName v p''.
Proof.
  intros [H1 H2] [H1' H2']. split; [| congruence].
  rewrite H1', H1. simpl. by rewrite insert_insert_eq.
Qed.

Lemma recordedIn_recorded (p p' : frame) (ruleName : option string) (v : value) :
  recordedIn p ruleName v p' → recorded p' ruleName = Some v.
Proof.
  intros [H _]. unfold recorded. rewrite H. simpl. apply lookup_insert_eq.
Qed.


Lemma setPrevChildValue_peek (ruleName : option string) (v : value)
    (s : ParentStack) (p : frame) :
  peek 1 s = Some p →
  ∃ p', peek 1 (setPrevChildValue ruleName v s) = Some p'
        ∧ recordedIn p ruleName v p'.
Proof.
  intros Hp. unfold setPrevChildValue. rewrite Hp.
  eexists. split; [apply peek_poke_eq; by eapply peek_Some_lt | done].
Qed.

(** One check of [processSortingRules], seen from the parent frame. *)
Lemma sortingCheck_spec (enabled broken : bool) (prev : found) (key : string)
    (why : reason) (ruleName : option string) (v : value) (s : ParentStack)
    (p : frame) :
  peek 1 s = Some p →
  let out := sortingCheck enabled broken prev key why ruleName v s in
  if enabled && negb (found_undefined prev) && broken
  then out = Throw (TrackValidationError key why)
  else ∃ s' p', out = Normal s' ∧ peek 1 s' = Some p'
                ∧ (if enabled then recordedIn p ruleName v p' else s' = s).
Proof.
  intros Hp out. subst out. unfold sortingCheck.
  destruct enabled; simpl.
  - destruct (negb (found_undefined prev) && broken); [done |].
    destruct (setPrevChildValue_peek ruleName v s p Hp) as (p' & Hp' & Hrec).
    by exists (setPrevChildValue ruleName v s), p'.
  - by exists s, p.
Qed.

Lemma bind_Normal {A B} (f : A → completion B) (a : A) : (Normal a ≫= f) = f a.
Proof. reflexivity. Qed.

Lemma bind_Throw {A B} (f : A → completion B) (e : exn) : (Throw e ≫= f) = Throw e.
Proof. reflexivity. Qed.

Lemma bind_Diverge {A B} (f : A → completion B) : (Diverge ≫= f) = Diverge.
Proof. reflexivity. Qed.

(** ** Ordering checks *)

(** The three checks in the order the source runs them. *)
Lemma processSortingRules_cases (key : string) (r : rule) (ruleName : option string)
    (v : value) (s : ParentStack) (p : frame) :
  peek 1 s = Some p →
  let prev := prevChildValueOf p ruleName in
  let out := processSortingRules key r ruleName v s in
  if ascending r && negb (found_undefined prev) && js_gt (comparand prev) v
  then out = Throw (TrackValidationError key BreaksAscendingOrder)
  else if descending r && negb (found_undefined prev) && js_lt (comparand prev) v
  then out = Throw (TrackValidationError key BreaksDescendingOrder)
  else if noRepeat r && negb (found_undefined prev) && identical prev v
  then out = Throw (TrackValidationError key RepeatsPreviousSibling)
  else ∃ s' p', out = Normal s' ∧ peek 1 s' = Some p'
         ∧ (if ascending r || descending r || noRepeat r
            then recordedIn p ruleName v p' else s' = s).
Proof.
  intros Hp prev out. subst out. unfold processSortingRules. rewrite Hp.
  fold prev.
  pose proof (sortingCheck_spec (ascending r) (js_gt (comparand prev) v) prev key
                BreaksAscendingOrder ruleName v s p Hp) as H1.
  cbv zeta in H1.
  destruct (ascending r && negb (found_undefined prev) && js_gt (comparand prev) v);
    [by rewrite H1 |].
  destruct H1 as (s1 & p1 & -> & Hp1 & Hr1). rewrite bind_Normal.
  pose proof (sortingCheck_spec (descending r) (js_lt (comparand prev) v) prev key
                BreaksDescendingOrder ruleName v s1 p1 Hp1) as H2.
  cbv zeta in H2.
  destruct (descending r && negb (found_undefined prev) && js_lt (comparand prev) v);
    [by rewrite H2 |].
  destruct H2 as (s2 & p2 & -> & Hp2 & Hr2). rewrite bind_Normal.
  pose proof (sortingCheck_spec (noRepeat r) (identical prev v) prev key
                RepeatsPreviousSibling ruleName v s2 p2 Hp2) as H3.
  cbv zeta in H3.
  destruct (noRepeat r && negb (found_undefined prev) && identical prev v);
    [done |].
  destruct H3 as (s3 & p3 & -> & Hp3 & Hr3).
  exists s3, p3. split; [done |]. split; [done |].
  destruct (ascending r), (descending r), (noRepeat r); simpl in *; subst;
    simplify_eq; eauto using recordedIn_trans.
Qed.

Lemma is_undefined_false (v : value) : is_undefined v = false ↔ v ≠ VUndef.
Proof. destruct v; naive_solver. Qed.

(** Under a name [Object.prototype] does not define, the lookup finds the
    record or nothing. *)
Lemma prevChildValueOf_plain (p : frame) (ruleName : option string) :
  plainName (propertyKey ruleName) = true →
  prevChildValueOf p ruleName = from_option Own NotFound (recorded p ruleName).
Proof.
  intros Hplain%bool_decide_eq_true. unfold prevChildValueOf, recorded.
  destruct (info_prevChildValues p) as [m |]; [| done].
  cbn [mbind option_bind].
  destruct (m !! propertyKey ruleName); [done |]. by rewrite Hplain.
Qed.

Lemma found_plain (x : option value) (v : value) :
  let prev := default VUndef x in
  found_undefined (from_option Own NotFound x) = is_undefined prev
  ∧ comparand (from_option Own NotFound x) = prev
  ∧ identical (from_option Own NotFound x) v = strict_eq prev v.
Proof. by destruct x. Qed.

(** The checks of [processSortingRules] under a plain rule-name, in terms of
    the value the frame records. *)
Lemma processSortingRules_plain (key : string) (r : rule) (ruleName : option string)
    (v : value) (s : ParentStack) (p : frame) :
  peek 1 s = Some p →
  plainName (propertyKey ruleName) = true →
  let prev := default VUndef (recorded p ruleName) in
  let out := processSortingRules key r ruleName v s in
  if ascending r && negb (is_undefined prev) && js_gt prev v
  then out = Throw (TrackValidationError key BreaksAscendingOrder)
  else if descending r && negb (is_undefined prev) && js_lt prev v
  then out = Throw (TrackValidationError key BreaksDescendingOrder)
  else if noRepeat r && negb (is_undefined prev) && strict_eq prev v
  then out = Throw (TrackValidationError key RepeatsPreviousSibling)
  else ∃ s' p', out = Normal s' ∧ peek 1 s' = Some p'
         ∧ (if ascending r || descending r || noRepeat r
            then recordedIn p ruleName v p' else s' = s).
Proof.
  intros Hp Hplain prev out.
  pose proof (processSortingRules_cases key r ruleName v s p Hp) as H.
  cbv zeta in H. rewrite (prevChildValueOf_plain p ruleName Hplain) in H.
  destruct (found_plain (recorded p ruleName) v) as (-> & -> & ->) in H.
  exact H.
Qed.




(** ** Fixed length across children *)

Lemma peek_push (o : nat) (s : ParentStack) : peek (S o) (push s) = peek o s.
Proof.
  unfold peek, push. rewrite length_app. simpl.
  repeat case_decide; try lia; [| done].
  rewrite lookup_app_l by lia. f_equal. lia.
Qed.

Lemma peek_push_top (s : ParentStack) : peek 0 (push s) = Some emptyFrame.
Proof.
  unfold peek, push. rewrite length_app. simpl.
  case_decide; [| lia].
  replace (length s + 1 - 1 - 0)%nat with (length s) by lia.
  by apply list_lookup_middle.
Qed.



(** ** Conditional rules *)

(** An alternative that is reached and names a condition the registry does
    not hold ends the selection with a [TrackValidationError]. *)
Lemma someCondition_unknown_name (opts : Options) (conditions : conditionsRegistry)
    (r : rule) (rest : list rule) (name : string) (v parentValue : value)
    (key : string) :
  opt_conditions opts = Some conditions →
  truthyString (condition r) = Some name →
  conditions name = None →
  someCondition opts (r :: rest) v parentValue key
  = Throw (TrackValidationError key (InvalidConditionName name)).
Proof. intros Hc Hn Hu. simpl. by rewrite Hn, Hc, Hu. Qed.

(** C4. The alternative [{condition: 'isBig'}] under [conditions: {}] ends
    validation with the error class of the data failures, a
    [TrackValidationError]; an unknown format name ends it with a plain
    [Error]. *)
Theorem unknown_condition_raises_validation_error :
  validate sample.formats (VObj [("a", VNum 150)])
    [("a", Alternatives [sample.conditionRule "isBig"; emptyRule])]
    sample.emptyConditions
  = (VObj [("a", VNum 150)],
     Throw (TrackValidationError "a" (InvalidConditionName "isBig")))
  ∧ validate sample.formats (VObj [("a", VNum 150)])
      [("a", Single (sample.formatRule "nosuchformat"))] sample.noOptions
    = (VObj [("a", VNum 150)], Throw (Error "nosuchformat" "a")).
Proof. split; by_evaluation. Qed.

(** ** Ordering state across sibling containers *)

(** C9. Ordering state is recorded under the rule-name in the frame one
    level up, which outlives each container of the level: the containers
    [a] and [b] are each in ascending order and each validates alone, yet
    together the first value of [b] is compared with the last value of [a]
    and validation fails at [b[0]]; for one-element containers [[x]] and
    [[y]] this happens exactly when [y < x]. *)
Theorem ordering_state_shared_by_sibling_containers :
  validate sample.formats (VObj [("a", sample.numbers [1; 2; 3])])
    sample.twoContainers sample.noOptions
  = (VObj [("a", sample.numbers [1; 2; 3])], Normal ())
  ∧ validate sample.formats (VObj [("b", sample.numbers [1; 2; 3])])
      sample.twoContainers sample.noOptions
    = (VObj [("b", sample.numbers [1; 2; 3])], Normal ())
  ∧ validate sample.formats
      (VObj [("a", sample.numbers [1; 2; 3]); ("b", sample.numbers [1; 2; 3])])
      sample.twoContainers sample.noOptions
    = (VObj [("a", sample.numbers [1; 2; 3]); ("b", sample.numbers [1; 2; 3])],
       Throw (TrackValidationError "b[0]" BreaksAscendingOrder))
  ∧ ∀ x y : Z,
      validate sample.formats
        (VObj [("a", sample.numbers [x]); ("b", sample.numbers [y])])
        sample.twoContainers sample.noOptions
      = (VObj [("a", sample.numbers [x]); ("b", sample.numbers [y])],
         if y <? x then Throw (TrackValidationError "b[0]" BreaksAscendingOrder)
         else Normal ()).
Proof.
  split_and!; [by_evaluation .. |].
  intros x y. vm_compute. destruct x, y; try reflexivity.
  all: match goal with
       | |- context [match ?c with Eq => _ | Lt => _ | Gt => _ end] => destruct c
       end; reflexivity.
Qed.

(** ** Plain names *)

Lemma hasOwnProperty_true {A} (m : list (string * A)) (k : string) :
  hasOwnProperty m k = true ↔ k ∈ keys m.
Proof.
  unfold hasOwnProperty, keys. rewrite bool_decide_eq_true.
  induction m as [| [k' a] m IH]; simpl.
  - split; [by intros [? ?] | by intros ?%elem_of_nil].
  - destruct (String.eqb k' k) eqn:E.
    + apply String.eqb_eq in E as ->. split; [intros _; apply elem_of_cons; by left | eauto].
    + apply String.eqb_neq in E. rewrite IH, elem_of_cons.
      split; [by right | by intros [-> | ?]].
Qed.

(** No key of a map with plain keys is a name [Object.prototype] defines. *)
Lemma plainNames_hasOwnProperty {A} (m : list (string * A)) (name : string) :
  plainNames (keys m) = true → plainName name = false →
  hasOwnProperty m name = false.
Proof.
  intros Hall Hname. apply not_true_iff_false. intros Hin%hasOwnProperty_true.
  unfold plainNames in Hall. rewrite forallb_forall in Hall.
  apply list_elem_of_In, Hall in Hin. congruence.
Qed.


(** ** The loop of the filter *)

(** [applyFilterForObject] either raises at the first key, when the Rule Map
    has an entry named [hasOwnProperty], or deletes the keys the Rule Map
    does not name. *)
Lemma applyFilterForObject_cases (parentKey : string) (obj : value) (rules : ruleMap) :
  applyFilterForObject parentKey obj rules
  = props ← ownProps obj;
    if hasOwnProperty rules "hasOwnProperty"
    then match keys props with [] => Normal obj | _ => Throw TypeError end
    else Normal
           (foldl (λ o key, if negb (hasOwnProperty rules key)
                            then deleteProp o key else o)
                  obj (keys props)).
Proof.
  unfold applyFilterForObject. destruct (ownProps obj) as [props | e |]; [| done | done].
  rewrite !bind_Normal. unfold rules_hasOwnProperty.
  destruct (hasOwnProperty rules "hasOwnProperty").
  - destruct (keys props) as [| k ks]; [done |]. simpl.
    induction ks as [| k' ks IH]; [done | exact IH].
  - generalize (keys props). intros ks. revert obj.
    induction ks as [| k ks IH]; intros obj; [done |]. simpl. apply IH.
Qed.

(** ** The stack through one rule *)

Lemma bind_Normal_inv {A B} (c : completion A) (f : A → completion B) (b : B) :
  c ≫= f = Normal b → ∃ a, c = Normal a ∧ f a = Normal b.
Proof. destruct c; [eauto | done | done]. Qed.

Lemma agreeFrom_refl (k : nat) (s : ParentStack) : agreeFrom k s s.
Proof. by split. Qed.

Lemma agreeFrom_trans (k : nat) (s1 s2 s3 : ParentStack) :
  agreeFrom k s1 s2 → agreeFrom k s2 s3 → agreeFrom k s1 s3.
Proof.
  intros [L1 H1] [L2 H2]. split; [congruence |].
  intros o Ho. rewrite H2 by done. by apply H1.
Qed.

Lemma agreeFrom_mono (k k' : nat) (s s' : ParentStack) :
  (k ≤ k')%nat → agreeFrom k s s' → agreeFrom k' s s'.
Proof. intros Hk [L H]. split; [done |]. intros o Ho. apply H. lia. Qed.

Lemma agreeFrom_poke (k o : nat) (f : frame) (s : ParentStack) :
  (o < k)%nat → agreeFrom k s (poke o f s).
Proof.
  intros Ho. split; [apply length_poke |].
  intros o' Ho'. apply peek_poke_ne. lia.
Qed.

Lemma enableFixedChildLength_agree (s s' : ParentStack) :
  enableFixedChildLength s = Normal s' → agreeFrom 1 s s'.
Proof.
  unfold enableFixedChildLength. destruct (peek 0 s); [| done].
  intros [= <-]. apply agreeFrom_poke; lia.
Qed.

Lemma setPrevChildValue_agree (ruleName : option string) (v : value) (s : ParentStack) :
  agreeFrom 2 s (setPrevChildValue ruleName v s).
Proof.
  unfold setPrevChildValue. destruct (peek 1 s); [| apply agreeFrom_refl].
  apply agreeFrom_poke; lia.
Qed.

Lemma sortingCheck_agree (enabled broken : bool) (prev : found) (key : string)
    (why : reason) (ruleName : option string) (v : value) (s s' : ParentStack) :
  sortingCheck enabled broken prev key why ruleName v s = Normal s' →
  agreeFrom 2 s s'.
Proof.
  unfold sortingCheck. destruct enabled; [| intros [= <-]; apply agreeFrom_refl].
  destruct (negb (found_undefined prev) && broken); [done |].
  intros [= <-]. apply setPrevChildValue_agree.
Qed.

Lemma processSortingRules_agree (key : string) (r : rule) (ruleName : option string)
    (v : value) (s s' : ParentStack) :
  processSortingRules key r ruleName v s = Normal s' → agreeFrom 2 s s'.
Proof.
  unfold processSortingRules. destruct (peek 1 s); [| done].
  intros (s1 & H1 & (s2 & H2 & H3)%bind_Normal_inv)%bind_Normal_inv.
  apply agreeFrom_trans with s1; [by eapply sortingCheck_agree |].
  apply agreeFrom_trans with s2; by eapply sortingCheck_agree.
Qed.

Lemma processSiblingRules_agree (key : string) (r : rule) (ruleName : option string)
    (v : value) (s s' : ParentStack) :
  processSiblingRules key r ruleName v s = Normal s' → agreeFrom 2 s s'.
Proof.
  unfold processSiblingRules. destruct (peek 1 s) as [p |];
    [| intros [= <-]; apply agreeFrom_refl].
  intros (s1 & H1 & H2%processSortingRules_agree)%bind_Normal_inv.
  apply agreeFrom_trans with s1; [| done].
  destruct (truthy (info_fixedChildLength p));
    [| injection H1 as <-; apply agreeFrom_refl].
  apply bind_Normal_inv in H1 as (len & _ & H1).
  destruct (strict_eq (info_fixedChildLength p) (VNum (-1))).
  - injection H1 as <-. apply agreeFrom_poke; lia.
  - destruct (negb (strict_eq (info_fixedChildLength p) len)); [done |].
    injection H1 as <-. apply agreeFrom_refl.
Qed.

(** What [processRuleChecks] did when it completed normally. *)
Lemma processRuleChecks_inv (formats : Formats) (opts : Options) (key : string)
    (r : option rule) (ruleName : option string) (v : value) (s : ParentStack)
    (res : option (rule * option value * ParentStack)) :
  processRuleChecks formats opts key r ruleName v s = Normal res →
  ∃ r', r = Some r'
    ∧ (is_undefined v = true ∧ res = None
       ∨ is_undefined v = false
         ∧ ∃ cv s1 s2, res = Some (r', cv, s2)
             ∧ (if bool_decide (is_Some (truthyString (format r')))
                then isCorrectFormat formats opts r' v key else Normal None)
               = Normal cv
             ∧ (if fixedChildLength r' then enableFixedChildLength s else Normal s)
               = Normal s1
             ∧ processSiblingRules key r' ruleName v s1 = Normal s2).
Proof.
  unfold processRuleChecks. destruct r as [r' |]; [| done].
  rewrite bind_Normal.
  intros (_ & _ & H)%bind_Normal_inv. exists r'. split; [done |].
  destruct (is_undefined v); [left; by injection H as <- | right].
  split; [done |].
  apply bind_Normal_inv in H as (cv & Hcv & H).
  do 5 apply bind_Normal_inv in H as (_ & _ & H).
  apply bind_Normal_inv in H as (s1 & Hs1 & H).
  apply bind_Normal_inv in H as (s2 & Hs2 & H).
  injection H as <-. by exists cv, s1, s2.
Qed.

Lemma processRuleChecks_agree (formats : Formats) (opts : Options) (key : string)
    (r : option rule) (ruleName : option string) (v : value) (s : ParentStack)
    (r' : rule) (cv : option value) (s' : ParentStack) :
  processRuleChecks formats opts key r ruleName v s = Normal (Some (r', cv, s')) →
  agreeFrom 2 s s'.
Proof.
  intros (r0 & _ & [[_ ?] | (_ & cv0 & s1 & s2 & [= -> -> ->] & _ & H1 & H2)])
    %processRuleChecks_inv; [done |].
  apply agreeFrom_trans with s1; [| by eapply processSiblingRules_agree].
  destruct (fixedChildLength r0); [| injection H1 as <-; apply agreeFrom_refl].
  eapply agreeFrom_mono; [| by apply enableFixedChildLength_agree]. lia.
Qed.

(** ** The stack through a level *)

Lemma processRule_unfold (formats : Formats) (opts : Options) (fuel : nat)
    (key : string) (r : option rule) (ruleName : option string) (v : value)
    (s : ParentStack) :
  processRule formats opts fuel key r ruleName v s
  = match processRuleChecks formats opts key r ruleName v s with
    | Throw e => (v, Throw e)
    | Diverge => (v, Diverge)
    | Normal None => (v, Normal (VUndef, s))
    | Normal (Some (r, convertedValue, s1)) =>
        match childRules r with
        | None => (v, Normal (default v convertedValue, s1))
        | Some rules =>
            if negb (typeof_object v)
            then (v, Throw (TrackValidationError key ExpectedObjectOrArray))
            else
              match fuel with
              | O => (v, Diverge)
              | S fuel' =>
                  let '(v', c) :=
                    processChildRules opts (processRule formats opts fuel')
                      key rules v (Some s1) in
                  (v', s2 ← c;
                       Normal (default v' convertedValue,
                               mutatedInFrame r ruleName v' s2))
              end
        end
    end.
Proof. destruct fuel; reflexivity. Qed.

Lemma mutatedInFrame_agree (r : rule) (ruleName : option string) (v : value)
    (s : ParentStack) :
  agreeFrom 2 s (mutatedInFrame r ruleName v s).
Proof.
  unfold mutatedInFrame.
  destruct (_ || _); [apply setPrevChildValue_agree | apply agreeFrom_refl].
Qed.

(** ** The frame a [fixedChildLength] rule marks *)







Lemma peek_snoc (o : nat) (s : ParentStack) (f : frame) :
  peek (S o) (s ++ [f]) = peek o s.
Proof.
  unfold peek. rewrite length_app. simpl.
  repeat case_decide; try lia; [| done].
  rewrite lookup_app_l by lia. f_equal. lia.
Qed.

Lemma pop_snoc (s : ParentStack) (f : frame) : pop (s ++ [f]) = s.
Proof. apply removelast_last. Qed.

Lemma peek_pop (o : nat) (s : ParentStack) : peek o (pop s) = peek (S o) s.
Proof.
  destruct s as [| f s _] using rev_ind.
  - unfold peek. simpl. by repeat case_decide.
  - by rewrite pop_snoc, peek_snoc.
Qed.

Lemma length_pop (s : ParentStack) : length (pop s) = (length s - 1)%nat.
Proof.
  destruct s as [| f s _] using rev_ind; [done |].
  rewrite pop_snoc, length_app. simpl. lia.
Qed.

Lemma length_push (s : ParentStack) : length (push s) = S (length s).
Proof. unfold push. rewrite length_app. simpl. lia. Qed.

(** Frames agreeing under a pushed frame agree one offset lower once it is
    popped. *)
Lemma agreeFrom_pop (k : nat) (s s' : ParentStack) :
  agreeFrom (S k) (push s) s' → agreeFrom k s (pop s').
Proof.
  intros [L H]. split.
  - rewrite length_pop, L, length_push. lia.
  - intros o Ho. rewrite peek_pop, H by lia. apply peek_push.
Qed.

Lemma forEach_stack (J : ParentStack → ParentStack → Prop)
    (cb : item → value → ParentStack → value * completion ParentStack)
    (items : list item) :
  (∀ s, J s s) →
  (∀ s1 s2 s3, J s1 s2 → J s2 s3 → J s1 s3) →
  (∀ it pv s pv' s', cb it pv s = (pv', Normal s') → J s s') →
  ∀ pv s pv' s', forEach cb items pv s = (pv', Normal s') → J s s'.
Proof.
  intros Hrefl Htrans Hcb. induction items as [| it items IH]; intros pv s pv' s'.
  - simpl. intros [= _ <-]. apply Hrefl.
  - simpl. destruct (cb it pv s) as [pv1 [s1 | e |]] eqn:E; [| done | done].
    intros H. apply Htrans with s1; [by eapply Hcb | by eapply IH].
Qed.

Lemma forEach_value (I : value → Prop) (Q : item → Prop)
    (cb : item → value → ParentStack → value * completion ParentStack)
    (items : list item) :
  Forall Q items →
  (∀ it pv s, Q it → I pv → I (cb it pv s).1) →
  ∀ pv s, I pv → I (forEach cb items pv s).1.
Proof.
  intros HQ Hcb. induction HQ as [| it items Hit _ IH]; intros pv s Hpv; [done |].
  simpl. specialize (Hcb it pv s Hit Hpv).
  destruct (cb it pv s) as [pv1 [s1 | e |]]; [by apply IH | done | done].
Qed.

Lemma writeBack_stack (opts : Options) (pv : value) (pos : position)
    (v' : value) (c : completion (value * ParentStack)) (pv' : value)
    (s' : ParentStack) :
  writeBack opts pv pos (v', c) = (pv', Normal s') → ∃ cv, c = Normal (cv, s').
Proof.
  unfold writeBack. destruct c as [[cv s1] | e |]; [| done | done].
  destruct (negb (is_undefined cv) && opt_convert opts).
  - destruct (assign _ _ _); [| done | done]. intros [= _ <-]. by exists cv.
  - intros [= _ <-]. by exists cv.
Qed.

Section stack.

Context (opts : Options).
Context (pr : string → option rule → option string → value → ParentStack →
              value * completion (value * ParentStack)).
Hypothesis pr_stack : ∀ key r ruleName v s v' cv s',
  pr key r ruleName v s = (v', Normal (cv, s')) → agreeFrom 2 s s'.

Lemma callback_stack (parentKey : string) (rules : ruleMap) (isArr multi : bool)
    (it : item) (pv : value) (s : ParentStack) (pv' : value) (s' : ParentStack) :
  callback opts pr parentKey rules isArr multi it pv s = (pv', Normal s') →
  agreeFrom 2 s s'.
Proof.
  destruct it as [[v ruleName] pos]. unfold callback.
  destruct (selectConditionalRule _ _ _ _ _) as [r | e |]; [| done | done].
  destruct (pr _ r ruleName v s) as [v' c] eqn:E.
  intros [cv ->]%writeBack_stack. by eapply pr_stack.
Qed.

Lemma processChildRules_stack (parentKey : string) (rules : ruleMap) (pv : value)
    (s : ParentStack) (pv' : value) (s' : ParentStack) :
  processChildRules opts pr parentKey rules pv (Some s) = (pv', Normal s') →
  agreeFrom 1 s s'.
Proof.
  unfold processChildRules. simpl.
  destruct (iterate pv rules) as [items | e |]; [| done | done].
  destruct (forEach _ items pv (push s)) as [pv1 [s1 | e |]] eqn:E; [| done | done].
  assert (agreeFrom 2 (push s) s1) as Hs1.
  { revert E. apply forEach_stack;
      eauto using agreeFrom_refl, agreeFrom_trans, callback_stack. }
  destruct (opt_filter opts && negb (isArray pv)
            && negb (hasOwnProperty rules wildcardRuleName)).
  - destruct (applyFilterForObject _ _ _); [| done | done].
    intros [= _ <-]. by apply agreeFrom_pop.
  - intros [= _ <-]. by apply agreeFrom_pop.
Qed.

End stack.

Lemma processRule_stack (formats : Formats) (opts : Options) (fuel : nat)
    (key : string) (r : option rule) (ruleName : option string) (v : value)
    (s : ParentStack) (v' cv : value) (s' : ParentStack) :
  processRule formats opts fuel key r ruleName v s = (v', Normal (cv, s')) →
  agreeFrom 2 s s'.
Proof.
  revert key r ruleName v s v' cv s'.
  induction fuel as [| fuel IH]; intros key r ruleName v s v' cv s';
    rewrite processRule_unfold;
    destruct (processRuleChecks _ _ _ _ _ _ _) as [[[[r' cv'] s1] |] | e |] eqn:E;
    try done; try (intros [= _ _ <-]; apply agreeFrom_refl);
    apply processRuleChecks_agree in E;
    (destruct (childRules r') as [rules |];
       [| intros [= _ _ <-]; done]);
    (destruct (negb (typeof_object v)); [done |]); [done |].
  destruct (processChildRules _ _ _ _ _ _) as [v1 c] eqn:Ec.
  destruct c as [s2 | e |]; [| done | done].
  intros [= _ _ <-].
  apply agreeFrom_trans with s1; [done |].
  apply agreeFrom_trans with s2; [| apply mutatedInFrame_agree].
  eapply agreeFrom_mono; [| eapply processChildRules_stack; [apply IH | apply Ec]].
  lia.
Qed.

(** ** The items of a level *)

Lemma mapM_Normal_Forall {A B} (Q : B → Prop) (f : A → completion B)
    (l : list A) (ys : list B) :
  (∀ x y, f x = Normal y → Q y) → mapM f l = Normal ys → Forall Q ys.
Proof.
  intros Hf. revert ys. induction l as [| x l IH]; intros ys; simpl.
  - intros [= <-]. constructor.
  - intros (y & Hy & (ys' & Hys & [= <-])%bind_Normal_inv)%bind_Normal_inv.
    constructor; eauto.
Qed.

Lemma iterate_itemOf (pv : value) (rules : ruleMap) (items : list item) :
  iterate pv rules = Normal items → Forall (itemOf pv) items.
Proof.
  unfold iterate.
  destruct pv as [| | b | n | str | l | f];
    try (intros _; apply Forall_forall; by intros [[? ?] ?]).
  - (* an array *)
    destruct (hasOwnProperty rules wildcardRuleName).
    + unfold iterateArrayWithRulesWildcard.
      destruct (assoc wildcardRuleName rules); [| done].
      intros [= <-]. apply Forall_fmap, Forall_forall. by intros i _.
    + unfold iterateArrayWithRules.
      intros [= <-]. apply Forall_fmap, Forall_forall. by intros i _.
  - (* an object *)
    destruct (hasOwnProperty rules wildcardRuleName).
    + unfold iterateObjectWithRulesWildcard. cbn [ownProps]. rewrite bind_Normal.
      apply mapM_Normal_Forall. by intros name y [= <-].
    + unfold iterateObjectWithRules.
      apply mapM_Normal_Forall. by intros name y [= <-].
Qed.

Lemma updateField_same (n : string) (f : list (string * value)) :
  updateField n (default VUndef (assoc n f)) f = f.
Proof.
  induction f as [| [k x] f IH]; [done |]. simpl.
  destruct (String.eqb k n); simpl; [done | by rewrite IH].
Qed.

Lemma replaceChild_itemOf (pv v : value) (ruleName : option string) (pos : position) :
  itemOf pv (v, ruleName, pos) → replaceChild pv pos v = pv.
Proof.
  destruct pv as [| | b | n | str | l | f], pos as [i | n']; simpl; try done.
  - intros ->. f_equal. apply list_insert_id'. intros Hi.
    unfold nth_value. by destruct (lookup_lt_is_Some_2 l i Hi) as [x ->].
  - intros ->. f_equal. apply updateField_same.
Qed.

(** ** Validation without conversion and filtering *)

Section unchanged.

Context (opts : Options).
Context (pr : string → option rule → option string → value → ParentStack →
              value * completion (value * ParentStack)).
Hypothesis pr_same : ∀ key r ruleName v s, (pr key r ruleName v s).1 = v.
Hypothesis no_convert : opt_convert opts = false.
Hypothesis no_filter : opt_filter opts = false.

Lemma writeBack_unchanged (pv : value) (pos : position) (v' : value)
    (c : completion (value * ParentStack)) :
  (writeBack opts pv pos (v', c)).1 = replaceChild pv pos v'.
Proof.
  unfold writeBack. destruct c as [[cv s1] | e |]; [| done | done].
  by rewrite no_convert, andb_false_r.
Qed.

Lemma callback_unchanged (parentKey : string) (rules : ruleMap) (isArr multi : bool)
    (it : item) (pv : value) (s : ParentStack) :
  itemOf pv it → (callback opts pr parentKey rules isArr multi it pv s).1 = pv.
Proof.
  destruct it as [[v ruleName] pos]. intros Hit. unfold callback.
  destruct (selectConditionalRule _ _ _ _ _) as [r | e |]; [| done | done].
  specialize (pr_same (childKey parentKey isArr multi ruleName pos) r ruleName v s).
  destruct (pr _ r ruleName v s) as [v' c]. simpl in pr_same. subst v'.
  rewrite writeBack_unchanged. by eapply replaceChild_itemOf.
Qed.

Lemma processChildRules_unchanged (parentKey : string) (rules : ruleMap)
    (pv : value) (st : option ParentStack) :
  (processChildRules opts pr parentKey rules pv st).1 = pv.
Proof.
  unfold processChildRules. rewrite no_filter. simpl.
  destruct (iterate pv rules) as [items | e |] eqn:Ei; [| done | done].
  assert ((forEach (callback opts pr parentKey rules (isArray pv)
                      (bool_decide (1 < length (keys rules))%nat))
                   items pv (push (default new_ParentStack st))).1 = pv) as H.
  { apply (forEach_value (λ x, x = pv) (itemOf pv));
      [by eapply iterate_itemOf | | done].
    intros it x s Hit ->. by apply callback_unchanged. }
  by destruct (forEach _ items pv _) as [pv1 [s1 | e |]].
Qed.

End unchanged.

Lemma processRule_unchanged (formats : Formats) (opts : Options) (fuel : nat)
    (key : string) (r : option rule) (ruleName : option string) (v : value)
    (s : ParentStack) :
  opt_convert opts = false → opt_filter opts = false →
  (processRule formats opts fuel key r ruleName v s).1 = v.
Proof.
  intros Hc Hf. revert key r ruleName v s.
  induction fuel as [| fuel IH]; intros key r ruleName v s;
    rewrite processRule_unfold;
    destruct (processRuleChecks _ _ _ _ _ _ _) as [[[[r' cv'] s1] |] | e |];
    try done;
    (destruct (childRules r') as [rules |]; [| done]);
    (destruct (negb (typeof_object v)); [done |]); [done |].
  pose proof (processChildRules_unchanged opts (processRule formats opts fuel)
                IH Hc Hf key rules v (Some s1)) as H.
  by destruct (processChildRules _ _ _ _ _ _) as [v1 c].
Qed.

(** ** Enough fuel *)

Lemma depth_unfold (r : rule) :
  depth r = match childRules r with
            | None => 0%nat
            | Some rules => S (rulesDepth rules)
            end.
Proof. by destruct r. Qed.

Lemma bind_returns {A B} (c : completion A) (f : A → completion B) :
  c ≠ Diverge → (∀ a, c = Normal a → f a ≠ Diverge) → c ≫= f ≠ Diverge.
Proof. destruct c; [eauto | done | done]. Qed.

Lemma when_returns (c : bool) (body : completion unit) :
  body ≠ Diverge → when c body ≠ Diverge.
Proof. by destruct c. Qed.

Lemma get_length_returns (v : value) : get_length v ≠ Diverge.
Proof. by destruct v. Qed.

Lemma get_prop_returns (v : value) (n : string) : get_prop v n ≠ Diverge.
Proof.
  destruct v; simpl; try done; destruct (String.eqb n "length"); done.
Qed.

Lemma mapM_returns {A B} (f : A → completion B) (l : list A) :
  (∀ x, f x ≠ Diverge) → mapM f l ≠ Diverge.
Proof.
  intros Hf. induction l as [| x l IH]; [done |]. simpl.
  apply bind_returns; [done |]. intros y _.
  apply bind_returns; [done |]. done.
Qed.

Lemma iterate_returns (pv : value) (rules : ruleMap) : iterate pv rules ≠ Diverge.
Proof.
  assert (∀ o, iterateObjectWithRules o rules ≠ Diverge) as Hobj.
  { intros o. apply mapM_returns. intros n.
    apply bind_returns; [apply get_prop_returns | done]. }
  assert (∀ o, iterateObjectWithRulesWildcard o rules ≠ Diverge) as Hwild.
  { intros o. unfold iterateObjectWithRulesWildcard.
    apply bind_returns; [by destruct o |]. intros props _.
    apply mapM_returns. intros n.
    apply bind_returns; [apply get_prop_returns | done]. }
  unfold iterate, iterateArrayWithRulesWildcard, iterateArrayWithRules.
  destruct pv, (hasOwnProperty rules wildcardRuleName); try done.
  by destruct (assoc wildcardRuleName rules).
Qed.

Lemma processSortingRules_returns (key : string) (r : rule) (ruleName : option string)
    (v : value) (s : ParentStack) :
  processSortingRules key r ruleName v s ≠ Diverge.
Proof.
  assert (∀ enabled broken prev why s0,
            sortingCheck enabled broken prev key why ruleName v s0 ≠ Diverge) as H.
  { intros. unfold sortingCheck.
    destruct enabled; [| done]. by destruct (_ && _). }
  unfold processSortingRules. destruct (peek 1 s); [| done].
  apply bind_returns; [apply H |]. intros s1 _.
  apply bind_returns; [apply H |]. intros s2 _. apply H.
Qed.

Lemma processSiblingRules_returns (key : string) (r : rule) (ruleName : option string)
    (v : value) (s : ParentStack) :
  processSiblingRules key r ruleName v s ≠ Diverge.
Proof.
  unfold processSiblingRules. destruct (peek 1 s) as [p |]; [| done].
  apply bind_returns; [| intros; apply processSortingRules_returns].
  destruct (truthy _); [| done].
  apply bind_returns; [apply get_length_returns |]. intros len _.
  destruct (strict_eq _ (VNum (-1))); [done |]. by destruct (negb _).
Qed.

Lemma isCorrectFormat_returns (formats : Formats) (opts : Options) (r : rule)
    (v : value) (key : string) :
  formatsReturn formats → isCorrectFormat formats opts r v key ≠ Diverge.
Proof.
  intros [Hval Hconv]. unfold isCorrectFormat.
  destruct (if opt_convert opts then _ else _) as [converter |] eqn:Ec.
  - assert (converter v ≠ Diverge) as H.
    { destruct (opt_convert opts); [by eapply Hconv | done]. }
    destruct (converter v) as [cv | [] |]; done.
  - destruct (validators formats _) as [validator |] eqn:Ev; [| done].
    apply bind_returns; [by eapply Hval |]. intros ok _. by destruct (negb ok).
Qed.

Lemma processRuleChecks_returns (formats : Formats) (opts : Options) (key : string)
    (r : option rule) (ruleName : option string) (v : value) (s : ParentStack) :
  formatsReturn formats →
  processRuleChecks formats opts key r ruleName v s ≠ Diverge.
Proof.
  intros Hf. unfold processRuleChecks. destruct r as [r |]; [| done].
  rewrite bind_Normal.
  apply bind_returns;
    [apply when_returns; unfold isRequired; by destruct (is_undefined v) |].
  intros _ _. destruct (is_undefined v); [done |].
  apply bind_returns;
    [destruct (bool_decide _); [by apply isCorrectFormat_returns | done] |].
  intros cv _.
  apply bind_returns;
    [apply when_returns; unfold isAllowedValue; by destruct (negb _) |].
  intros _ _.
  apply bind_returns;
    [apply when_returns; unfold isInRange; by destruct (_ || _) |].
  intros _ _.
  apply bind_returns;
    [apply when_returns, bind_returns; [apply get_length_returns |];
     intros len _; by destruct (js_lt _ _) |].
  intros _ _.
  apply bind_returns;
    [apply when_returns, bind_returns; [apply get_length_returns |];
     intros len _; by destruct (js_gt _ _) |].
  intros _ _.
  apply bind_returns;
    [apply when_returns, bind_returns; [apply get_length_returns |];
     intros len _; by destruct (negb _) |].
  intros _ _.
  apply bind_returns.
  { destruct (fixedChildLength r); [| done].
    unfold enableFixedChildLength. by destruct (peek 0 s). }
  intros s1 _.
  apply bind_returns; [apply processSiblingRules_returns | done].
Qed.

Lemma assoc_entryDepth (n : string) (rules : ruleMap) (e : ruleEntry rule) :
  assoc n rules = Some e → (entryDepth e ≤ rulesDepth rules)%nat.
Proof.
  unfold rulesDepth. induction rules as [| [k e'] rules IH]; [done |]. simpl.
  destruct (String.eqb k n); [intros [= ->]; lia |].
  intros H%IH. lia.
Qed.

Lemma elem_of_depth (r : rule) (rs : list rule) :
  r ∈ rs → (depth r ≤ foldr (λ r d, depth r `max` d) 0 rs)%nat.
Proof.
  induction rs as [| r' rs IH]; [by intros ?%elem_of_nil |].
  intros [-> | H%IH]%elem_of_cons; cbn [foldr]; lia.
Qed.

Lemma someCondition_elem_of (opts : Options) (alternatives : list rule)
    (v pv : value) (key : string) (r : rule) :
  someCondition opts alternatives v pv key = Normal (Some r) → r ∈ alternatives.
Proof.
  induction alternatives as [| r' alternatives IH]; [done |]. cbn [someCondition].
  destruct (truthyString (condition r')) as [name |];
    [| intros ?%IH; by apply elem_of_cons; right].
  destruct (opt_conditions opts) as [conditions |]; [| done].
  destruct (conditions name) as [cond |]; [| done].
  destruct (cond pv v); [intros [= ->]; apply elem_of_cons; by left |].
  intros ?%IH. by apply elem_of_cons; right.
Qed.

Lemma someCondition_returns (opts : Options) (alternatives : list rule)
    (v pv : value) (key : string) :
  someCondition opts alternatives v pv key ≠ Diverge.
Proof.
  induction alternatives as [| r' alternatives IH]; [done |]. cbn [someCondition].
  destruct (truthyString (condition r')) as [name |]; [| done].
  destruct (opt_conditions opts) as [conditions |]; [| done].
  destruct (conditions name) as [cond |]; [| done].
  by destruct (cond pv v).
Qed.

Lemma selectConditionalRule_returns (opts : Options) (e : option (ruleEntry rule))
    (v pv : value) (key : string) :
  selectConditionalRule opts e v pv key ≠ Diverge.
Proof.
  destruct e as [[r | rs] |]; [done | | done]. cbn [selectConditionalRule].
  apply bind_returns; [apply someCondition_returns |].
  intros [r |] _; [done |]. by destruct (List.filter _ rs).
Qed.

Lemma selectConditionalRule_depth (opts : Options) (e : ruleEntry rule)
    (v pv : value) (key : string) (r : rule) :
  selectConditionalRule opts (Some e) v pv key = Normal (Some r) →
  (depth r ≤ entryDepth e)%nat.
Proof.
  destruct e as [r' | rs]; [by intros [= ->] |]. cbn [selectConditionalRule].
  intros ([r0 |] & Hsome & H)%bind_Normal_inv.
  - injection H as ->. apply elem_of_depth. by eapply someCondition_elem_of.
  - destruct (List.filter _ rs) as [| r0 l] eqn:E; injection H as <-;
      [rewrite depth_unfold; simpl; lia |].
    apply elem_of_depth. apply list_elem_of_In.
    apply (proj1 (filter_In (λ selector, bool_decide (condition selector = None))
                   r0 rs)).
    rewrite E. by left.
Qed.

Lemma forEach_returns
    (cb : item → value → ParentStack → value * completion ParentStack)
    (items : list item) :
  (∀ it pv s, (cb it pv s).2 ≠ Diverge) →
  ∀ pv s, (forEach cb items pv s).2 ≠ Diverge.
Proof.
  intros Hcb. induction items as [| it items IH]; intros pv s; [done |]. simpl.
  specialize (Hcb it pv s). by destruct (cb it pv s) as [pv1 [s1 | e |]].
Qed.

Lemma writeBack_returns (opts : Options) (pv : value) (pos : position)
    (v' : value) (c : completion (value * ParentStack)) :
  c ≠ Diverge → (writeBack opts pv pos (v', c)).2 ≠ Diverge.
Proof.
  intros Hc. unfold writeBack. destruct c as [[cv s1] | e |]; [| done | done].
  destruct (_ && _); [| done].
  assert (assign (replaceChild pv pos v') pos cv ≠ Diverge) as Ha.
  { unfold assign. destruct (replaceChild pv pos v'), pos; try done.
    - by case_decide.
    - by destruct (hasOwnProperty _ _). }
  by destruct (assign _ _ _).
Qed.

Section returns.

Context (opts : Options) (d : nat).
Context (pr : string → option rule → option string → value → ParentStack →
              value * completion (value * ParentStack)).
Hypothesis pr_returns : ∀ key r ruleName v s,
  (from_option depth 0%nat r ≤ d)%nat → (pr key r ruleName v s).2 ≠ Diverge.

Lemma callback_returns (parentKey : string) (rules : ruleMap) (isArr multi : bool)
    (it : item) (pv : value) (s : ParentStack) :
  (rulesDepth rules ≤ d)%nat →
  (callback opts pr parentKey rules isArr multi it pv s).2 ≠ Diverge.
Proof.
  intros Hd. destruct it as [[v ruleName] pos]. unfold callback.
  pose proof (selectConditionalRule_returns opts
                (assoc (propertyKey ruleName) rules) v pv
                (childKey parentKey isArr multi ruleName pos)) as Hsel.
  destruct (selectConditionalRule _ _ _ _ _) as [r | e |] eqn:E; [| done | done].
  assert (from_option depth 0%nat r ≤ d)%nat as Hr.
  { destruct r as [r |]; simpl; [| lia].
    destruct (assoc (propertyKey ruleName) rules) as [e |] eqn:Ea; [| done].
    apply selectConditionalRule_depth in E. apply assoc_entryDepth in Ea. lia. }
  specialize (pr_returns (childKey parentKey isArr multi ruleName pos)
                r ruleName v s Hr).
  destruct (pr _ r ruleName v s) as [v' c]. by apply writeBack_returns.
Qed.

Lemma processChildRules_returns (parentKey : string) (rules : ruleMap)
    (pv : value) (st : option ParentStack) :
  (rulesDepth rules ≤ d)%nat →
  (processChildRules opts pr parentKey rules pv st).2 ≠ Diverge.
Proof.
  intros Hd. unfold processChildRules.
  pose proof (iterate_returns pv rules) as Hi.
  destruct (iterate pv rules) as [items | e |]; [| done | done].
  pose proof (forEach_returns
                (callback opts pr parentKey rules (isArray pv)
                   (bool_decide (1 < length (keys rules))%nat)) items
                (λ it x s, callback_returns parentKey rules _ _ it x s Hd)
                pv (push (default new_ParentStack st))) as Hloop.
  destruct (forEach _ items pv _) as [pv1 [s1 | e |]]; [| done | done].
  destruct (_ && _); [| done].
  assert (applyFilterForObject parentKey pv1 rules ≠ Diverge) as Ha.
  { rewrite applyFilterForObject_cases. apply bind_returns; [by destruct pv1 |].
    intros props _. destruct (hasOwnProperty rules _); [| done].
    by destruct (keys props). }
  by destruct (applyFilterForObject _ _ _).
Qed.

End returns.

Lemma processRule_returns (formats : Formats) (opts : Options) (fuel : nat)
    (key : string) (r : option rule) (ruleName : option string) (v : value)
    (s : ParentStack) :
  formatsReturn formats →
  (from_option depth 0%nat r ≤ fuel)%nat →
  (processRule formats opts fuel key r ruleName v s).2 ≠ Diverge.
Proof.
  intros Hf. revert key r ruleName v s.
  induction fuel as [| fuel IH]; intros key r ruleName v s Hfuel;
    rewrite processRule_unfold;
    pose proof (processRuleChecks_returns formats opts key r ruleName v s Hf) as Hc;
    destruct (processRuleChecks _ _ _ _ _ _ _) as [[[[r' cv] s1] |] | e |] eqn:E;
    try done;
    apply processRuleChecks_inv in E
      as (r0 & -> & [[_ ?] | (_ & ? & ? & ? & [= <- <- <-] & _)]); try done;
    simpl in Hfuel; rewrite depth_unfold in Hfuel;
    (destruct (childRules r') as [rules |]; [| done]);
    (destruct (negb (typeof_object v)); [done |]); [lia |].
  pose proof (processChildRules_returns opts fuel (processRule formats opts fuel)
                (λ key r ruleName v s, IH key r ruleName v s)
                key rules v (Some s1)) as H.
  destruct (processChildRules _ _ _ _ _ _) as [v1 [s2 | e |]]; try done.
  simpl. intros _. apply H; [lia | done].
Qed.

(** With a registry whose functions return or throw, [validate] returns or
    throws: the fuel it gives [processRule] is enough. *)
Lemma validate_returns (formats : Formats) (data : value) (rules : ruleMap)
    (options : UserOptions) :
  formatsReturn formats → (validate formats data rules options).2 ≠ Diverge.
Proof.
  intros Hf. unfold validate.
  pose proof (processChildRules_returns (extend defaultOptions options)
                (rulesDepth rules)
                (processRule formats (extend defaultOptions options) (rulesDepth rules))
                (λ key r ruleName v s,
                   processRule_returns formats _ _ key r ruleName v s Hf)
                "" rules data None) as H.
  destruct (processChildRules _ _ _ _ _ _) as [v1 [s2 | e |]]; try done.
  simpl. intros _. by apply H.
Qed.

Lemma convertNumber_returns (v : value) : validatorformats.convertNumber v ≠ Diverge.
Proof.
  destruct v; try done. simpl. by destruct (validatorformats.parseInt s).
Qed.

Lemma convertChecked_returns (check : value → bool) (e : string) (v : value) :
  validatorformats.convertChecked check e v ≠ Diverge.
Proof.
  apply bind_returns; [apply convertNumber_returns |].
  intros n _. by destruct (check n).
Qed.

(** The registry of [validatorformats.js] returns or throws when the host
    functions do. *)
Lemma validatorformats_return (dateParses emailPattern iso8601DatePattern :
    value → completion bool) :
  (∀ v, dateParses v ≠ Diverge) → (∀ v, emailPattern v ≠ Diverge) →
  (∀ v, iso8601DatePattern v ≠ Diverge) →
  formatsReturn (validatorformats.exports dateParses emailPattern iso8601DatePattern).
Proof.
  intros Hdate Hmail Hiso. split; intros f fn v; simpl.
  - unfold validatorformats.validators.
    repeat (destruct (String.eqb f _); [intros [= <-]; try done |]); try done.
    + apply bind_returns; [apply get_length_returns |]. intros len _.
      destruct v; try done; by destruct (js_lt _ _).
    + apply bind_returns; [apply get_length_returns |]. intros len _.
      by destruct (js_gt _ _).
    + apply bind_returns; [apply get_length_returns |]. intros len _.
      destruct (negb _); [done |].
      apply bind_returns; [done |]. intros ok _. by destruct ok.
  - unfold validatorformats.converters.
    repeat (destruct (String.eqb f _);
            [intros [= <-]; try apply convertChecked_returns;
             try apply convertNumber_returns; try done |]); try done.
    apply bind_returns; [apply convertNumber_returns | done].
Qed.

(** C8. With [convert] and [filter] off, [validate] returns the data tree
    it was given, and a second run on the tree the first run left gives the
    same outcome: the same success or the same error (an outcome it is, for
    a registry whose functions return or throw). *)
Theorem validate_idempotent (formats : Formats) (data : value) (rules : ruleMap)
    (options : UserOptions) :
  opt_convert (extend defaultOptions options) = false →
  opt_filter (extend defaultOptions options) = false →
  let first := validate formats data rules options in
  first.1 = data
  ∧ validate formats first.1 rules options = first
  ∧ (formatsReturn formats → first.2 ≠ Diverge).
Proof.
  intros Hc Hf first.
  assert (first.1 = data) as H.
  { subst first. unfold validate.
    pose proof (processChildRules_unchanged (extend defaultOptions options)
                  (processRule formats (extend defaultOptions options)
                     (rulesDepth rules))
                  (λ key r ruleName v s,
                     processRule_unchanged formats _ _ key r ruleName v s Hc Hf)
                  Hc Hf "" rules data None) as H.
    by destruct (processChildRules _ _ _ _ _ _). }
  split; [done |]. split; [by rewrite H |]. apply validate_returns.
Qed.

(** The hypotheses of C8 hold when no option is given. *)
Lemma validate_idempotent_witness :
  let first := validate sample.formats (VObj [("a", sample.numbers [1; 3; 2])])
                 [("a", Single (sample.parentRule [("*", Single sample.ascendingRule)]))]
                 sample.noOptions in
  first.1 = VObj [("a", sample.numbers [1; 3; 2])]
  ∧ validate sample.formats first.1
      [("a", Single (sample.parentRule [("*", Single sample.ascendingRule)]))]
      sample.noOptions = first
  ∧ (formatsReturn sample.formats → first.2 ≠ Diverge).
Proof.
  apply (validate_idempotent sample.formats
           (VObj [("a", sample.numbers [1; 3; 2])])
           [("a", Single (sample.parentRule [("*", Single sample.ascendingRule)]))]
           sample.noOptions).
  - reflexivity.
  - reflexivity.
Defined.

(** ** Filtering *)

Lemma sameShape_refl (a : value) : sameShape a a.
Proof. by destruct a. Qed.

Lemma keys_updateField (n : string) (v : value) (f : list (string * value)) :
  keys (updateField n v f) = keys f.
Proof.
  induction f as [| [k x] f IH]; [done |]. simpl.
  destruct (String.eqb k n); simpl; [done |]. unfold keys in *. simpl. by rewrite IH.
Qed.

Lemma hasOwnProperty_keys {A B} (f : list (string * A)) (f' : list (string * B))
    (n : string) :
  keys f' = keys f → hasOwnProperty f' n = hasOwnProperty f n.
Proof.
  unfold hasOwnProperty. revert f'.
  induction f as [| [k x] f IH]; intros [| [k' x'] f']; try done.
  intros [= -> Hk]. simpl. destruct (String.eqb k n).
  - apply bool_decide_ext. split; eauto.
  - by apply IH.
Qed.

Lemma replaceChild_shape (a b : value) (pos : position) (v' : value) :
  sameShape a b → sameShape a (replaceChild b pos v').
Proof.
  destruct a, b, pos; simpl; try done; try congruence.
  - intros <-. by rewrite length_insert.
  - intros <-. by rewrite keys_updateField.
Qed.

Lemma assign_shape (a b : value) (v : value) (ruleName : option string)
    (pos : position) (cv b' : value) :
  itemOf a (v, ruleName, pos) → is_undefined v = false → sameShape a b →
  assign b pos cv = Normal b' → sameShape a b'.
Proof.
  intros Hit Hv Hab.
  destruct a as [| | ? | ? | ? | l | f]; simpl in Hab;
    try (subst b; simpl; destruct pos; by intros [= <-]).
  - (* an array *)
    destruct b as [| | ? | ? | ? | l' |]; try done.
    destruct pos as [i |]; simpl in *; [| done]. subst v.
    assert (i < length l)%nat.
    { destruct (decide (i < length l)%nat); [done |].
      unfold nth_value in Hv. by rewrite lookup_ge_None_2 in Hv by lia. }
    case_decide; [| lia]. intros [= <-]. simpl. by rewrite length_insert.
  - (* an object *)
    destruct b as [| | ? | ? | ? | | f']; try done.
    destruct pos as [| n]; simpl in *; [done |]. subst v.
    rewrite (hasOwnProperty_keys f f' n Hab). unfold hasOwnProperty.
    destruct (assoc n f) as [x |]; [| done].
    rewrite bool_decide_true by eauto.
    intros [= <-]. simpl. by rewrite keys_updateField.
Qed.

Section shape.

Context (opts : Options).
Context (pr : string → option rule → option string → value → ParentStack →
              value * completion (value * ParentStack)).
Hypothesis pr_undefined : ∀ key r ruleName v s v' cv s',
  pr key r ruleName v s = (v', Normal (cv, s')) →
  is_undefined v = true → is_undefined cv = true.

Lemma callback_shape (parentKey : string) (rules : ruleMap) (isArr multi : bool)
    (a : value) (it : item) (pv : value) (s : ParentStack) :
  itemOf a it → sameShape a pv →
  sameShape a (callback opts pr parentKey rules isArr multi it pv s).1.
Proof.
  destruct it as [[v ruleName] pos]. intros Hit Hpv. unfold callback.
  destruct (selectConditionalRule _ _ _ _ _) as [r | e |]; [| done | done].
  destruct (pr _ r ruleName v s) as [v' c] eqn:E. unfold writeBack.
  pose proof (replaceChild_shape a pv pos v' Hpv) as H1.
  destruct c as [[cv s1] | e |]; [| done | done].
  destruct (is_undefined cv) eqn:Ecv; simpl; [done |].
  destruct (opt_convert opts); simpl; [| done].
  destruct (assign _ pos cv) as [b' | e |] eqn:Ea; [| done | done]. simpl.
  eapply assign_shape; [apply Hit | | apply H1 | apply Ea].
  destruct (is_undefined v) eqn:Ev; [| done].
  by rewrite (pr_undefined _ _ _ _ _ _ _ _ E Ev) in Ecv.
Qed.

Lemma forEach_shape (parentKey : string) (rules : ruleMap) (isArr multi : bool)
    (pv : value) (items : list item) (s : ParentStack) :
  Forall (itemOf pv) items →
  sameShape pv (forEach (callback opts pr parentKey rules isArr multi) items pv s).1.
Proof.
  intros Hitems.
  apply (forEach_value (sameShape pv) (itemOf pv)); [done | | apply sameShape_refl].
  intros it x s0 Hit Hx. by apply callback_shape.
Qed.

End shape.

Lemma processRule_undefined (formats : Formats) (opts : Options) (fuel : nat)
    (key : string) (r : option rule) (ruleName : option string) (v : value)
    (s : ParentStack) (v' cv : value) (s' : ParentStack) :
  processRule formats opts fuel key r ruleName v s = (v', Normal (cv, s')) →
  is_undefined v = true → is_undefined cv = true.
Proof.
  rewrite processRule_unfold. intros H Hv.
  destruct (processRuleChecks _ _ _ _ _ _ _) as [res | e |] eqn:E; [| done | done].
  apply processRuleChecks_inv in E as (r' & _ & [[_ ->] | [Hv' _]]).
  - by injection H as _ <- _.
  - congruence.
Qed.

Lemma filter_filter {A} (p q : A → bool) (l : list A) :
  List.filter p (List.filter q l) = List.filter (λ x, q x && p x) l.
Proof.
  induction l as [| x l IH]; [done |]. simpl.
  destruct (q x); simpl; [destruct (p x) |]; by rewrite IH.
Qed.

Lemma keys_filter (p : string → bool) (f : list (string * value)) :
  keys (List.filter (λ kv, p kv.1) f) = List.filter p (keys f).
Proof.
  induction f as [| [k x] f IH]; [done |]. simpl.
  destruct (p k); simpl; unfold keys in *; simpl; by rewrite IH.
Qed.

Lemma hasOwnProperty_elem_of {A} (f : list (string * A)) (k : string) (x : A) :
  (k, x) ∈ f → hasOwnProperty f k = true.
Proof.
  unfold hasOwnProperty. intros Hin. apply bool_decide_eq_true.
  induction f as [| [k' x'] f IH]; [by apply elem_of_nil in Hin |].
  simpl. destruct (String.eqb k' k) eqn:E; [eauto |].
  apply elem_of_cons in Hin as [[= -> ->] | Hin]; [| by apply IH].
  by rewrite String.eqb_refl in E.
Qed.

(** The loop of [applyFilterForObject] over keys [ks]. *)
Lemma filter_loop (rules : ruleMap) (ks : list string) (f : list (string * value)) :
  foldl (λ o key, if negb (hasOwnProperty rules key) then deleteProp o key else o)
        (VObj f) ks
  = VObj (List.filter
            (λ kv, forallb (λ k, hasOwnProperty rules k || negb (String.eqb kv.1 k)) ks)
            f).
Proof.
  revert f. induction ks as [| k ks IH]; intros f; simpl.
  - f_equal. induction f as [| kv f IHf]; [done |]. simpl. by rewrite <- IHf.
  - destruct (hasOwnProperty rules k); simpl; rewrite IH; [done |].
    f_equal. rewrite filter_filter. done.
Qed.

Lemma applyFilterForObject_object (parentKey : string) (rules : ruleMap)
    (f : list (string * value)) :
  hasOwnProperty rules "hasOwnProperty" = false →
  applyFilterForObject parentKey (VObj f) rules
  = Normal (VObj (List.filter (λ kv, hasOwnProperty rules kv.1) f)).
Proof.
  intros Hown. rewrite applyFilterForObject_cases. cbn [ownProps].
  rewrite bind_Normal, Hown, filter_loop.
  do 2 f_equal. apply filter_ext_in. intros [k x] Hin. simpl.
  destruct (hasOwnProperty rules k) eqn:E.
  - apply forallb_forall. intros k' _.
    destruct (String.eqb k k') eqn:Ek; [| by rewrite orb_true_r].
    apply String.eqb_eq in Ek as <-. by rewrite E.
  - apply not_true_iff_false. intros Hall.
    rewrite forallb_forall in Hall.
    assert (In k (keys f)) as Hk.
    { apply (in_map fst) in Hin. exact Hin. }
    specialize (Hall k Hk). by rewrite E, String.eqb_refl in Hall.
Qed.




(** ** Conversion *)

(** What [processRule] did when it completed normally on a defined value. *)
Lemma processRule_inv (formats : Formats) (opts : Options) (fuel : nat)
    (key : string) (r : option rule) (ruleName : option string) (v : value)
    (s : ParentStack) (v' out : value) (s' : ParentStack) :
  processRule formats opts fuel key r ruleName v s = (v', Normal (out, s')) →
  is_undefined v = false →
  ∃ r' cv s2 s3,
    processRuleChecks formats opts key r ruleName v s = Normal (Some (r', cv, s2))
    ∧ out = default v' cv
    ∧ agreeFrom 1 s2 s3
    ∧ (childRules r' = None ∧ v' = v ∧ s' = s3
       ∨ is_Some (childRules r') ∧ s' = mutatedInFrame r' ruleName v' s3).
Proof.
  rewrite processRule_unfold. intros H Hv.
  destruct (processRuleChecks _ _ _ _ _ _ _) as [[[[r' cv] s2] |] | e |] eqn:E;
    [| | done | done].
  - exists r', cv, s2.
    destruct (childRules r') as [rules |] eqn:Er.
    2:{ injection H as <- <- <-. exists s2. split_and!; [done | done | | by left].
        apply agreeFrom_refl. }
    destruct (negb (typeof_object v)); [done |].
    destruct fuel as [| fuel]; [done |].
    destruct (processChildRules _ _ _ _ _ _) as [v1 c] eqn:Ec.
    destruct c as [s3 | e |]; [| done | done].
    injection H as <- <- <-. exists s3. split_and!; [done | done | | by right; eauto].
    eapply processChildRules_stack; [| apply Ec].
    intros *. apply processRule_stack.
  - apply processRuleChecks_inv in E as (r' & _ & [[Hv' _] | (_ & ? & ? & ? & ? & _)]);
      [congruence | done].
Qed.

(** Under an ordering flag the sibling checks that pass leave the value they
    were given recorded for the rule-name. *)
Lemma processSiblingRules_records (key : string) (r : rule)
    (ruleName : option string) (v : value) (s s' : ParentStack) (p : frame) :
  peek 1 s = Some p →
  ascending r || descending r || noRepeat r = true →
  processSiblingRules key r ruleName v s = Normal s' →
  ∃ p', peek 1 s' = Some p' ∧ recorded p' ruleName = Some v.
Proof.
  intros Hp Hflag. unfold processSiblingRules. rewrite Hp.
  intros (s1 & H1 & H2)%bind_Normal_inv.
  assert (∃ p1, peek 1 s1 = Some p1) as [p1 Hp1].
  { destruct (truthy (info_fixedChildLength p)); [| injection H1 as <-; eauto].
    apply bind_Normal_inv in H1 as (len & _ & H1).
    destruct (strict_eq (info_fixedChildLength p) (VNum (-1))).
    - injection H1 as <-. eexists. apply peek_poke_eq. by eapply peek_Some_lt.
    - destruct (negb (strict_eq (info_fixedChildLength p) len)); [done |].
      injection H1 as <-. eauto. }
  pose proof (processSortingRules_cases key r ruleName v s1 p1 Hp1) as H.
  cbv zeta in H. rewrite H2, Hflag in H.
  repeat (destruct (_ && _ && _) in H; [done |]).
  destruct H as (s2 & p2 & [= <-] & Hp2 & Hrec).
  exists p2. split; [done |]. by eapply recordedIn_recorded.
Qed.

(** With the record refreshed, the frame shows the value as the level below
    left it. *)
Lemma mutatedInFrame_records (r : rule) (ruleName : option string) (v' : value)
    (s : ParentStack) (p : frame) :
  peek 1 s = Some p →
  ascending r || descending r || noRepeat r = true →
  ∃ p', peek 1 (mutatedInFrame r ruleName v' s) = Some p'
        ∧ recorded p' ruleName = Some v'.
Proof.
  intros Hp Hflag. unfold mutatedInFrame. rewrite Hflag.
  destruct (setPrevChildValue_peek ruleName v' s p Hp) as (p' & Hp' & Hrec).
  exists p'. split; [done |]. by eapply recordedIn_recorded.
Qed.

Lemma updateField_updateField (n : string) (x y : value) (f : list (string * value)) :
  updateField n y (updateField n x f) = updateField n y f.
Proof.
  induction f as [| [k z] f IH]; [done |]. simpl.
  destruct (String.eqb k n) eqn:E; simpl; rewrite E; [done | by rewrite IH].
Qed.

(** Assigning to the position of a child that was mutated in place is
    assigning to the position. *)
Lemma assign_replaceChild (pv : value) (pos : position) (v' cv : value) :
  assign (replaceChild pv pos v') pos cv = assign pv pos cv.
Proof.
  destruct pv as [| | b | z | str | l | f], pos as [i | n]; simpl; try done.
  - rewrite length_insert. case_decide; [| by rewrite list_insert_ge by lia].
    by rewrite list_insert_insert_eq.
  - rewrite (hasOwnProperty_keys f (updateField n v' f) n (keys_updateField _ _ _)).
    destruct (hasOwnProperty f n) eqn:E; [by rewrite updateField_updateField |].
    do 3 f_equal. clear -E. unfold hasOwnProperty in E.
    apply bool_decide_eq_false in E.
    induction f as [| [k x] f IH]; [done |]. simpl in *.
    destruct (String.eqb k n); [by destruct E; eauto |]. by rewrite IH.
Qed.

(** C3, as the code has it.  With [convert] on, for a defined value that
    its parent holds at a position and whose rule names a format with a
    registered converter that returns a defined primitive, as the converters
    of the registry do, the rule-name, the keys of the value and the keys,
    formats and conditions of the rule being names that [Object.prototype]
    does not define:
    when the callback completes, the parent is the parent with the
    converter's output assigned at the value's position; and under an
    ordering flag and a parent frame, what the frame records for the
    rule-name is the raw value, by reference: the value as the level below
    left it, which is the value itself when the rule has no [childRules], and
    never the converter's output.  So [['007'], ['01']] under
    [{format: 'boolean', descending: true, childRules: {'*': {format:
    'number'}}}] validates: the second array is compared with the first as
    its own level converted it, [7]. *)
Theorem convert_stores_output_orders_raw (formats : Formats) (opts : Options)
    (fuel : nat) (parentKey : string) (rules : ruleMap) (isArr multi : bool)
    (v : value) (ruleName : option string) (pos : position) (pv : value)
    (s : ParentStack) (r : rule) (f : string)
    (converter : value → completion value) (cv pv' : value) (s' : ParentStack) :
  opt_convert opts = true →
  itemOf pv (v, ruleName, pos) →
  plainName (propertyKey ruleName) = true →
  plainValue v = true →
  plainRule r = true →
  (∀ key, selectConditionalRule opts (assoc (propertyKey ruleName) rules) v pv key
          = Normal (Some r)) →
  truthyString (format r) = Some f →
  converters formats f = Some converter →
  converter v = Normal cv →
  is_undefined v = false →
  is_undefined cv = false →
  typeof_object cv = false →
  callback opts (processRule formats opts fuel) parentKey rules isArr multi
    (v, ruleName, pos) pv s = (pv', Normal s') →
  let v' :=
    (processRule formats opts fuel (childKey parentKey isArr multi ruleName pos)
       (Some r) ruleName v s).1 in
  assign pv pos cv = Normal pv'
  ∧ (∀ parentInfo, peek 1 s = Some parentInfo →
       ascending r || descending r || noRepeat r = true →
       ∃ parentInfo', peek 1 s' = Some parentInfo'
                      ∧ recorded parentInfo' ruleName = Some v')
  ∧ (childRules r = None → v' = v)
  ∧ validate sample.formats
      (VObj [("a", VArr [VArr [VStr "007"]; VArr [VStr "01"]])])
      [("a", Single (sample.parentRule
          [("*", Single (Rule false (Some "boolean") None None None None None
                              false false true false None
                              (Some [("*", Single (sample.formatRule "number"))])))]))]
      sample.convertOn
    = (VObj [("a", VArr [VBool true; VBool true])], Normal ()).
Proof.
  intros Hconvert _ _ _ _ Hsel Hf Hconv Hcv Hv Hdef _. unfold callback. rewrite Hsel.
  destruct (processRule _ _ _ _ _ _ _ _) as [v' c] eqn:E.
  intros Hwb. destruct (writeBack_stack _ _ _ _ _ _ _ Hwb) as [out ->].
  destruct (processRule_inv _ _ _ _ _ _ _ _ _ _ _ E Hv)
    as (r' & cv' & s2 & s3 & Hchecks & -> & Hagree & Hend).
  apply processRuleChecks_inv in Hchecks
    as (r0 & [= <-] & [[Hv' _] | (_ & cv0 & s1 & s4 & [= -> -> ->] & Hfmt & Hen & Hsib)]);
    [congruence |].
  assert (cv0 = Some cv) as ->.
  { revert Hfmt. rewrite Hf, bool_decide_true by eauto.
    unfold isCorrectFormat.
    assert (format r = Some f) as ->.
    { destruct (format r) as [f0 |]; [| done]. simpl in Hf.
      destruct (String.eqb f0 ""); by simplify_eq. }
    simpl. rewrite Hconvert, Hconv, Hcv. by intros [= <-]. }
  simpl in Hwb. unfold writeBack in Hwb. rewrite Hdef, Hconvert in Hwb. simpl in Hwb.
  rewrite assign_replaceChild in Hwb.
  cbv zeta. cbn [fst]. split_and!; [| | | by_evaluation].
  - destruct (assign pv pos cv); by simplify_eq.
  - intros parentInfo Hp Hflag.
    assert (peek 1 s1 = Some parentInfo) as Hp1.
    { destruct (fixedChildLength r); [| by injection Hen as <-].
      apply enableFixedChildLength_agree in Hen as [_ Hen]. by rewrite Hen. }
    destruct (processSiblingRules_records _ _ _ _ _ _ _ Hp1 Hflag Hsib)
      as (p' & Hp' & Hrec).
    assert (peek 1 s3 = Some p') as Hp3.
    { destruct Hagree as [_ Hagree]. by rewrite Hagree. }
    destruct Hend as [(Hnone & -> & ->) | ([rules' Hsome] & ->)].
    + by exists p'.
    + by apply mutatedInFrame_records with p'.
  - intros Hnone. by destruct Hend as [(_ & -> & _) | ([rules' Hsome] & _)]; simplify_eq.
Qed.

(** ** Root-level siblings *)

Lemma processSiblingRules_root (key : string) (r : rule) (ruleName : option string)
    (v : value) (s : ParentStack) :
  (length s ≤ 1)%nat → processSiblingRules key r ruleName v s = Normal s.
Proof.
  intros Hs. unfold processSiblingRules, peek. by case_decide; [lia |].
Qed.

Lemma mutatedInFrame_root (r : rule) (ruleName : option string) (v : value)
    (s : ParentStack) :
  (length s ≤ 1)%nat → mutatedInFrame r ruleName v s = s.
Proof.
  intros Hs. unfold mutatedInFrame, setPrevChildValue, peek.
  destruct (_ || _); [| done]. by case_decide; [lia |].
Qed.

Lemma depth_clearOrdering (r : rule) : depth (clearOrdering r) = depth r.
Proof. by rewrite !depth_unfold. Qed.

Lemma keys_clearOrderingMap (rules : ruleMap) : keys (clearOrderingMap rules) = keys rules.
Proof.
  unfold keys, clearOrderingMap. rewrite <- list_fmap_compose.
  apply list_fmap_ext. by intros _ [n e] _.
Qed.

Lemma assoc_clearOrderingMap (n : string) (rules : ruleMap) :
  assoc n (clearOrderingMap rules) = clearOrderingEntry <$> assoc n rules.
Proof.
  induction rules as [| [k e] rules IH]; [done |]. simpl.
  by destruct (String.eqb k n).
Qed.

Lemma hasOwnProperty_clearOrderingMap (rules : ruleMap) (n : string) :
  hasOwnProperty (clearOrderingMap rules) n = hasOwnProperty rules n.
Proof. apply hasOwnProperty_keys, keys_clearOrderingMap. Qed.

Lemma entryDepth_clearOrderingEntry (e : ruleEntry rule) :
  entryDepth (clearOrderingEntry e) = entryDepth e.
Proof.
  destruct e as [r | rs]; [apply depth_clearOrdering |].
  unfold entryDepth, clearOrderingEntry.
  induction rs as [| r rs IH]; [done |].
  rewrite fmap_cons. cbn [foldr]. by rewrite IH, depth_clearOrdering.
Qed.

Lemma rulesDepth_clearOrderingMap (rules : ruleMap) :
  rulesDepth (clearOrderingMap rules) = rulesDepth rules.
Proof.
  unfold rulesDepth, clearOrderingMap.
  induction rules as [| [k e] rules IH]; [done |].
  rewrite fmap_cons. cbn [foldr]. rewrite IH. f_equal.
  apply entryDepth_clearOrderingEntry.
Qed.

Lemma mapM_ext {A B} (f g : A → completion B) (l : list A) :
  (∀ x, f x = g x) → mapM f l = mapM g l.
Proof. intros Hfg. induction l as [| x l IH]; [done |]. simpl. by rewrite Hfg, IH. Qed.

Lemma iterate_clearOrderingMap (pv : value) (rules : ruleMap) :
  iterate pv (clearOrderingMap rules) = iterate pv rules.
Proof.
  assert (∀ l, iterateArrayWithRulesWildcard l (clearOrderingMap rules)
               = iterateArrayWithRulesWildcard l rules) as Harr.
  { intros l. unfold iterateArrayWithRulesWildcard.
    rewrite assoc_clearOrderingMap, keys_clearOrderingMap.
    by destruct (assoc wildcardRuleName rules) as [[r | rs] |]. }
  assert (∀ o, iterateObjectWithRulesWildcard o (clearOrderingMap rules)
               = iterateObjectWithRulesWildcard o rules) as Hobj.
  { intros o. unfold iterateObjectWithRulesWildcard.
    rewrite keys_clearOrderingMap. destruct (ownProps o); [| done | done].
    rewrite !bind_Normal. apply mapM_ext. intros name.
    by rewrite hasOwnProperty_clearOrderingMap. }
  unfold iterate. rewrite hasOwnProperty_clearOrderingMap.
  unfold iterateArrayWithRules, iterateObjectWithRules.
  rewrite keys_clearOrderingMap.
  destruct pv; by rewrite ?Harr, ?Hobj.
Qed.

Lemma someCondition_clearOrdering (opts : Options) (alternatives : list rule)
    (v pv : value) (key : string) :
  someCondition opts (clearOrdering <$> alternatives) v pv key
  = someCondition opts alternatives v pv key
    ≫= λ res : option rule, Normal (clearOrdering <$> res).
Proof.
  induction alternatives as [| r alternatives IH]; [done |].
  rewrite fmap_cons. cbn [someCondition]. rewrite IH.
  change (condition (clearOrdering r)) with (condition r).
  destruct (truthyString (condition r)) as [name |]; [| done].
  destruct (opt_conditions opts) as [conditions |]; [| done].
  destruct (conditions name) as [cond |]; [| done].
  by destruct (cond pv v).
Qed.

Lemma selectConditionalRule_clearOrdering (opts : Options)
    (e : option (ruleEntry rule)) (v pv : value) (key : string) :
  selectConditionalRule opts (clearOrderingEntry <$> e) v pv key
  = selectConditionalRule opts e v pv key
    ≫= λ res : option rule, Normal (clearOrdering <$> res).
Proof.
  destruct e as [[r | rs] |]; [done | | done].
  cbn [fmap option_fmap option_map clearOrderingEntry selectConditionalRule].
  rewrite someCondition_clearOrdering.
  destruct (someCondition opts rs v pv key) as [[r |] | e |]; [done | | done | done].
  rewrite !bind_Normal. cbn [fmap option_fmap option_map].
  induction rs as [| r rs IH]; [done |].
  rewrite fmap_cons. cbn [List.filter].
  change (condition (clearOrdering r)) with (condition r).
  by destruct (bool_decide (condition r = None)).
Qed.

Lemma processRuleChecks_clearOrdering (formats : Formats) (opts : Options)
    (key : string) (r : rule) (ruleName : option string) (v : value)
    (s : ParentStack) :
  (length s ≤ 1)%nat →
  processRuleChecks formats opts key (Some (clearOrdering r)) ruleName v s
  = processRuleChecks formats opts key (Some r) ruleName v s
    ≫= λ res, Normal (match res with
                      | Some (r', cv, s') => Some (clearOrdering r', cv, s')
                      | None => None
                      end).
Proof.
  intros Hs. unfold processRuleChecks. rewrite !bind_Normal.
  change (required (clearOrdering r)) with (required r).
  change (format (clearOrdering r)) with (format r).
  change (allowedValues (clearOrdering r)) with (allowedValues r).
  change (range (clearOrdering r)) with (range r).
  change (minLength (clearOrdering r)) with (minLength r).
  change (maxLength (clearOrdering r)) with (maxLength r).
  change (rule_length (clearOrdering r)) with (rule_length r).
  change (fixedChildLength (clearOrdering r)) with (fixedChildLength r).
  change (isRequired (clearOrdering r)) with (isRequired r).
  change (isCorrectFormat formats opts (clearOrdering r))
    with (isCorrectFormat formats opts r).
  change (isAllowedValue (clearOrdering r)) with (isAllowedValue r).
  change (isInRange (clearOrdering r)) with (isInRange r).
  change (isMinLength (clearOrdering r)) with (isMinLength r).
  change (isMaxLength (clearOrdering r)) with (isMaxLength r).
  change (isLength (clearOrdering r)) with (isLength r).
  destruct (when (required r) _); [| done | done]. rewrite !bind_Normal.
  destruct (is_undefined v); [done |].
  destruct (if bool_decide _ then _ else _) as [cv | |]; [| done | done].
  rewrite !bind_Normal.
  destruct (when (bool_decide (is_Some (allowedValues r))) _); [| done | done].
  rewrite !bind_Normal.
  destruct (when (bool_decide (is_Some (range r))) _); [| done | done].
  rewrite !bind_Normal.
  destruct (when (bool_decide (is_Some (truthyNumber (minLength r)))) _);
    [| done | done].
  rewrite !bind_Normal.
  destruct (when (bool_decide (is_Some (truthyNumber (maxLength r)))) _);
    [| done | done].
  rewrite !bind_Normal.
  destruct (when (bool_decide (is_Some (truthyNumber (rule_length r)))) _);
    [| done | done].
  rewrite !bind_Normal.
  destruct (if fixedChildLength r then _ else _) as [s1 | |] eqn:E; [| done | done].
  rewrite !bind_Normal.
  assert (length s1 ≤ 1)%nat.
  { destruct (fixedChildLength r); [| by injection E as <-].
    apply enableFixedChildLength_agree in E as [-> _]. done. }
  by rewrite !processSiblingRules_root.
Qed.

Lemma processRule_clearOrdering (formats : Formats) (opts : Options) (fuel : nat)
    (key : string) (r : option rule) (ruleName : option string) (v : value)
    (s : ParentStack) :
  (length s ≤ 1)%nat →
  processRule formats opts fuel key (clearOrdering <$> r) ruleName v s
  = processRule formats opts fuel key r ruleName v s.
Proof.
  intros Hs. destruct r as [r |]; [| done].
  cbn [fmap option_fmap option_map]. rewrite !processRule_unfold.
  rewrite processRuleChecks_clearOrdering by done.
  destruct (processRuleChecks _ _ _ (Some r) _ _ _) as [[[[r' cv] s1] |] | e |] eqn:E;
    [| done | done | done].
  rewrite bind_Normal. change (childRules (clearOrdering r')) with (childRules r').
  destruct (childRules r') as [rules |]; [| done].
  destruct (negb (typeof_object v)); [done |].
  destruct fuel as [| fuel]; [done |].
  destruct (processChildRules _ _ _ _ _ _) as [v1 [s2 | e |]] eqn:Ec; [| done | done].
  rewrite !bind_Normal.
  apply processRuleChecks_agree in E as [L1 _].
  apply processChildRules_stack in Ec as [L2 _];
    [| intros *; apply processRule_stack].
  rewrite !mutatedInFrame_root by lia. done.
Qed.

Lemma forEach_ext (J : ParentStack → Prop)
    (cb cb' : item → value → ParentStack → value * completion ParentStack)
    (items : list item) :
  (∀ it pv s, J s → cb' it pv s = cb it pv s) →
  (∀ it pv s pv' s', J s → cb it pv s = (pv', Normal s') → J s') →
  ∀ pv s, J s → forEach cb' items pv s = forEach cb items pv s.
Proof.
  intros Hext Hinv. induction items as [| it items IH]; intros pv s Hs; [done |].
  simpl. rewrite Hext by done.
  destruct (cb it pv s) as [pv1 [s1 | e |]] eqn:E; [| done | done].
  apply IH. by eapply Hinv.
Qed.

Lemma applyFilterForObject_clearOrderingMap (parentKey : string) (pv : value)
    (rules : ruleMap) :
  applyFilterForObject parentKey pv (clearOrderingMap rules)
  = applyFilterForObject parentKey pv rules.
Proof.
  rewrite !applyFilterForObject_cases.
  destruct (ownProps pv) as [props | |]; [| done | done].
  rewrite !bind_Normal, hasOwnProperty_clearOrderingMap.
  destruct (hasOwnProperty rules "hasOwnProperty"); [done |].
  f_equal. generalize (keys props). intros ks. revert pv.
  induction ks as [| k ks IH]; intros pv; [done |]. simpl.
  by rewrite hasOwnProperty_clearOrderingMap, IH.
Qed.

Lemma validate_clearOrderingMap (formats : Formats) (data : value)
    (rules : ruleMap) (options : UserOptions) :
  validate formats data (clearOrderingMap rules) options
  = validate formats data rules options.
Proof.
  unfold validate. rewrite rulesDepth_clearOrderingMap.
  set (opts := extend defaultOptions options).
  set (pr := processRule formats opts (rulesDepth rules)).
  enough (processChildRules opts pr "" (clearOrderingMap rules) data None
          = processChildRules opts pr "" rules data None) as -> by done.
  unfold processChildRules.
  rewrite iterate_clearOrderingMap, keys_clearOrderingMap,
    hasOwnProperty_clearOrderingMap.
  destruct (iterate data rules) as [items | e |]; [| done | done].
  rewrite (forEach_ext (λ s, length s ≤ 1)%nat
             (callback opts pr "" rules (isArray data)
                (bool_decide (1 < length (keys rules))%nat))).
  - destruct (forEach _ items data _) as [pv1 [s1 | e |]]; [| done | done].
    by rewrite applyFilterForObject_clearOrderingMap.
  - intros [[v ruleName] pos] pv s Hs. unfold callback.
    rewrite assoc_clearOrderingMap, selectConditionalRule_clearOrdering.
    destruct (selectConditionalRule opts _ v pv _) as [r | e |]; [| done | done].
    rewrite bind_Normal. unfold pr. by rewrite processRule_clearOrdering.
  - intros it pv s pv' s' Hs Hcb.
    eapply callback_stack in Hcb as [-> _]; [done |].
    intros *. apply processRule_stack.
  - done.
Qed.

(** C10. A value matched directly by the top-level Rule Map is processed on
    a stack that holds the root frame only: on such a stack the sibling
    checks return at once, whatever flags the rule carries and whatever the
    value, so neither an ordering error nor a length mismatch is raised
    there; the loop over the root level keeps the stack at one frame; and
    the outcome of [validate] is the same when the ordering flags of every
    top-level rule are cleared.  Root-level values out of order, and of
    different lengths under [fixedChildLength], validate. *)
Theorem root_level_sibling_checks_skipped :
  (∀ key r ruleName v (f : frame),
     processSiblingRules key r ruleName v [f] = Normal [f])
  ∧ (∀ formats opts fuel rules isArr multi items pv pv' s',
       forEach (callback opts (processRule formats opts fuel) "" rules isArr multi)
               items pv (push new_ParentStack) = (pv', Normal s') →
       length s' = 1%nat)
  ∧ (∀ formats data rules options,
       validate formats data (clearOrderingMap rules) options
       = validate formats data rules options)
  ∧ validate sample.formats (VObj [("x", VNum 3); ("y", VNum 1)])
      [("*", Single sample.ascendingRule)] sample.noOptions
    = (VObj [("x", VNum 3); ("y", VNum 1)], Normal ())
  ∧ validate sample.formats
      (VObj [("x", sample.numbers [1; 2]); ("y", sample.numbers [3; 4; 5])])
      [("*", Single sample.fixedRule)] sample.noOptions
    = (VObj [("x", sample.numbers [1; 2]); ("y", sample.numbers [3; 4; 5])],
       Normal ()).
Proof.
  split_and!; [| | | by_evaluation ..].
  - intros. by apply processSiblingRules_root.
  - intros formats opts fuel rules isArr multi items pv pv' s' H.
    enough (agreeFrom 2 (push new_ParentStack) s') as [-> _] by done.
    revert H. apply forEach_stack; eauto using agreeFrom_refl, agreeFrom_trans.
    intros it x s x' s1. apply callback_stack. intros *. apply processRule_stack.
  - apply validate_clearOrderingMap.
Qed.

(** C3, counterexample.  With [convert] on, [1, 2] under
    [{format: 'boolean', descending: true}] converts to [true, true], which
    does not break descending order, yet validation fails at index 1: the
    check compared the raw 1 and 2 (and the first value was already replaced
    by [true]).  And ['10', '9'] under [{format: 'number', ascending: true}]
    converts to [10, 9], which breaks ascending order, yet validation
    succeeds: the check compared the raw strings. *)
Lemma converted_value_not_seen_by_ordering_checks :
  validate sample.formats (VObj [("a", sample.numbers [1; 2])])
    [("a", Single (sample.parentRule
        [("*", Single (sample.formatDescendingRule "boolean"))]))]
    sample.convertOn
  = (VObj [("a", VArr [VBool true; VNum 2])],
     Throw (TrackValidationError "a[1]" BreaksDescendingOrder))
  ∧ js_lt (VBool true) (VBool true) = false
  ∧ validate sample.formats (VObj [("a", VArr [VStr "10"; VStr "9"])])
      [("a", Single (sample.parentRule
          [("*", Single (sample.formatAscendingRule "number"))]))]
      sample.convertOn
    = (VObj [("a", sample.numbers [10; 9])], Normal ())
  ∧ js_gt (VNum 10) (VNum 9) = true.
Proof. split_and!; by_evaluation. Qed.

(** The hypotheses of C3 hold for the first element of [1, 2] under
    [{format: 'boolean', descending: true}]. *)
Lemma convert_stores_output_orders_raw_witness :
  assign (sample.numbers [1; 2]) (Index 0) (VBool true)
  = Normal (VArr [VBool true; VNum 2])
  ∧ (∀ parentInfo, peek 1 [emptyFrame; emptyFrame] = Some parentInfo →
       ascending (sample.formatDescendingRule "boolean")
       || descending (sample.formatDescendingRule "boolean")
       || noRepeat (sample.formatDescendingRule "boolean") = true →
       ∃ parentInfo',
         peek 1 [Frame VUndef (Some {[ "*" := VNum 1 ]}); emptyFrame]
         = Some parentInfo'
         ∧ recorded parentInfo' (Some "*") = Some (VNum 1)).
Proof.
  destruct (convert_stores_output_orders_raw sample.formats
           (extend defaultOptions sample.convertOn) 0 "a"
           [("*", Single (sample.formatDescendingRule "boolean"))] true false
           (VNum 1) (Some "*") (Index 0) (sample.numbers [1; 2])
           [emptyFrame; emptyFrame] (sample.formatDescendingRule "boolean")
           "boolean" (λ v, Normal (VBool (truthy v))) (VBool true)
           (VArr [VBool true; VNum 2])
           [Frame VUndef (Some {[ "*" := VNum 1 ]}); emptyFrame])
    as (H1 & H2 & _).
  - reflexivity.
  - reflexivity.
  - reflexivity.
  - reflexivity.
  - reflexivity.
  - reflexivity.
  - reflexivity.
  - reflexivity.
  - reflexivity.
  - reflexivity.
  - reflexivity.
  - reflexivity.
  - by_evaluation.
  - split; [exact H1 | exact H2].
Defined.

(** * Further properties *)

(** ** The strategies on objects *)

Lemma mapM_pure {A B} (g : A → B) (l : list A) :
  mapM (λ x, Normal (g x)) l = Normal (g <$> l).
Proof. induction l as [| x l IH]; [done |]. simpl. by rewrite IH. Qed.

Lemma indexOf_absent (name : string) (l : list string) :
  indexOf name l = -1 ↔ name ∉ l.
Proof.
  assert (∀ l', -1 ≤ indexOf name l') as Hlow.
  { induction l' as [| n l' IH]; simpl; [lia |].
    destruct (String.eqb n name); [lia |]. destruct (_ <? 0) eqn:E; lia. }
  induction l as [| n l IH]; simpl.
  - split; [intros _; apply not_elem_of_nil | done].
  - rewrite not_elem_of_cons. destruct (String.eqb n name) eqn:E.
    + apply String.eqb_eq in E as ->. split; [lia | by intros [? _]].
    + apply String.eqb_neq in E. specialize (Hlow l).
      destruct (indexOf name l <? 0) eqn:E'.
      * assert (indexOf name l = -1) as Hi by lia.
        split; [| done]. intros _. split; [done | by apply IH].
      * split; [lia |]. intros [_ Hn%IH]. lia.
Qed.

(** X2. A mapping under a Rule Map with a wildcard entry, the keys of both
    being names that [Object.prototype] does not define: first the named
    rules, each on the value under its own name, then every key of the
    mapping that no named rule covers, in the mapping's order, under the
    wildcard rule; so every key of the mapping is visited. *)
Theorem iterate_object_wildcard_covers (fields : list (string * value))
    (rules : ruleMap) :
  hasOwnProperty rules wildcardRuleName = true →
  plainNames (keys rules) = true →
  plainNames (keys fields) = true →
  let value_of name := default VUndef (assoc name fields) in
  let explicitNames :=
    List.filter (λ name, negb (String.eqb name wildcardRuleName)) (keys rules) in
  let implicitNames :=
    List.filter (λ name, bool_decide (name ∉ explicitNames)) (keys fields) in
  iterate (VObj fields) rules
  = Normal (((λ name, (value_of name, Some name, Name name)) <$> explicitNames)
            ++ ((λ name, (value_of name, Some wildcardRuleName, Name name))
                <$> implicitNames))
  ∧ ∀ k, k ∈ keys fields → k ∈ explicitNames ++ implicitNames.
Proof.
  intros Hw _ _ value_of explicitNames implicitNames. split.
  - unfold iterate. rewrite Hw. unfold iterateObjectWithRulesWildcard.
    cbn [ownProps get_prop]. rewrite bind_Normal.
    fold explicitNames.
    assert (List.filter (λ name, indexOf name explicitNames =? -1) (keys fields)
            = implicitNames) as ->.
    { apply filter_ext. intros name.
      destruct (indexOf name explicitNames =? -1) eqn:E; symmetry.
      - apply bool_decide_eq_true. apply indexOf_absent. lia.
      - apply bool_decide_eq_false. rewrite <- indexOf_absent. lia. }
    rewrite (mapM_ext _ (λ name, Normal
               (value_of name,
                Some (if hasOwnProperty rules name then name else wildcardRuleName),
                Name name))) by done.
    rewrite mapM_pure, fmap_app. f_equal. f_equal.
    + apply list_fmap_ext. intros i name Hin%list_elem_of_lookup_2.
      apply list_elem_of_In, filter_In in Hin as [Hin%list_elem_of_In _].
      apply hasOwnProperty_true in Hin. by rewrite Hin.
    + apply list_fmap_ext. intros i name Hin%list_elem_of_lookup_2.
      apply list_elem_of_In, filter_In in Hin as [_ Hin%bool_decide_eq_true].
      destruct (hasOwnProperty rules name) eqn:E; [| done].
      apply hasOwnProperty_true in E.
      destruct (String.eqb name wildcardRuleName) eqn:En;
        [by apply String.eqb_eq in En as -> |].
      destruct Hin. apply list_elem_of_In, filter_In.
      split; [by apply list_elem_of_In | by rewrite En].
  - intros k Hk. apply elem_of_app.
    destruct (decide (k ∈ explicitNames)) as [? | Hn]; [by left | right].
    apply list_elem_of_In, filter_In.
    split; [by apply list_elem_of_In | by apply bool_decide_eq_true].
Qed.

(** The hypothesis of X2 holds for a named rule next to the wildcard; the
    key [x] is visited under the wildcard, after the named key. *)
Lemma iterate_object_wildcard_covers_witness :
  iterate (VObj [("x", VNum 1); ("a", VNum 2)])
    [("a", Single emptyRule); ("*", Single emptyRule)]
  = Normal [(VNum 2, Some "a", Name "a"); (VNum 1, Some "*", Name "x")].
Proof.
  apply (iterate_object_wildcard_covers [("x", VNum 1); ("a", VNum 2)]
           [("a", Single emptyRule); ("*", Single emptyRule)]).
  - reflexivity.
  - reflexivity.
  - reflexivity.
Defined.

(** ** Head and tail anchoring *)

Lemma indexOf_app_fresh (name : string) (l l' : list string) :
  name ∉ l → indexOf name (l ++ name :: l') = Z.of_nat (length l).
Proof.
  induction l as [| n l IH]; simpl.
  - intros _. by rewrite String.eqb_refl.
  - intros [Hn Hl]%not_elem_of_cons.
    destruct (String.eqb n name) eqn:E; [by apply String.eqb_eq in E |].
    rewrite IH by done. destruct (_ <? 0) eqn:E'; lia.
Qed.

Lemma assoc_app_fresh {A} (k : string) (a : A) (l l' : list (string * A)) :
  k ∉ keys l → assoc k (l ++ (k, a) :: l') = Some a.
Proof.
  unfold keys. induction l as [| [k' x] l IH]; simpl.
  - intros _. by rewrite String.eqb_refl.
  - intros [Hn Hl]%not_elem_of_cons.
    destruct (String.eqb k' k) eqn:E; [by apply String.eqb_eq in E | by apply IH].
Qed.

Lemma keys_app {A} (l l' : list (string * A)) : keys (l ++ l') = keys l ++ keys l'.
Proof. apply fmap_app. Qed.

(** X3. A sequence under a Rule Map whose wildcard entry follows [h] head
    rules and precedes [t] tail rules: the number of positions is
    [max(length, h + t + (1 if the wildcard is required))]; the first [h]
    positions get the head rules in order and the positions from [h] up to
    the last [t] get the wildcard rule; when exactly one rule precedes the
    wildcard, the last [t] positions get the tail rules in order. *)
Theorem wildcard_anchoring (array : list value) (heads tail : ruleMap)
    (e : ruleEntry rule) :
  wildcardRuleName ∉ keys heads →
  let rules := heads ++ (wildcardRuleName, e) :: tail in
  let h := length heads in
  let t := length tail in
  let total := (length array `max` (h + t + if entryRequired e then 1 else 0))%nat in
  ∃ items : list item,
    iterate (VArr array) rules = Normal items
    ∧ length items = total
    ∧ (∀ i name, keys heads !! i = Some name →
         items !! i = Some (nth_value array i, Some name, Index i))
    ∧ (∀ i, (h ≤ i < total - t)%nat →
         items !! i = Some (nth_value array i, Some wildcardRuleName, Index i))
    ∧ (h = 1%nat → ∀ j name, keys tail !! j = Some name →
         items !! (total - t + j)%nat
         = Some (nth_value array (total - t + j), Some name, Index (total - t + j))).
Proof.
  intros Hfresh rules h t total.
  assert (keys rules = keys heads ++ wildcardRuleName :: keys tail) as Hkeys.
  { subst rules. by rewrite keys_app. }
  assert (length (keys heads) = h) as Hh by apply length_keys.
  assert (length (keys tail) = t) as Ht by apply length_keys.
  assert (hasOwnProperty rules wildcardRuleName = true) as Hw.
  { apply hasOwnProperty_true. rewrite Hkeys. apply elem_of_app. right.
    apply elem_of_cons. by left. }
  unfold iterate. rewrite Hw. unfold iterateArrayWithRulesWildcard.
  subst rules. rewrite assoc_app_fresh by done. rewrite Hkeys.
  rewrite indexOf_app_fresh by done.
  rewrite length_app, Hh. cbn [length]. rewrite Ht.
  set (totalZ := Z.max _ _).
  assert (totalZ = Z.of_nat total) as HtotalZ.
  { subst totalZ total. destruct (entryRequired e); lia. }
  assert (h + t ≤ total)%nat as Hbig by (subst total; lia).
  rewrite HtotalZ, Nat2Z.id. clear HtotalZ. clearbody total h t.
  set (wildcardEndIndex := Z.of_nat total - _ - 1).
  assert (wildcardEndIndex = Z.of_nat total - Z.of_nat t - 1) as Hend
    by (subst wildcardEndIndex; lia).
  clearbody wildcardEndIndex. subst wildcardEndIndex.
  eexists. split; [reflexivity |].
  split; [by rewrite length_fmap, length_seq |].
  split_and!.
  - intros i name Hi.
    assert (i < h)%nat as Hlt by (rewrite <- Hh; by eapply lookup_lt_Some).
    rewrite list_lookup_fmap, lookup_seq_lt by lia. simpl.
    rewrite wildcardRuleIndex_head by lia.
    unfold nameAt. destruct (Z.of_nat i <? 0) eqn:E; [lia |].
    rewrite Nat2Z.id, lookup_app_l by lia. by rewrite Hi.
  - intros i Hi.
    rewrite list_lookup_fmap, lookup_seq_lt by lia. simpl.
    rewrite wildcardRuleIndex_middle by lia.
    unfold nameAt. destruct (Z.of_nat h <? 0) eqn:E; [lia |].
    rewrite Nat2Z.id. by rewrite list_lookup_middle.
  - intros H1 j name Hj.
    assert (j < t)%nat as Hlt by (rewrite <- Ht; by eapply lookup_lt_Some).
    rewrite list_lookup_fmap, lookup_seq_lt by lia. simpl.
    unfold wildcardRuleIndex.
    rewrite (proj2 (Z.ltb_lt _ (Z.of_nat (total - t + j)))) by lia.
    unfold nameAt. rewrite (proj2 (Z.ltb_ge _ 0)) by lia.
    replace (Z.to_nat (Z.of_nat (total - t + j) - (Z.of_nat total - Z.of_nat t - 1) + 1))
      with (length (keys heads) + S j)%nat by lia.
    rewrite lookup_app_r by lia.
    replace (length (keys heads) + S j - length (keys heads))%nat with (S j) by lia.
    simpl. by rewrite Hj.
Qed.

(** The hypothesis of X3 holds for one head rule and one tail rule around
    the wildcard, on five elements. *)
Lemma wildcard_anchoring_witness :
  ∃ items : list item,
    iterate (VArr [VNum 1; VNum 2; VNum 3; VNum 4; VNum 5])
      ([("a", Single emptyRule)] ++ ("*", Single emptyRule) :: [("b", Single emptyRule)])
    = Normal items
    ∧ length items = 5%nat
    ∧ (∀ i name, ["a"] !! i = Some name →
         items !! i
         = Some (nth_value [VNum 1; VNum 2; VNum 3; VNum 4; VNum 5] i,
                 Some name, Index i))
    ∧ (∀ i, (1 ≤ i < 4)%nat →
         items !! i
         = Some (nth_value [VNum 1; VNum 2; VNum 3; VNum 4; VNum 5] i,
                 Some "*", Index i))
    ∧ (1%nat = 1%nat → ∀ j name, ["b"] !! j = Some name →
         items !! (4 + j)%nat
         = Some (nth_value [VNum 1; VNum 2; VNum 3; VNum 4; VNum 5] (4 + j),
                 Some name, Index (4 + j))).
Proof.
  apply (wildcard_anchoring [VNum 1; VNum 2; VNum 3; VNum 4; VNum 5]
           [("a", Single emptyRule)] [("b", Single emptyRule)] (Single emptyRule)).
  by intros [= ]%list_elem_of_singleton.
Defined.

(** ** Conditional alternatives *)

Lemma someCondition_find (opts : Options) (conditions : conditionsRegistry)
    (alternatives : list rule) (v parentValue : value) (key : string) :
  opt_conditions opts = Some conditions →
  (∀ r name, r ∈ alternatives → truthyString (condition r) = Some name →
             is_Some (conditions name)) →
  someCondition opts alternatives v parentValue key
  = Normal (List.find (conditionHolds conditions parentValue v) alternatives).
Proof.
  intros Hc. induction alternatives as [| r rs IH]; intros Hreg; [done |].
  simpl. unfold conditionHolds at 1.
  assert (someCondition opts rs v parentValue key
          = Normal (List.find (conditionHolds conditions parentValue v) rs)) as IH'.
  { apply IH. intros r' name Hin. apply Hreg. by apply elem_of_cons; right. }
  destruct (truthyString (condition r)) as [name |] eqn:En; [| done].
  rewrite Hc.
  destruct (Hreg r name) as [cond Hcond]; [apply elem_of_cons; by left | done |].
  rewrite Hcond. by destruct (cond parentValue v).
Qed.

(** X4. A list of conditional alternatives whose condition names are all
    registered: the rule applied is the first alternative, in list order,
    whose condition holds of the parent value and the value; when none holds,
    the first alternative that has no [condition] property; when there is
    none either, the rule without constraints. *)
Theorem selectConditionalRule_first_match (opts : Options)
    (conditions : conditionsRegistry) (alternatives : list rule)
    (v parentValue : value) (key : string) :
  opt_conditions opts = Some conditions →
  (∀ r name, r ∈ alternatives → truthyString (condition r) = Some name →
             is_Some (conditions name)) →
  selectConditionalRule opts (Some (Alternatives alternatives)) v parentValue key
  = Normal (Some
      match List.find (conditionHolds conditions parentValue v) alternatives with
      | Some r => r
      | None =>
          default emptyRule
            (List.find (λ r, bool_decide (condition r = None)) alternatives)
      end).
Proof.
  intros Hc Hreg. unfold selectConditionalRule.
  rewrite (someCondition_find opts conditions) by done. rewrite bind_Normal.
  destruct (List.find (conditionHolds _ _ _) alternatives) as [r |]; [done |].
  clear. induction alternatives as [| r rs IH]; [done |]. simpl.
  by destruct (bool_decide (condition r = None)).
Qed.

(** The hypotheses of X4 hold for a registered condition that fails on 7 and
    an alternative without condition, which is then the rule applied. *)
Lemma selectConditionalRule_first_match_witness :
  selectConditionalRule
    (extend defaultOptions
       (Build_UserOptions None None None
          (Some (λ name, if String.eqb name "big"
                         then Some (λ _ v, js_gt v (VNum 100)) else None))))
    (Some (Alternatives [sample.conditionRule "big"; sample.rangeRule 1 5]))
    (VNum 7) VNull "a"
  = Normal (Some (sample.rangeRule 1 5)).
Proof.
  apply (selectConditionalRule_first_match _
           (λ name, if String.eqb name "big"
                    then Some (λ _ v, js_gt v (VNum 100)) else None)
           [sample.conditionRule "big"; sample.rangeRule 1 5] (VNum 7) VNull "a").
  - reflexivity.
  - intros r name [-> | [-> | []%elem_of_nil]%elem_of_cons]%elem_of_cons.
    + intros [= <-]. by eexists.
    + intros [= ].
Defined.

(** ** Stack discipline *)

(** X5. A call of [processRule] that returns leaves the stack as deep as it
    found it and changes no frame below the top two: what it pushes it pops,
    and it writes only to its own frame and to the frame of its parent. *)
Theorem processRule_stack_discipline (formats : Formats) (opts : Options)
    (fuel : nat) (key : string) (r : option rule) (ruleName : option string)
    (v : value) (s : ParentStack) (v' cv : value) (s' : ParentStack) :
  processRule formats opts fuel key r ruleName v s = (v', Normal (cv, s')) →
  length s' = length s ∧ ∀ offset, (2 ≤ offset)%nat → peek offset s' = peek offset s.
Proof. intros H. by apply processRule_stack in H. Qed.

(** The hypothesis of X5 holds for an ascending rule on a stack of three
    frames: the value is recorded in the second frame from the top. *)
Lemma processRule_stack_discipline_witness :
  length [emptyFrame; Frame VUndef (Some {[ "*" := VNum 1 ]}); emptyFrame] = 3%nat
  ∧ ∀ offset, (2 ≤ offset)%nat →
      peek offset [emptyFrame; Frame VUndef (Some {[ "*" := VNum 1 ]}); emptyFrame]
      = peek offset [emptyFrame; emptyFrame; emptyFrame].
Proof.
  apply (processRule_stack_discipline sample.formats defaultOptions 0 "a[0]"
           (Some sample.ascendingRule) (Some "*") (VNum 1)
           [emptyFrame; emptyFrame; emptyFrame] (VNum 1) (VNum 1)).
  by_evaluation.
Defined.

(** ** Positions kept *)

(** X6. Without [filter], under a Rule Map whose rule-names
    [Object.prototype] does not define, a level keeps its positions however
    it completes and whether or not values are converted: an array has as
    many elements after the call as before, an object the same keys in the
    same order. *)
Theorem processChildRules_keeps_positions (formats : Formats) (opts : Options)
    (fuel : nat) (parentKey : string) (rules : ruleMap) (parentValue : value)
    (st : option ParentStack) :
  opt_filter opts = false →
  plainNames (keys rules) = true →
  sameShape parentValue
    (processChildRules opts (processRule formats opts fuel) parentKey rules
       parentValue st).1.
Proof.
  intros Hf _. unfold processChildRules. rewrite Hf. cbn [andb].
  destruct (iterate parentValue rules) as [items | e |] eqn:Ei;
    [| apply sameShape_refl | apply sameShape_refl].
  pose proof (forEach_shape opts (processRule formats opts fuel)
                (processRule_undefined formats opts fuel) parentKey rules
                (isArray parentValue)
                (bool_decide (1 < length (keys rules))%nat) parentValue items
                (push (default new_ParentStack st))
                (iterate_itemOf _ _ _ Ei)) as Hshape.
  destruct (forEach _ items _ _) as [pv1 c]. by destruct c.
Qed.

(** The hypothesis of X6 holds with [convert] on, for an object whose first
    value converts and whose second value fails. *)
Lemma processChildRules_keeps_positions_witness :
  sameShape (VObj [("a", VStr "12"); ("b", VStr "x")])
    (processChildRules (extend defaultOptions sample.convertOn)
       (processRule sample.formats (extend defaultOptions sample.convertOn) 0) ""
       [("a", Single (sample.formatRule "number"));
        ("b", Single (sample.formatRule "number"))]
       (VObj [("a", VStr "12"); ("b", VStr "x")]) None).1.
Proof.
  apply (processChildRules_keeps_positions sample.formats
           (extend defaultOptions sample.convertOn) 0 ""
           [("a", Single (sample.formatRule "number"));
            ("b", Single (sample.formatRule "number"))]
           (VObj [("a", VStr "12"); ("b", VStr "x")]) None).
  - reflexivity.
  - reflexivity.
Defined.

(** ** Missing values *)

Lemma processRule_missing (formats : Formats) (opts : Options) (fuel : nat)
    (key : string) (r : rule) (ruleName : option string) (s : ParentStack) :
  processRule formats opts fuel key (Some r) ruleName VUndef s
  = (VUndef,
     if required r then Throw (TrackValidationError key NotDefinedButRequired)
     else Normal (VUndef, s)).
Proof.
  rewrite processRule_unfold. unfold processRuleChecks. rewrite bind_Normal.
  by destruct (required r).
Qed.

Lemma updateField_absent (n : string) (v : value) (f : list (string * value)) :
  assoc n f = None → updateField n v f = f.
Proof.
  induction f as [| [k x] f IH]; [done |]. simpl.
  destruct (String.eqb k n); [done |]. intros H. by rewrite IH.
Qed.

Lemma assoc_is_Some {A} (m : list (string * A)) (k : string) :
  k ∈ keys m → is_Some (assoc k m).
Proof.
  intros H%hasOwnProperty_true. unfold hasOwnProperty in H.
  by apply bool_decide_eq_true in H.
Qed.

Lemma filter_none {A} (p : A → bool) (l : list A) :
  (∀ x, x ∈ l → p x = false) → List.filter p l = [].
Proof.
  induction l as [| x l IH]; [done |]. intros H. simpl.
  rewrite (H x) by (apply elem_of_cons; by left).
  apply IH. intros y Hy. apply H. apply elem_of_cons. by right.
Qed.

Lemma mapM_ext_in {A B} (f g : A → completion B) (l : list A) :
  (∀ x, x ∈ l → f x = g x) → mapM f l = mapM g l.
Proof.
  induction l as [| x l IH]; [done |]. intros H. simpl.
  rewrite (H x) by (apply elem_of_cons; by left).
  rewrite IH; [done |]. intros y Hy. apply H. apply elem_of_cons. by right.
Qed.

Lemma elem_of_keys {A} (m : list (string * A)) (k : string) (x : A) :
  (k, x) ∈ m → k ∈ keys m.
Proof. intros H. unfold keys. apply list_elem_of_fmap. by exists (k, x). Qed.

(** X7. An object that holds none of the keys a Rule Map names, under a Rule
    Map of single rules without wildcard entry whose rule-names
    [Object.prototype] does not define: validation fails at the first rule,
    in declaration order, that is [required], with that rule's name as the
    key of the error, and checks nothing else; when no rule is required it
    succeeds, and with [filter] the object is left empty. *)
Theorem validate_missing_keys (formats : Formats) (fields : list (string * value))
    (rules : ruleMap) (options : UserOptions) :
  hasOwnProperty rules wildcardRuleName = false →
  plainNames (keys rules) = true →
  (∀ name, name ∈ keys rules → assoc name fields = None) →
  (∀ name e, assoc name rules = Some e → ∃ r, e = Single r) →
  validate formats (VObj fields) rules options
  = match List.find (λ name, from_option entryRequired false (assoc name rules))
                    (keys rules) with
    | Some name =>
        (VObj fields, Throw (TrackValidationError name NotDefinedButRequired))
    | None =>
        (if opt_filter (extend defaultOptions options) then VObj [] else VObj fields,
         Normal ())
    end.
Proof.
  intros Hw Hplain Hmiss Hsingle. unfold validate, processChildRules.
  set (opts := extend defaultOptions options).
  set (pr := processRule formats opts (rulesDepth rules)).
  set (multi := bool_decide (1 < length (keys rules))%nat).
  rewrite Hw. cbn [isArray negb andb default].
  assert (iterate (VObj fields) rules
          = Normal ((λ name, (VUndef, Some name, Name name)) <$> keys rules)) as ->.
  { unfold iterate. rewrite Hw. unfold iterateObjectWithRules. cbn [get_prop].
    rewrite <- mapM_pure. apply mapM_ext_in. intros name Hin.
    by rewrite bind_Normal, Hmiss. }
  assert (∀ names s, (∀ name, name ∈ names → name ∈ keys rules) →
            forEach (callback opts pr "" rules false multi)
              ((λ name, (VUndef, Some name, Name name)) <$> names) (VObj fields) s
            = match List.find (λ name, from_option entryRequired false
                                         (assoc name rules)) names with
              | Some name =>
                  (VObj fields, Throw (TrackValidationError name NotDefinedButRequired))
              | None => (VObj fields, Normal s)
              end) as Hloop.
  { induction names as [| name names IH]; intros s Hin; [done |].
    assert (name ∈ keys rules) as Hname by (apply Hin, elem_of_cons; by left).
    destruct (assoc_is_Some rules name Hname) as [e He].
    destruct (Hsingle name e He) as [r ->].
    cbn [fmap list_fmap forEach callback propertyKey default from_option id List.find].
    change (childKey "" false multi (Some name) (Name name)) with name.
    rewrite He. cbn [selectConditionalRule from_option entryRequired].
    unfold pr at 1. rewrite processRule_missing.
    unfold writeBack. cbn [replaceChild].
    rewrite updateField_absent by by apply Hmiss.
    destruct (required r); [done |]. cbn [is_undefined negb andb].
    apply IH. intros n Hn. apply Hin, elem_of_cons. by right. }
  rewrite Hloop by done.
  destruct (List.find _ (keys rules)) as [name |]; [done |].
  destruct (opt_filter opts); [| done].
  rewrite applyFilterForObject_object, filter_none; [done | |].
  - intros [k x] Hin. simpl. apply not_true_iff_false.
    intros Hk%hasOwnProperty_true. apply Hmiss in Hk.
    apply elem_of_keys, assoc_is_Some in Hin as [y Hy]. congruence.
  - by apply plainNames_hasOwnProperty.
Qed.

(** The hypotheses of X7 hold for an object without the keys [a] and [b],
    the second of which is required. *)
Lemma validate_missing_keys_witness :
  validate sample.formats (VObj [("x", VNum 1)])
    [("a", Single emptyRule);
     ("b", Single (Rule true None None None None None None
                        false false false false None None))]
    sample.filterOn
  = (VObj [("x", VNum 1)], Throw (TrackValidationError "b" NotDefinedButRequired)).
Proof.
  apply (validate_missing_keys sample.formats [("x", VNum 1)]
           [("a", Single emptyRule);
            ("b", Single (Rule true None None None None None None
                               false false false false None None))]
           sample.filterOn).
  - reflexivity.
  - reflexivity.
  - intros name [-> | [-> | []%elem_of_nil]%elem_of_cons]%elem_of_cons; reflexivity.
  - intros name e. cbn [assoc].
    destruct (String.eqb "a" name); [intros [= <-]; by eexists |].
    destruct (String.eqb "b" name); [intros [= <-]; by eexists | done].
Defined.

(** ** Degenerate inputs *)

Lemma iterate_no_object (data : value) (rules : ruleMap) :
  data = VUndef ∨ data = VNull → rules ≠ [] → iterate data rules = Throw TypeError.
Proof.
  intros Hdata Hrules. unfold iterate.
  assert ((if hasOwnProperty rules wildcardRuleName
           then iterateObjectWithRulesWildcard data rules
           else iterateObjectWithRules data rules) = Throw TypeError) as H.
  { destruct (hasOwnProperty rules wildcardRuleName).
    - unfold iterateObjectWithRulesWildcard. by destruct Hdata as [-> | ->].
    - unfold iterateObjectWithRules. destruct rules as [| [name e] rules]; [done |].
      by destruct Hdata as [-> | ->]. }
  by destruct Hdata as [-> | ->].
Qed.

(** X8. Data that is null or undefined, under a Rule Map with at least one
    entry: [validate] raises a [TypeError], not a validation error, and
    whatever the options. *)
Theorem validate_no_object (formats : Formats) (data : value) (rules : ruleMap)
    (options : UserOptions) :
  data = VUndef ∨ data = VNull →
  rules ≠ [] →
  validate formats data rules options = (data, Throw TypeError).
Proof.
  intros Hdata Hrules. unfold validate, processChildRules.
  by rewrite iterate_no_object.
Qed.

(** The hypotheses of X8 hold for null under one rule. *)
Lemma validate_no_object_witness :
  validate sample.formats VNull [("a", Single emptyRule)] sample.noOptions
  = (VNull, Throw TypeError).
Proof.
  apply (validate_no_object sample.formats VNull [("a", Single emptyRule)]
           sample.noOptions).
  - by right.
  - done.
Defined.

(** X9. The empty Rule Map.  An object passes, and with [filter] loses every
    key; the empty array passes; an array with an element raises the error of
    reading a property of the undefined rule, a [TypeError], or with [debug]
    the [SyntaxError] of the rule's JSON round trip. *)
Theorem validate_empty_rules (formats : Formats) (options : UserOptions) :
  let opts := extend defaultOptions options in
  (∀ fields,
     validate formats (VObj fields) [] options
     = (if opt_filter opts then VObj [] else VObj fields, Normal ()))
  ∧ validate formats (VArr []) [] options = (VArr [], Normal ())
  ∧ (∀ x elems,
       validate formats (VArr (x :: elems)) [] options
       = (VArr (x :: elems),
          Throw (if opt_debug opts then SyntaxError else TypeError))).
Proof.
  intros opts.
  assert (hasOwnProperty ([] : ruleMap) wildcardRuleName = false) as Hw
    by reflexivity.
  split_and!.
  - intros fields. unfold validate, processChildRules, iterate. fold opts.
    rewrite Hw. cbn [iterateObjectWithRules keys fmap list_fmap mapM].
    cbn [mapM mret completion_ret forEach isArray negb andb].
    rewrite andb_true_r.
    destruct (opt_filter opts); [| done].
    rewrite applyFilterForObject_object, filter_none; [done | | done].
    intros [k x] _. simpl. apply bool_decide_eq_false. by intros [? ?].
  - unfold validate, processChildRules. fold opts.
    cbn [isArray negb andb]. by rewrite andb_false_r.
  - intros x elems. unfold validate, processChildRules, iterate. fold opts.
    rewrite Hw. unfold iterateArrayWithRules.
    cbn [keys fmap list_fmap length Nat.max seq forEach callback propertyKey
         default assoc selectConditionalRule rulesDepth foldr].
    rewrite processRule_unfold. unfold processRuleChecks. rewrite bind_Throw.
    unfold writeBack. done.
Qed.

(** ** The registry: converters against validators *)

Lemma convertNumber_number (v cv : value) :
  validatorformats.convertNumber v = Normal cv → validatorformats.number cv = true.
Proof.
  destruct v as [| | b | n | str | l | f]; try done; simpl.
  - by intros [= <-].
  - destruct (validatorformats.parseInt str); [by intros [= <-] | done].
Qed.

Lemma convertChecked_check (check : value → bool) (e : string) (v cv : value) :
  validatorformats.convertChecked check e v = Normal cv → check cv = true.
Proof.
  unfold validatorformats.convertChecked.
  intros (n & _ & H)%bind_Normal_inv.
  destruct (check n) eqn:E; [by injection H as <- | done].
Qed.

Lemma convertChecked_fixes (check : value → bool) (e : string) (v : value) :
  validatorformats.number v = true → check v = true →
  validatorformats.convertChecked check e v = Normal v.
Proof.
  destruct v; try done. intros _ H. unfold validatorformats.convertChecked.
  simpl. by rewrite H.
Qed.

Lemma between_number (lo hi : Z) (v : value) :
  validatorformats.between lo hi v = true → validatorformats.number v = true.
Proof. by destruct v. Qed.

Lemma timestamp_number (v : value) :
  validatorformats.timestamp v = true → validatorformats.number v = true.
Proof. by destruct v. Qed.

(** A value the validator of a format other than [timestamp] accepts is a
    primitive, and the converter of the format returns it as it is. *)
Lemma converters_fix_valid
    (dateParses emailPattern iso8601DatePattern : value → completion bool)
    (f : string) (converter : value → completion value)
    (validator : value → completion bool) (v : value) :
  let registry :=
    validatorformats.exports dateParses emailPattern iso8601DatePattern in
  f ≠ "timestamp" →
  converters registry f = Some converter →
  validators registry f = Some validator →
  validator v = Normal true →
  converter v = Normal v ∧ typeof_object v = false.
Proof.
  intros registry Hne. subst registry.
  unfold validatorformats.exports. cbn [converters validators].
  unfold validatorformats.converters, validatorformats.validators. intros Hc Hv.
  destruct (String.eqb f "number") eqn:E1.
  { apply String.eqb_eq in E1 as ->. injection Hc as <-. injection Hv as <-.
    intros [= H]. by destruct v. }
  destruct (String.eqb f "boolean") eqn:E2.
  { apply String.eqb_eq in E2 as ->. injection Hc as <-. injection Hv as <-.
    intros [= H]. by destruct v. }
  destruct (String.eqb f "geo") eqn:E3.
  { apply String.eqb_eq in E3 as ->. injection Hc as <-. injection Hv as <-.
    intros [= H]. split; [| by destruct v].
    apply convertChecked_fixes; [by eapply between_number | done]. }
  destruct (String.eqb f "altitude") eqn:E4.
  { apply String.eqb_eq in E4 as ->. done. }
  destruct (String.eqb f "timestamp") eqn:E5.
  { by apply String.eqb_eq in E5. }
  destruct (String.eqb f "year") eqn:E6.
  { apply String.eqb_eq in E6 as ->. injection Hc as <-. injection Hv as <-.
    intros [= H]. split; [| by destruct v].
    apply convertChecked_fixes; [by eapply between_number | done]. }
  destruct (String.eqb f "month") eqn:E7.
  { apply String.eqb_eq in E7 as ->. injection Hc as <-. injection Hv as <-.
    intros [= H]. split; [| by destruct v].
    apply convertChecked_fixes; [by eapply between_number | done]. }
  destruct (String.eqb f "day") eqn:E8.
  { apply String.eqb_eq in E8 as ->. injection Hc as <-. injection Hv as <-.
    intros [= H]. split; [| by destruct v].
    apply convertChecked_fixes; [by eapply between_number | done]. }
  done.
Qed.

(** X10. For every format the registry has both a converter and a validator
    for, what the converter returns is accepted by the validator; and for
    every such format but [timestamp], whose converter rounds the number, a
    value the validator accepts is returned by the converter as it is. *)
Theorem converters_agree_with_validators
    (dateParses emailPattern iso8601DatePattern : value → completion bool)
    (f : string) (converter : value → completion value)
    (validator : value → completion bool) :
  let registry :=
    validatorformats.exports dateParses emailPattern iso8601DatePattern in
  converters registry f = Some converter →
  validators registry f = Some validator →
  (∀ v cv, converter v = Normal cv → validator cv = Normal true)
  ∧ (f ≠ "timestamp" →
     ∀ v, validator v = Normal true → converter v = Normal v).
Proof.
  intros registry Hc Hv. split.
  - revert Hc Hv. subst registry.
    unfold validatorformats.exports. cbn [converters validators].
    unfold validatorformats.converters, validatorformats.validators. intros Hc Hv.
    repeat match type of Hc with
           | (if String.eqb f ?name then _ else _) = _ =>
               let E := fresh "E" in
               destruct (String.eqb f name) eqn:E;
               [apply String.eqb_eq in E as ->; try done;
                injection Hc as <-; injection Hv as <-; intros v cv H; f_equal;
                first [by eapply convertNumber_number
                      | by injection H as <-
                      | by eapply convertChecked_check] |]
           end.
    done.
  - intros Hne v H.
    by apply (converters_fix_valid dateParses emailPattern iso8601DatePattern
                f converter validator v Hne Hc Hv).
Qed.

(** X11. The format [altitude] has a converter that calls a validator the
    registry does not have, and no validator: with [convert] a number or a
    numeric string raises a [TypeError], and the format check of a value
    never returns, with or without [convert]. *)
Theorem altitude_never_validates
    (dateParses emailPattern iso8601DatePattern : value → completion bool)
    (opts : Options) (r : rule) (v : value) (key : string) :
  let registry :=
    validatorformats.exports dateParses emailPattern iso8601DatePattern in
  format r = Some "altitude" →
  (∀ out, isCorrectFormat registry opts r v key ≠ Normal out)
  ∧ (opt_convert opts = false →
     isCorrectFormat registry opts r v key = Throw (Error "altitude" key))
  ∧ (opt_convert opts = true → validatorformats.number v = true →
     isCorrectFormat registry opts r v key = Throw TypeError).
Proof.
  intros registry Hf. subst registry. unfold isCorrectFormat. rewrite Hf.
  unfold validatorformats.exports. cbn [converters validators default].
  unfold validatorformats.converters, validatorformats.validators.
  cbn [String.eqb Ascii.eqb Bool.eqb id].
  split_and!.
  - intros out. destruct (opt_convert opts); [| done].
    cbv beta. destruct (validatorformats.convertNumber v) as [n | [] |]; by cbn.
  - by intros ->.
  - intros -> Hv. destruct v; try done.
Qed.

(** The hypotheses of X10 hold for the format [year]. *)
Lemma converters_agree_with_validators_witness :
  (∀ v cv, validatorformats.convertChecked validatorformats.year
             "year should be between 2000 and 2099" v = Normal cv →
           Normal (validatorformats.year cv) = Normal true)
  ∧ ("year" ≠ "timestamp" →
     ∀ v, Normal (validatorformats.year v) = Normal true →
          validatorformats.convertChecked validatorformats.year
            "year should be between 2000 and 2099" v = Normal v).
Proof.
  apply (converters_agree_with_validators (λ _, Normal false) (λ _, Normal false)
           (λ _, Normal false) "year"
           (validatorformats.convertChecked validatorformats.year
              "year should be between 2000 and 2099")
           (λ v, Normal (validatorformats.year v))).
  - reflexivity.
  - reflexivity.
Defined.

(** The hypothesis of X11 holds for [{format: 'altitude'}]. *)
Lemma altitude_never_validates_witness :
  (∀ out, isCorrectFormat sample.formats (extend defaultOptions sample.convertOn)
            (sample.formatRule "altitude") (VNum 100) "a" ≠ Normal out)
  ∧ (opt_convert (extend defaultOptions sample.convertOn) = false →
     isCorrectFormat sample.formats (extend defaultOptions sample.convertOn)
       (sample.formatRule "altitude") (VNum 100) "a"
     = Throw (Error "altitude" "a"))
  ∧ (opt_convert (extend defaultOptions sample.convertOn) = true →
     validatorformats.number (VNum 100) = true →
     isCorrectFormat sample.formats (extend defaultOptions sample.convertOn)
       (sample.formatRule "altitude") (VNum 100) "a"
     = Throw TypeError).
Proof.
  apply (altitude_never_validates (λ _, Normal false) (λ _, Normal false)
           (λ _, Normal false) (extend defaultOptions sample.convertOn)
           (sample.formatRule "altitude") (VNum 100) "a").
  reflexivity.
Defined.

(** ** Siblings under a lone wildcard rule *)

Lemma forEach_app
    (cb : item → value → ParentStack → value * completion ParentStack)
    (items items' : list item) (pv : value) (s : ParentStack) :
  forEach cb (items ++ items') pv s
  = match forEach cb items pv s with
    | (pv', Normal s') => forEach cb items' pv' s'
    | stopped => stopped
    end.
Proof.
  revert pv s. induction items as [| it items IH]; intros pv s; simpl.
  - done.
  - destruct (cb it pv s) as [pv1 [s1 | e |]]; [apply IH | done | done].
Qed.

Lemma wildcardItems_cons (k : nat) (v : value) (xs : list value) :
  wildcardItems k (v :: xs)
  = (v, Some wildcardRuleName, Index k) :: wildcardItems (S k) xs.
Proof. done. Qed.

Lemma wildcardItems_app (k : nat) (xs ys : list value) :
  wildcardItems k (xs ++ ys)
  = wildcardItems k xs ++ wildcardItems (k + length xs) ys.
Proof.
  revert k. induction xs as [| x xs IH]; intros k.
  - simpl. by rewrite Nat.add_0_r.
  - rewrite <- app_comm_cons, !wildcardItems_cons, IH. simpl.
    by rewrite Nat.add_succ_r.
Qed.

Lemma iterate_only_wildcard (elems : list value) (r : rule) :
  required r = false →
  iterate (VArr elems) [(wildcardRuleName, Single r)]
  = Normal (wildcardItems 0 elems).
Proof.
  intros Hr. unfold iterate.
  assert (hasOwnProperty [(wildcardRuleName, Single r)] wildcardRuleName = true)
    as -> by (by apply hasOwnProperty_true, list_elem_of_singleton).
  unfold iterateArrayWithRulesWildcard.
  cbn [assoc String.eqb wildcardRuleName Ascii.eqb Bool.eqb keys fmap list_fmap
       fst length indexOf entryRequired].
  rewrite Hr. f_equal.
  replace (Z.to_nat (Z.of_nat (length elems) `max` (Z.of_nat 1 - 1)))
    with (length elems) by lia.
  unfold wildcardItems.
  assert (∀ i, (i < length elems)%nat →
            nameAt ["*"]
              (wildcardRuleIndex 0
                 (Z.of_nat (length elems) `max` (Z.of_nat 1 - 1)
                  - (Z.of_nat 1 - 1 - 0) - 1) (Z.of_nat i))
            = Some "*") as Hname.
  { intros i Hi. by rewrite wildcardRuleIndex_middle by lia. }
  apply list_eq. intros i.
  rewrite list_lookup_fmap, lookup_zip_with.
  destruct (decide (i < length elems)%nat) as [Hi | Hi].
  - rewrite lookup_seq_lt by done. simpl. rewrite Hname by done.
    unfold nth_value. destruct (lookup_lt_is_Some_2 elems i Hi) as [x ->]. done.
  - rewrite lookup_seq_ge by lia. done.
Qed.

Lemma processRule_orderingRule (formats : Formats) (opts : Options) (fuel : nat)
    (key : string) (asc desc nr : bool) (ruleName : option string) (v : value)
    (st : ParentStack) :
  is_undefined v = false →
  processRule formats opts fuel key (Some (orderingRule asc desc nr)) ruleName v st
  = (v, processSiblingRules key (orderingRule asc desc nr) ruleName v st
        ≫= λ st', Normal (v, st')).
Proof.
  intros Hv. rewrite processRule_unfold. unfold processRuleChecks.
  cbn [orderingRule required format allowedValues range minLength maxLength
       rule_length fixedChildLength truthyString truthyNumber when].
  rewrite !bind_Normal, Hv.
  rewrite !bool_decide_false by by intros [? ?].
  change (required (orderingRule asc desc nr)) with false.
  change (fixedChildLength (orderingRule asc desc nr)) with false.
  cbn [when]. rewrite !bind_Normal.
  by destruct (processSiblingRules _ _ _ _ _).
Qed.

Lemma callback_orderingRule (formats : Formats) (opts : Options) (fuel : nat)
    (parentKey : string) (asc desc nr : bool) (elems : list value) (i : nat)
    (v : value) (st : ParentStack) :
  elems !! i = Some v →
  is_undefined v = false →
  callback opts (processRule formats opts fuel) parentKey
    [(wildcardRuleName, Single (orderingRule asc desc nr))] true false
    (v, Some wildcardRuleName, Index i) (VArr elems) st
  = (VArr elems,
     processSiblingRules (parentKey +:+ "[" +:+ pretty i +:+ "]")
       (orderingRule asc desc nr) (Some wildcardRuleName) v st).
Proof.
  intros Hi Hv. unfold callback.
  change (assoc (propertyKey (Some wildcardRuleName))
            [(wildcardRuleName, Single (orderingRule asc desc nr))])
    with (Some (Single (orderingRule asc desc nr))).
  cbn [selectConditionalRule].
  change (childKey parentKey true false (Some wildcardRuleName) (Index i))
    with (parentKey +:+ "[" +:+ pretty i +:+ "]").
  rewrite processRule_orderingRule by done.
  unfold writeBack. cbn [replaceChild]. rewrite list_insert_id by done.
  destruct (processSiblingRules _ _ _ _ _) as [st' | e |]; [| done | done].
  rewrite bind_Normal, Hv. cbn [negb andb].
  destruct (opt_convert opts); [| done].
  cbn [assign]. rewrite decide_True by by eapply lookup_lt_Some.
  by rewrite list_insert_id.
Qed.

Lemma processChildRules_only_wildcard (formats : Formats) (opts : Options)
    (fuel : nat) (parentKey : string) (asc desc nr : bool) (elems : list value)
    (s : ParentStack) :
  processChildRules opts (processRule formats opts fuel) parentKey
    [(wildcardRuleName, Single (orderingRule asc desc nr))] (VArr elems) (Some s)
  = match forEach (callback opts (processRule formats opts fuel) parentKey
                     [(wildcardRuleName, Single (orderingRule asc desc nr))]
                     true false)
            (wildcardItems 0 elems) (VArr elems) (push s) with
    | (pv, Normal st) => (pv, Normal (pop st))
    | stopped => stopped
    end.
Proof.
  unfold processChildRules. rewrite iterate_only_wildcard by done.
  cbn [isArray negb andb default keys fmap list_fmap length].
  rewrite andb_false_r. rewrite bool_decide_false by lia.
  by destruct (forEach _ _ _ _) as [pv [st | e |]].
Qed.

(** ** Ordering flags over an array of numbers *)

Lemma ordering_step (key : string) (asc desc nr : bool) (x : Z) (st : ParentStack)
    (p : frame) (prev : option Z) :
  peek 1 st = Some p →
  truthy (info_fixedChildLength p) = false →
  recorded p (Some wildcardRuleName) = VNum <$> prev →
  let r := orderingRule asc desc nr in
  let out := processSiblingRules key r (Some wildcardRuleName) (VNum x) st in
  match prev with
  | Some w =>
      if mayFollow r w x
      then ∃ st' p', out = Normal st' ∧ peek 1 st' = Some p'
             ∧ truthy (info_fixedChildLength p') = false
             ∧ (asc || desc || nr = true →
                recorded p' (Some wildcardRuleName) = Some (VNum x))
      else out = Throw (TrackValidationError key (orderingReason r w x))
  | None =>
      ∃ st' p', out = Normal st' ∧ peek 1 st' = Some p'
        ∧ truthy (info_fixedChildLength p') = false
        ∧ (asc || desc || nr = true →
           recorded p' (Some wildcardRuleName) = Some (VNum x))
  end.
Proof.
  intros Hp Hfixed Hprev r out.
  assert (out = processSortingRules key r (Some wildcardRuleName) (VNum x) st) as ->.
  { subst out. unfold processSiblingRules. by rewrite Hp, Hfixed. }
  pose proof (processSortingRules_plain key r (Some wildcardRuleName) (VNum x) st p Hp
                eq_refl) as H.
  cbv zeta in H. rewrite Hprev in H.
  assert (∀ st' p',
            (if ascending r || descending r || noRepeat r
             then recordedIn p (Some wildcardRuleName) (VNum x) p' else st' = st) →
            peek 1 st' = Some p' →
            truthy (info_fixedChildLength p') = false
            ∧ (asc || desc || nr = true →
               recorded p' (Some wildcardRuleName) = Some (VNum x))) as Hrec.
  { intros st' p' Hif Hp'. subst r. cbn [orderingRule ascending descending noRepeat] in Hif.
    destruct (asc || desc || nr).
    - split; [| intros _; by eapply recordedIn_recorded].
      destruct Hif as (_ & Hfx). by rewrite Hfx.
    - subst st'. split; [| done]. congruence. }
  destruct prev as [w |];
    cbn [fmap option_fmap option_map default from_option id is_undefined negb andb] in H.
  - unfold js_gt in H. rewrite !js_lt_numbers in H.
    cbn [strict_eq] in H. unfold mayFollow, orderingReason.
    destruct (ascending r), (descending r), (noRepeat r);
      cbn [negb andb orb] in *;
      destruct (x <? w) eqn:E1, (w <? x) eqn:E2, (w =? x) eqn:E3;
      try lia; cbn [negb andb orb] in *;
      repeat match goal with
             | |- context [?a <=? ?b] =>
                 first [rewrite (proj2 (Z.leb_le a b)) by lia
                       | rewrite (proj2 (Z.leb_gt a b)) by lia]
             end;
      cbn [negb andb orb]; try done;
      destruct H as (st' & p' & -> & Hp' & Hif); exists st', p';
      (split; [done |]); (split; [done |]); by eapply Hrec.
  - rewrite !andb_false_r in H. destruct H as (st' & p' & -> & Hp' & Hif).
    exists st', p'. split; [done |]. split; [done |]. by eapply Hrec.
Qed.

Lemma ordering_loop (formats : Formats) (opts : Options) (fuel : nat)
    (parentKey : string) (asc desc nr : bool) (l : list Z) :
  asc || desc || nr = true →
  let r := orderingRule asc desc nr in
  ∀ (xs : list Z) (k : nat) (st : ParentStack) (p : frame) (prev : option Z),
    (∀ i x, xs !! i = Some x → l !! (k + i)%nat = Some x) →
    peek 1 st = Some p →
    truthy (info_fixedChildLength p) = false →
    recorded p (Some wildcardRuleName) = VNum <$> prev →
    (∀ w x, prev = Some w → xs !! 0%nat = Some x → mayFollow r w x = true) →
    (∀ i x y, xs !! i = Some x → xs !! S i = Some y → mayFollow r x y = true) →
    ∃ st' p',
      forEach (callback opts (processRule formats opts fuel) parentKey
                 [(wildcardRuleName, Single r)] true false)
        (wildcardItems k (VNum <$> xs)) (VArr (VNum <$> l)) st
      = (VArr (VNum <$> l), Normal st')
      ∧ peek 1 st' = Some p'
      ∧ truthy (info_fixedChildLength p') = false
      ∧ recorded p' (Some wildcardRuleName)
        = VNum <$> foldl (λ _ x, Some x) prev xs.
Proof.
  intros Hflags r.
  induction xs as [| x xs IH]; intros k st p prev Hl Hp Hfixed Hprev Hhead Hpairs.
  - exists st, p. by split_and!.
  - rewrite fmap_cons, wildcardItems_cons. cbn [forEach].
    subst r. rewrite callback_orderingRule; [| | done].
    2:{ rewrite list_lookup_fmap, <- (Nat.add_0_r k), (Hl 0%nat x); done. }
    pose proof (ordering_step (parentKey +:+ "[" +:+ pretty k +:+ "]") asc desc nr
                  x st p prev Hp Hfixed Hprev) as Hstep.
    cbv zeta in Hstep.
    assert (∃ st1 p1,
              processSiblingRules (parentKey +:+ "[" +:+ pretty k +:+ "]")
                (orderingRule asc desc nr) (Some wildcardRuleName) (VNum x) st
              = Normal st1
              ∧ peek 1 st1 = Some p1
              ∧ truthy (info_fixedChildLength p1) = false
              ∧ recorded p1 (Some wildcardRuleName) = Some (VNum x))
      as (st1 & p1 & -> & Hp1 & Hfixed1 & Hprev1).
    { destruct prev as [w |].
      - rewrite (Hhead w x) in Hstep by done.
        destruct Hstep as (st1 & p1 & ? & ? & ? & Hrec). exists st1, p1. auto.
      - destruct Hstep as (st1 & p1 & ? & ? & ? & Hrec). exists st1, p1. auto. }
    apply (IH (S k) st1 p1 (Some x)); try done.
    + intros i y Hy. replace (S k + i)%nat with (k + S i)%nat by lia. by apply Hl.
    + intros w y [= <-] Hy. by apply (Hpairs 0%nat).
    + intros i y z Hy Hz. by apply (Hpairs (S i)).
Qed.

(** X12. An array of numbers under a lone wildcard rule that carries
    ordering flags, in a container whose frame records no earlier value for
    the rule and is not sealed by a [fixedChildLength] rule (its
    [fixedChildLength] field is falsy): when each number may follow the one
    before it under the flags,
    the level completes and the array is as it was; otherwise the level
    fails at the first number that may not follow its predecessor, with that
    number's index in the key and the reason of the first flag it breaks, in
    the order ascending, descending, noRepeat. *)
Theorem ordering_flags_over_numbers (formats : Formats) (opts : Options)
    (fuel : nat) (parentKey : string) (asc desc nr : bool) (l : list Z)
    (s : ParentStack) (own : frame) :
  asc || desc || nr = true →
  peek 0 s = Some own →
  truthy (info_fixedChildLength own) = false →
  recorded own (Some wildcardRuleName) = None →
  let r := orderingRule asc desc nr in
  let run :=
    processChildRules opts (processRule formats opts fuel) parentKey
      [(wildcardRuleName, Single r)] (VArr (VNum <$> l)) (Some s) in
  ((∀ i x y, l !! i = Some x → l !! S i = Some y → mayFollow r x y = true) →
   ∃ s', run = (VArr (VNum <$> l), Normal s'))
  ∧ (∀ i x y, l !! i = Some x → l !! S i = Some y →
       mayFollow r x y = false →
       (∀ j x' y', (j < i)%nat → l !! j = Some x' → l !! S j = Some y' →
                   mayFollow r x' y' = true) →
       run = (VArr (VNum <$> l),
              Throw (TrackValidationError (parentKey +:+ "[" +:+ pretty (S i) +:+ "]")
                       (orderingReason r x y)))).
Proof.
  intros Hflags Hown Hfixed Hprev r run. subst run r.
  rewrite processChildRules_only_wildcard.
  assert (peek 1 (push s) = Some own) as Hp by by rewrite peek_push.
  split.
  - intros Hpairs.
    destruct (ordering_loop formats opts fuel parentKey asc desc nr l Hflags
                l 0%nat (push s) own None) as (st' & p' & -> & _); try done.
    by eexists.
  - intros i x y Hx Hy Hbad Hbefore.
    assert (l = (take i l ++ [x]) ++ y :: drop (S (S i)) l) as Hsplit.
    { rewrite <- app_assoc. cbn [app]. rewrite <- (drop_S l y (S i)) by done.
      by rewrite take_drop_middle. }
    assert (length (take i l) = i) as Hlen.
    { rewrite length_take. apply lookup_lt_Some in Hx. lia. }
    assert (wildcardItems 0 (VNum <$> l)
            = wildcardItems 0 (VNum <$> (take i l ++ [x]))
              ++ wildcardItems (S i) (VNum <$> (y :: drop (S (S i)) l))) as ->.
    { rewrite Hsplit at 1. rewrite fmap_app, wildcardItems_app. do 2 f_equal.
      rewrite length_fmap, length_app, Hlen. simpl. lia. }
    rewrite forEach_app.
    destruct (ordering_loop formats opts fuel parentKey asc desc nr l Hflags
                (take i l ++ [x]) 0%nat (push s) own None)
      as (st' & p' & -> & Hp' & Hfixed' & Hprev'); try done.
    { intros j z Hz. simpl. rewrite Hsplit. by apply lookup_app_l_Some. }
    { intros j z z' Hz Hz'.
      assert (j < i)%nat as Hj.
      { apply lookup_lt_Some in Hz'. rewrite length_app, Hlen in Hz'. simpl in Hz'. lia. }
      apply (Hbefore j); [done | |].
      - rewrite Hsplit. by apply lookup_app_l_Some.
      - rewrite Hsplit. by apply lookup_app_l_Some. }
    rewrite foldl_app in Hprev'. cbn [foldl from_option] in Hprev'.
    rewrite fmap_cons, wildcardItems_cons. cbn [forEach].
    rewrite callback_orderingRule; [| by rewrite list_lookup_fmap, Hy | done].
    pose proof (ordering_step (parentKey +:+ "[" +:+ pretty (S i) +:+ "]") asc desc nr
                  y st' p' (Some x) Hp' Hfixed' Hprev') as Hstep.
    cbv beta iota zeta in Hstep. rewrite Hbad in Hstep. by rewrite Hstep.
Qed.

(** The hypotheses of X12 hold for [1, 3, 3, 2] under ascending and noRepeat
    on a fresh frame: the second 3 repeats the first. *)
Lemma ordering_flags_over_numbers_witness :
  processChildRules defaultOptions (processRule sample.formats defaultOptions 0) "a"
    [(wildcardRuleName, Single (orderingRule true false true))]
    (VArr (VNum <$> [1; 3; 3; 2])) (Some [emptyFrame])
  = (VArr (VNum <$> [1; 3; 3; 2]),
     Throw (TrackValidationError "a[2]" RepeatsPreviousSibling)).
Proof.
  apply (proj2 (ordering_flags_over_numbers sample.formats defaultOptions 0 "a"
                  true false true [1; 3; 3; 2] [emptyFrame] emptyFrame
                  eq_refl eq_refl eq_refl eq_refl) 1%nat 3 3); try reflexivity.
  intros [| j] x' y' Hj; [| lia]. by intros [= <-] [= <-].
Defined.

(** ** Lengths of sibling arrays under a flagged container *)

Lemma fixed_step (key : string) (elems : list value) (st : ParentStack) (p : frame) :
  peek 1 st = Some p →
  processSiblingRules key (orderingRule false false false) (Some wildcardRuleName)
    (VArr elems) st
  = let len := VNum (Z.of_nat (length elems)) in
    let baseline := info_fixedChildLength p in
    if truthy baseline then
      if strict_eq baseline (VNum (-1))
      then Normal (poke 1 (Frame len (info_prevChildValues p)) st)
      else if strict_eq baseline len then Normal st
      else Throw (TrackValidationError key (DifferentLength len baseline))
    else Normal st.
Proof.
  intros Hp. pose proof (peek_Some_lt _ _ _ Hp) as Hlen.
  unfold processSiblingRules. rewrite Hp. cbn [get_length]. cbv zeta.
  assert (∀ st', (1 < length st')%nat →
            processSortingRules key (orderingRule false false false)
              (Some wildcardRuleName) (VArr elems) st' = Normal st') as Hsort.
  { intros st' Hst'. unfold processSortingRules, peek. rewrite decide_True by done.
    destruct (lookup_lt_is_Some_2 st' (length st' - 1 - 1)) as [f ->]; [lia | done]. }
  destruct (truthy (info_fixedChildLength p)); [| by rewrite bind_Normal, Hsort].
  rewrite bind_Normal.
  destruct (strict_eq (info_fixedChildLength p) (VNum (-1))).
  - rewrite bind_Normal, Hsort; [done | by rewrite length_poke].
  - destruct (strict_eq (info_fixedChildLength p) _); cbn [negb]; [| done].
    by rewrite bind_Normal, Hsort.
Qed.

Lemma fixed_loop (formats : Formats) (opts : Options) (fuel : nat)
    (parentKey : string) (ls : list (list value)) (n : Z) :
  n ≠ -1 →
  ∀ (xs : list (list value)) (k : nat) (st : ParentStack) (p : frame),
    (∀ i x, xs !! i = Some x → ls !! (k + i)%nat = Some x) →
    peek 1 st = Some p →
    info_fixedChildLength p = VNum n →
    (n = 0 ∨ ∀ x, x ∈ xs → Z.of_nat (length x) = n) →
    forEach (callback opts (processRule formats opts fuel) parentKey
               [(wildcardRuleName, Single (orderingRule false false false))]
               true false)
      (wildcardItems k (VArr <$> xs)) (VArr (VArr <$> ls)) st
    = (VArr (VArr <$> ls), Normal st).
Proof.
  intros Hn. induction xs as [| x xs IH]; intros k st p Hls Hp Hfixed Hsame; [done |].
  rewrite fmap_cons, wildcardItems_cons. cbn [forEach].
  rewrite callback_orderingRule; [| | done].
  2:{ rewrite list_lookup_fmap, <- (Nat.add_0_r k), (Hls 0%nat x); done. }
  rewrite (fixed_step _ _ _ p) by done. cbv zeta. rewrite Hfixed.
  cbn [truthy strict_eq].
  assert ((if negb (n =? 0)
           then if n =? -1
                then Normal (poke 1 (Frame (VNum (Z.of_nat (length x)))
                                       (info_prevChildValues p)) st)
                else if n =? Z.of_nat (length x) then Normal st
                else Throw (TrackValidationError
                              (parentKey +:+ "[" +:+ pretty k +:+ "]")
                              (DifferentLength (VNum (Z.of_nat (length x))) (VNum n)))
           else Normal st) = Normal st) as ->.
  { destruct (n =? 0) eqn:E0; [done |]. cbn [negb].
    rewrite (proj2 (Z.eqb_neq n (-1))) by done.
    destruct Hsame as [-> | Hsame]; [done |].
    rewrite (Hsame x) by (apply elem_of_cons; by left). by rewrite Z.eqb_refl. }
  apply (IH (S k) st p); try done.
  - intros i y Hy. replace (S k + i)%nat with (k + S i)%nat by lia. by apply Hls.
  - destruct Hsame as [? | Hsame]; [by left | right].
    intros y Hy. apply Hsame, elem_of_cons. by right.
Qed.

(** X13. An array of arrays under a lone wildcard rule without constraints, in
    a container whose frame has just been flagged for [fixedChildLength]: the
    first child sets the baseline; when it is empty, or every later child is
    as long as it, the level completes; otherwise the level fails at the
    first child of another length, reporting that length against the
    baseline.  An empty first child switches the check off: its length 0 is
    stored as the baseline and reads as no baseline at all. *)
Theorem fixedChildLength_over_arrays (formats : Formats) (opts : Options)
    (fuel : nat) (parentKey : string) (ls : list (list value)) (s : ParentStack)
    (own : frame) :
  peek 0 s = Some own →
  info_fixedChildLength own = VNum (-1) →
  let run :=
    processChildRules opts (processRule formats opts fuel) parentKey
      [(wildcardRuleName, Single emptyRule)] (VArr (VArr <$> ls)) (Some s) in
  (match ls with
   | [] => True
   | first :: rest => first = [] ∨ ∀ x, x ∈ rest → length x = length first
   end →
   ∃ s', run = (VArr (VArr <$> ls), Normal s'))
  ∧ (∀ first pre bad post,
       ls = first :: pre ++ bad :: post →
       first ≠ [] →
       (∀ x, x ∈ pre → length x = length first) →
       length bad ≠ length first →
       run = (VArr (VArr <$> ls),
              Throw (TrackValidationError
                       (parentKey +:+ "[" +:+ pretty (S (length pre)) +:+ "]")
                       (DifferentLength (VNum (Z.of_nat (length bad)))
                                        (VNum (Z.of_nat (length first))))))).
Proof.
  intros Hown Hfixed run. subst run.
  change emptyRule with (orderingRule false false false).
  rewrite processChildRules_only_wildcard.
  assert (peek 1 (push s) = Some own) as Hp by by rewrite peek_push.
  pose proof (peek_Some_lt _ _ _ Hp) as Hlen.
  assert (∀ first rest, ls = first :: rest →
            ∃ st p,
              forEach (callback opts (processRule formats opts fuel) parentKey
                         [(wildcardRuleName, Single (orderingRule false false false))]
                         true false)
                (wildcardItems 0 (VArr <$> ls)) (VArr (VArr <$> ls)) (push s)
              = forEach (callback opts (processRule formats opts fuel) parentKey
                           [(wildcardRuleName, Single (orderingRule false false false))]
                           true false)
                  (wildcardItems 1 (VArr <$> rest)) (VArr (VArr <$> ls)) st
              ∧ peek 1 st = Some p
              ∧ info_fixedChildLength p = VNum (Z.of_nat (length first))) as Hfirst.
  { intros first rest Hls.
    exists (poke 1 (Frame (VNum (Z.of_nat (length first))) (info_prevChildValues own))
                 (push s)), (Frame (VNum (Z.of_nat (length first)))
                                   (info_prevChildValues own)).
    split; [| split; [by apply peek_poke_eq | done]].
    rewrite Hls at 1. rewrite fmap_cons, wildcardItems_cons. cbn [forEach].
    rewrite callback_orderingRule; [| by rewrite Hls | done].
    rewrite (fixed_step _ _ _ own) by done. cbv zeta. by rewrite Hfixed. }
  split.
  - destruct ls as [| first rest]; [by eexists |]. intros Hsame.
    destruct (Hfirst first rest eq_refl) as (st & p & -> & Hp' & Hfixed').
    rewrite (fixed_loop formats opts fuel parentKey (first :: rest)
               (Z.of_nat (length first)) ltac:(lia) rest 1 st p); try done.
    + by eexists.
    + destruct Hsame as [-> | Hsame]; [by left | right].
      intros x Hx. by rewrite Hsame.
  - intros first pre bad post Hls Hne Hpre Hbad.
    destruct (Hfirst first (pre ++ bad :: post) Hls) as (st & p & -> & Hp' & Hfixed').
    rewrite fmap_app, wildcardItems_app, forEach_app.
    rewrite (fixed_loop formats opts fuel parentKey ls
               (Z.of_nat (length first)) ltac:(lia) pre 1 st p); try done.
    + rewrite fmap_cons, wildcardItems_cons, length_fmap. cbn [forEach].
      rewrite callback_orderingRule; [| | done].
      2:{ rewrite Hls, list_lookup_fmap. simpl.
          by rewrite list_lookup_middle. }
      rewrite (fixed_step _ _ _ p) by done. cbv zeta. rewrite Hfixed'.
      cbn [truthy strict_eq].
      rewrite (proj2 (Z.eqb_neq (Z.of_nat (length first)) 0))
        by (destruct first; [done | simpl; lia]).
      cbn [negb].
      rewrite (proj2 (Z.eqb_neq (Z.of_nat (length first)) (-1))) by lia.
      rewrite (proj2 (Z.eqb_neq (Z.of_nat (length first)) (Z.of_nat (length bad))))
        by lia.
      done.
    + intros i x Hx. rewrite Hls. simpl. by apply lookup_app_l_Some.
    + right. intros x Hx. by rewrite Hpre.
Qed.

(** The hypotheses of X13 hold for three arrays of lengths 2, 2 and 1 on a
    frame just flagged. *)
Lemma fixedChildLength_over_arrays_witness :
  processChildRules defaultOptions (processRule sample.formats defaultOptions 0) "c"
    [(wildcardRuleName, Single emptyRule)]
    (VArr (VArr <$> [[VNum 1; VNum 2]; [VNum 3; VNum 4]; [VNum 5]]))
    (Some [Frame (VNum (-1)) None])
  = (VArr (VArr <$> [[VNum 1; VNum 2]; [VNum 3; VNum 4]; [VNum 5]]),
     Throw (TrackValidationError "c[2]" (DifferentLength (VNum 1) (VNum 2)))).
Proof.
  apply (proj2 (fixedChildLength_over_arrays sample.formats defaultOptions 0 "c"
                  [[VNum 1; VNum 2]; [VNum 3; VNum 4]; [VNum 5]]
                  [Frame (VNum (-1)) None] (Frame (VNum (-1)) None)
                  eq_refl eq_refl)
           [VNum 1; VNum 2] [[VNum 3; VNum 4]] [VNum 5] []); try done.
  by intros x ->%list_elem_of_singleton.
Defined.

(** ** Falsy constraint values *)

Lemma truthyNumber_Some (c : option Z) (n : Z) : truthyNumber c = Some n → c = Some n.
Proof. destruct c as [m |]; [| done]. simpl. by destruct (m =? 0). Qed.

Lemma truthyString_Some (c : option string) (f : string) :
  truthyString c = Some f → c = Some f.
Proof. destruct c as [g |]; [| done]. simpl. by destruct (String.eqb g ""). Qed.

Lemma truthyNumber_idem (c : option Z) : truthyNumber (truthyNumber c) = truthyNumber c.
Proof.
  destruct c as [n |]; [| done]. simpl.
  destruct (n =? 0) eqn:E; [done |]. simpl. by rewrite E.
Qed.

Lemma truthyString_idem (c : option string) :
  truthyString (truthyString c) = truthyString c.
Proof.
  destruct c as [f |]; [| done]. simpl.
  destruct (String.eqb f "") eqn:E; [done |]. simpl. by rewrite E.
Qed.

Lemma processRuleChecks_dropFalsy (formats : Formats) (opts : Options)
    (key : string) (r : rule) (ruleName : option string) (v : value)
    (s : ParentStack) :
  processRuleChecks formats opts key (Some (dropFalsy r)) ruleName v s
  = processRuleChecks formats opts key (Some r) ruleName v s
    ≫= λ res, Normal (match res with
                      | Some (r', cv, s') => Some (dropFalsy r', cv, s')
                      | None => None
                      end).
Proof.
  unfold processRuleChecks. rewrite !bind_Normal.
  change (required (dropFalsy r)) with (required r).
  change (format (dropFalsy r)) with (truthyString (format r)).
  change (allowedValues (dropFalsy r)) with (allowedValues r).
  change (range (dropFalsy r)) with (range r).
  change (minLength (dropFalsy r)) with (truthyNumber (minLength r)).
  change (maxLength (dropFalsy r)) with (truthyNumber (maxLength r)).
  change (rule_length (dropFalsy r)) with (truthyNumber (rule_length r)).
  change (fixedChildLength (dropFalsy r)) with (fixedChildLength r).
  change (isRequired (dropFalsy r)) with (isRequired r).
  change (isAllowedValue (dropFalsy r)) with (isAllowedValue r).
  change (isInRange (dropFalsy r)) with (isInRange r).
  change (processSiblingRules key (dropFalsy r))
    with (processSiblingRules key r).
  rewrite truthyString_idem, !truthyNumber_idem.
  assert ((if bool_decide (is_Some (truthyString (format r)))
           then isCorrectFormat formats opts (dropFalsy r) v key else Normal None)
          = (if bool_decide (is_Some (truthyString (format r)))
             then isCorrectFormat formats opts r v key else Normal None)) as ->.
  { case_bool_decide as E; [| done]. destruct E as [f E]. unfold isCorrectFormat.
    change (format (dropFalsy r)) with (truthyString (format r)).
    by rewrite E, (truthyString_Some _ _ E). }
  assert (when (bool_decide (is_Some (truthyNumber (minLength r))))
               (isMinLength (dropFalsy r) v key)
          = when (bool_decide (is_Some (truthyNumber (minLength r))))
                 (isMinLength r v key)) as ->.
  { case_bool_decide as E; [| done]. destruct E as [n E]. unfold isMinLength.
    change (minLength (dropFalsy r)) with (truthyNumber (minLength r)).
    by rewrite E, (truthyNumber_Some _ _ E). }
  assert (when (bool_decide (is_Some (truthyNumber (maxLength r))))
               (isMaxLength (dropFalsy r) v key)
          = when (bool_decide (is_Some (truthyNumber (maxLength r))))
                 (isMaxLength r v key)) as ->.
  { case_bool_decide as E; [| done]. destruct E as [n E]. unfold isMaxLength.
    change (maxLength (dropFalsy r)) with (truthyNumber (maxLength r)).
    by rewrite E, (truthyNumber_Some _ _ E). }
  assert (when (bool_decide (is_Some (truthyNumber (rule_length r))))
               (isLength (dropFalsy r) v key)
          = when (bool_decide (is_Some (truthyNumber (rule_length r))))
                 (isLength r v key)) as ->.
  { case_bool_decide as E; [| done]. destruct E as [n E]. unfold isLength.
    change (rule_length (dropFalsy r)) with (truthyNumber (rule_length r)).
    by rewrite E, (truthyNumber_Some _ _ E). }
  destruct (when (required r) _); [| done | done]. rewrite !bind_Normal.
  destruct (is_undefined v); [done |].
  destruct (if bool_decide _ then _ else _) as [cv | |]; [| done | done].
  rewrite !bind_Normal.
  destruct (when (bool_decide (is_Some (allowedValues r))) _); [| done | done].
  rewrite !bind_Normal.
  destruct (when (bool_decide (is_Some (range r))) _); [| done | done].
  rewrite !bind_Normal.
  destruct (when (bool_decide (is_Some (truthyNumber (minLength r)))) _);
    [| done | done].
  rewrite !bind_Normal.
  destruct (when (bool_decide (is_Some (truthyNumber (maxLength r)))) _);
    [| done | done].
  rewrite !bind_Normal.
  destruct (when (bool_decide (is_Some (truthyNumber (rule_length r)))) _);
    [| done | done].
  rewrite !bind_Normal.
  destruct (if fixedChildLength r then _ else _) as [s1 | |]; [| done | done].
  rewrite !bind_Normal.
  by destruct (processSiblingRules key r ruleName v s1).
Qed.

(** X14. A constraint whose value is falsy is not a constraint: a rule with
    [minLength], [maxLength] or [length] of 0, or with the empty string as
    [format], is processed exactly as the rule without that property, on
    every value and stack. *)
Theorem falsy_constraints_are_ignored (formats : Formats) (opts : Options)
    (fuel : nat) (key : string) (r : rule) (ruleName : option string) (v : value)
    (s : ParentStack) :
  processRule formats opts fuel key (Some (dropFalsy r)) ruleName v s
  = processRule formats opts fuel key (Some r) ruleName v s.
Proof.
  rewrite !processRule_unfold, processRuleChecks_dropFalsy.
  by destruct (processRuleChecks _ _ _ (Some r) _ _ _) as [[[[r' cv] s1] |] | e |].
Qed.

(** ** Each position once *)

Lemma mapM_fmap {A B C} (f : A → completion B) (g : B → C) (h : A → C)
    (l : list A) (ys : list B) :
  (∀ x y, f x = Normal y → g y = h x) →
  mapM f l = Normal ys → g <$> ys = h <$> l.
Proof.
  intros Hf. revert ys. induction l as [| x l IH]; intros ys; simpl.
  - by intros [= <-].
  - intros (y & Hy & (ys' & Hys & [= <-])%bind_Normal_inv)%bind_Normal_inv.
    rewrite fmap_cons. f_equal; [by apply Hf | by apply IH].
Qed.

Lemma NoDup_List_filter {A} (p : A → bool) (l : list A) :
  NoDup l → NoDup (List.filter p l).
Proof.
  induction 1 as [| x l Hx _ IH]; simpl; [constructor |].
  destruct (p x); [| done]. constructor; [| done].
  intros Hin. apply Hx. apply list_elem_of_In in Hin.
  apply filter_In in Hin as [Hin _]. by apply list_elem_of_In.
Qed.

Lemma keys_indexProps (k : nat) (l : list value) :
  keys (indexProps k l) = pretty <$> seq k (length l).
Proof.
  revert k. induction l as [| v l IH]; intros k; [done |].
  simpl. unfold keys in *. simpl. by rewrite IH.
Qed.

Lemma keys_charProps (k : nat) (s : string) :
  keys (charProps k s) = pretty <$> seq k (String.length s).
Proof.
  revert k. induction s as [| c s IH]; intros k; [done |].
  simpl. unfold keys in *. simpl. by rewrite IH.
Qed.

Lemma ownProps_NoDup (pv : value) (props : list (string * value)) :
  match pv with VObj fields => NoDup (keys fields) | _ => True end →
  ownProps pv = Normal props → NoDup (keys props).
Proof.
  destruct pv as [| | b | n | str | l | f]; simpl; try done.
  - intros _ [= <-]. constructor.
  - intros _ [= <-]. constructor.
  - intros _ [= <-]. rewrite keys_charProps.
    apply (NoDup_fmap_2 _), NoDup_seq.
  - intros _ [= <-]. rewrite keys_indexProps.
    apply (NoDup_fmap_2 _), NoDup_seq.
  - by intros H [= <-].
Qed.

(** X15. No strategy visits a position twice: whatever the parent value and
    the Rule Map, the positions of the calls the selected strategy makes are
    pairwise different.  In particular a key that a named rule covers is not
    visited again under the wildcard rule. *)
Theorem iterate_positions_distinct (parentValue : value) (rules : ruleMap)
    (items : list item) :
  NoDup (keys rules) →
  match parentValue with VObj fields => NoDup (keys fields) | _ => True end →
  iterate parentValue rules = Normal items →
  NoDup (snd <$> items).
Proof.
  intros Hrules Hfields.
  assert (Inj (=) (=) Name) as HName by (by intros ?? [= ]).
  assert (Inj (=) (=) Index) as HIndex by (by intros ?? [= ]).
  assert (∀ obj, match obj with VObj fields => NoDup (keys fields) | _ => True end →
            (if hasOwnProperty rules wildcardRuleName
             then iterateObjectWithRulesWildcard obj rules
             else iterateObjectWithRules obj rules) = Normal items →
            NoDup (snd <$> items)) as Hobj.
  { intros obj Hobj. destruct (hasOwnProperty rules wildcardRuleName).
    - unfold iterateObjectWithRulesWildcard.
      intros (props & Hprops & Hitems)%bind_Normal_inv.
      apply (mapM_fmap _ snd Name) in Hitems as ->;
        [| by intros name y (w & _ & [= <-])%bind_Normal_inv].
      apply (NoDup_fmap_2 _), NoDup_app. split_and!.
      + by apply NoDup_List_filter.
      + intros name Hin Hin'. apply list_elem_of_In, filter_In in Hin' as [_ Hin'].
        apply Z.eqb_eq, indexOf_absent in Hin'. done.
      + apply NoDup_List_filter. by eapply ownProps_NoDup.
    - unfold iterateObjectWithRules. intros Hitems.
      apply (mapM_fmap _ snd Name) in Hitems as ->;
        [| by intros name y (w & _ & [= <-])%bind_Normal_inv].
      by apply (NoDup_fmap_2 _). }
  unfold iterate.
  destruct parentValue as [| | b | n | str | l | f]; try by apply Hobj.
  destruct (hasOwnProperty rules wildcardRuleName).
  - unfold iterateArrayWithRulesWildcard.
    destruct (assoc wildcardRuleName rules); [| done]. intros [= <-].
    rewrite <- list_fmap_compose. apply (NoDup_fmap_2 Index), NoDup_seq.
  - unfold iterateArrayWithRules. intros [= <-].
    rewrite <- list_fmap_compose. apply (NoDup_fmap_2 Index), NoDup_seq.
Qed.

(** The hypotheses of X15 hold for an object with two keys under a named
    rule and the wildcard. *)
Lemma iterate_positions_distinct_witness :
  NoDup (snd <$> [(VNum 2, Some "a", Name "a"); (VNum 1, Some "*", Name "x")]).
Proof.
  apply (iterate_positions_distinct (VObj [("x", VNum 1); ("a", VNum 2)])
           [("a", Single emptyRule); ("*", Single emptyRule)]).
  - by apply (bool_decide_unpack _).
  - by apply (bool_decide_unpack _).
  - reflexivity.
Defined.

(** ** Constraints of a leaf rule *)

Lemma js_gt_numbers (a b : Z) : js_gt (VNum a) (VNum b) = (b <? a).
Proof. unfold js_gt. apply js_lt_numbers. Qed.

Lemma when_truthyNumber (c : option Z) (body : Z → completion unit) :
  when (bool_decide (is_Some (truthyNumber c))) (body (default 0 c))
  = from_option body (Normal ()) (truthyNumber c).
Proof.
  destruct (truthyNumber c) as [n |] eqn:E.
  - apply truthyNumber_Some in E as ->. by rewrite bool_decide_true by eauto.
  - by rewrite bool_decide_false by by intros [? ?].
Qed.

(** X16. The length constraints on a value whose [length] is the number
    [n], a string or an array: [minLength] and [maxLength] are inclusive
    bounds, [length] is the exact length, a bound of 0 is not checked, and the
    checks run in the order minLength, maxLength, length, before anything is
    recorded about siblings; a value that passes goes on to the sibling
    checks unchanged. *)
Theorem length_constraints (formats : Formats) (opts : Options) (fuel : nat)
    (key : string) (min max len : option Z) (ruleName : option string)
    (v : value) (n : Z) (s : ParentStack) :
  get_length v = Normal (VNum n) →
  let r := lengthRule min max len in
  processRule formats opts fuel key (Some r) ruleName v s
  = (v,
     if from_option (λ a, n <? a) false (truthyNumber min)
     then Throw (TrackValidationError key (MinLengthNotReached (default 0 min) (VNum n)))
     else if from_option (λ b, b <? n) false (truthyNumber max)
     then Throw (TrackValidationError key (MaxLengthExceeded (default 0 max) (VNum n)))
     else if from_option (λ c, negb (n =? c)) false (truthyNumber len)
     then Throw (TrackValidationError key (WrongLength (default 0 len) (VNum n)))
     else processSiblingRules key r ruleName v s ≫= λ s', Normal (v, s')).
Proof.
  intros Hlen r. subst r.
  assert (is_undefined v = false) as Hv by by destruct v.
  rewrite processRule_unfold. unfold processRuleChecks. rewrite bind_Normal.
  unfold isMinLength, isMaxLength, isLength.
  change (required (lengthRule min max len)) with false.
  change (format (lengthRule min max len)) with (@None string).
  change (allowedValues (lengthRule min max len)) with (@None (list value)).
  change (range (lengthRule min max len)) with (@None (list value)).
  change (minLength (lengthRule min max len)) with min.
  change (maxLength (lengthRule min max len)) with max.
  change (rule_length (lengthRule min max len)) with len.
  change (fixedChildLength (lengthRule min max len)) with false.
  cbn [truthyString when]. rewrite ?bind_Normal, Hv.
  rewrite ?(bool_decide_false (is_Some None)) by by intros [? ?].
  cbn [when]. rewrite ?bind_Normal.
  rewrite Hlen, ?bind_Normal, js_lt_numbers, js_gt_numbers. cbn [strict_eq].
  rewrite (when_truthyNumber min
             (λ a, if n <? a
                   then Throw (TrackValidationError key (MinLengthNotReached a (VNum n)))
                   else Normal ())).
  rewrite (when_truthyNumber max
             (λ b, if b <? n
                   then Throw (TrackValidationError key (MaxLengthExceeded b (VNum n)))
                   else Normal ())).
  rewrite (when_truthyNumber len
             (λ c, if negb (n =? c)
                   then Throw (TrackValidationError key (WrongLength c (VNum n)))
                   else Normal ())).
  destruct (truthyNumber min) as [a |] eqn:Ea;
    [apply truthyNumber_Some in Ea as -> |];
    cbn [from_option default]; [destruct (n <? a); [done |] |];
    rewrite bind_Normal;
    (destruct (truthyNumber max) as [b |] eqn:Eb;
     [apply truthyNumber_Some in Eb as -> |];
     cbn [from_option default]; [destruct (b <? n); [done |] |];
     rewrite bind_Normal;
     (destruct (truthyNumber len) as [c |] eqn:Ec;
      [apply truthyNumber_Some in Ec as -> |];
      cbn [from_option default]; [destruct (n =? c); cbn [negb]; [| done] |];
      rewrite !bind_Normal;
      by destruct (processSiblingRules _ _ _ _ _))).
Qed.

(** The hypothesis of X16 holds for a string of four characters under
    [{minLength: 2, maxLength: 3}]. *)
Lemma length_constraints_witness :
  processRule sample.formats defaultOptions 0 "name"
    (Some (lengthRule (Some 2) (Some 3) None)) (Some "name") (VStr "abcd")
    [emptyFrame]
  = (VStr "abcd",
     Throw (TrackValidationError "name" (MaxLengthExceeded 3 (VNum 4)))).
Proof.
  apply (length_constraints sample.formats defaultOptions 0 "name"
           (Some 2) (Some 3) None (Some "name") (VStr "abcd") 4 [emptyFrame]).
  reflexivity.
Defined.

Lemma arrayContains_number (n : Z) (allowed : list value) :
  arrayContains (VNum n) allowed = true ↔ VNum n ∈ allowed.
Proof.
  unfold arrayContains. induction allowed as [| a allowed IH].
  - split; [done | by intros ?%elem_of_nil].
  - cbn [existsb]. rewrite orb_true_iff, IH, elem_of_cons.
    split; (intros [H | H]; [left | by right]).
    + by apply strict_eq_eq in H.
    + subst a. cbn [strict_eq]. apply Z.eqb_refl.
Qed.

(** X17. A number under [{allowedValues, range: [lo, hi]}]: when the list of
    allowed values is given and the number is not in it, an empty list
    allowing nothing, the rule fails on that, whatever the range; otherwise
    the number must lie between the bounds, both included, and then goes on
    to the sibling checks unchanged. *)
Theorem number_constraints (formats : Formats) (opts : Options) (fuel : nat)
    (key : string) (allowed : option (list value)) (lo hi : Z)
    (ruleName : option string) (n : Z) (s : ParentStack) :
  let r := numberRule allowed lo hi in
  let run := processRule formats opts fuel key (Some r) ruleName (VNum n) s in
  (∀ l, allowed = Some l → VNum n ∉ l →
     run = (VNum n, Throw (TrackValidationError key (NotInAllowedValues (VNum n) l))))
  ∧ ((∀ l, allowed = Some l → VNum n ∈ l) →
     run = (VNum n,
            if (n <? lo) || (hi <? n)
            then Throw (TrackValidationError key
                          (OutOfRange (VNum n) (VNum lo) (VNum hi)))
            else processSiblingRules key r ruleName (VNum n) s
                 ≫= λ s', Normal (VNum n, s'))).
Proof.
  intros r run. subst r run.
  rewrite processRule_unfold. unfold processRuleChecks. rewrite bind_Normal.
  unfold isAllowedValue, isInRange.
  change (required (numberRule allowed lo hi)) with false.
  change (format (numberRule allowed lo hi)) with (@None string).
  change (allowedValues (numberRule allowed lo hi)) with allowed.
  change (range (numberRule allowed lo hi)) with (Some [VNum lo; VNum hi]).
  change (minLength (numberRule allowed lo hi)) with (@None Z).
  change (maxLength (numberRule allowed lo hi)) with (@None Z).
  change (rule_length (numberRule allowed lo hi)) with (@None Z).
  change (fixedChildLength (numberRule allowed lo hi)) with false.
  cbn [truthyString truthyNumber when is_undefined].
  change (default [] (Some [VNum lo; VNum hi])) with [VNum lo; VNum hi].
  change (nth_value [VNum lo; VNum hi] 0) with (VNum lo).
  change (nth_value [VNum lo; VNum hi] 1) with (VNum hi).
  rewrite ?bind_Normal.
  rewrite ?(bool_decide_false (is_Some None)) by by intros [? ?].
  rewrite (bool_decide_true (is_Some (Some _))) by eauto.
  cbn [when]. rewrite ?bind_Normal, js_lt_numbers, js_gt_numbers.
  split.
  - intros l -> Hnot. rewrite bool_decide_true by eauto. cbn [when default id].
    destruct (arrayContains (VNum n) l) eqn:E; [| done].
    by apply arrayContains_number in E.
  - intros Hin.
    assert (when (bool_decide (is_Some allowed))
              (if negb (arrayContains (VNum n) (default [] allowed))
               then Throw (TrackValidationError key
                             (NotInAllowedValues (VNum n) (default [] allowed)))
               else Normal ()) = Normal ()) as ->.
    { destruct allowed as [l |].
      - rewrite bool_decide_true by eauto. cbn [when default id].
        by rewrite (proj2 (arrayContains_number n l)) by by apply Hin.
      - by rewrite bool_decide_false by by intros [? ?]. }
    rewrite bind_Normal.
    destruct ((n <? lo) || (hi <? n)); [done |]. rewrite ?bind_Normal.
    by destruct (processSiblingRules _ _ _ _ _).
Qed.

(** The hypothesis of the second part of X17 holds for 7, allowed by the
    list but out of the range 1..5. *)
Lemma number_constraints_witness :
  processRule sample.formats defaultOptions 0 "n"
    (Some (numberRule (Some [VStr "7"; VNum 7]) 1 5)) (Some "n") (VNum 7)
    [emptyFrame]
  = (VNum 7,
     Throw (TrackValidationError "n" (OutOfRange (VNum 7) (VNum 1) (VNum 5)))).
Proof.
  apply (proj2 (number_constraints sample.formats defaultOptions 0 "n"
                  (Some [VStr "7"; VNum 7]) 1 5 (Some "n") 7 [emptyFrame])).
  intros l [= <-]. apply elem_of_cons. right. apply elem_of_cons. by left.
Defined.

(** ** Conversion of valid data *)

Lemma namesFormat_unfold (f : string) (r : rule) :
  namesFormat f r
  = bool_decide (format r = Some f)
    || match childRules r with
       | None => false
       | Some rules => rulesNameFormat f rules
       end.
Proof. by destruct r. Qed.

Lemma existsb_false_elem_of {A} (p : A → bool) (l : list A) (x : A) :
  existsb p l = false → x ∈ l → p x = false.
Proof.
  induction l as [| y l IH]; [by intros _ ?%elem_of_nil |]. simpl.
  intros [Hy Hl]%orb_false_elim [-> | Hin]%elem_of_cons; [done | by apply IH].
Qed.

Lemma assoc_namesFormat (f n : string) (rules : ruleMap) (e : ruleEntry rule) :
  rulesNameFormat f rules = false → assoc n rules = Some e →
  entryNamesFormat f e = false.
Proof.
  unfold rulesNameFormat. induction rules as [| [k e'] rules IH]; [done |]. simpl.
  intros [He Hrules]%orb_false_elim.
  destruct (String.eqb k n); [by intros [= <-] | by apply IH].
Qed.

(** The rule a level selects for a value is a rule of its Rule Map, or the
    rule without constraints. *)
Lemma selectConditionalRule_namesFormat (f : string) (opts : Options)
    (rules : ruleMap) (n : string) (v pv : value) (key : string) (r : rule) :
  rulesNameFormat f rules = false →
  selectConditionalRule opts (assoc n rules) v pv key = Normal (Some r) →
  namesFormat f r = false.
Proof.
  intros Hrules. destruct (assoc n rules) as [e |] eqn:Ea; [| done].
  pose proof (assoc_namesFormat f n rules e Hrules Ea) as He.
  destruct e as [r' | rs]; [by intros [= <-] |]. cbn [selectConditionalRule].
  simpl in He.
  intros ([r0 |] & Hsome & H)%bind_Normal_inv.
  - injection H as ->. eapply existsb_false_elem_of; [done |].
    by eapply someCondition_elem_of.
  - destruct (List.filter _ rs) as [| r0 l] eqn:E; injection H as <-; [done |].
    eapply existsb_false_elem_of; [done |]. apply list_elem_of_In.
    apply (proj1 (filter_In (λ selector, bool_decide (condition selector = None))
                   r0 rs)).
    rewrite E. by left.
Qed.

Lemma someCondition_conditions (o o' : Options) (alternatives : list rule)
    (v pv : value) (key : string) :
  opt_conditions o' = opt_conditions o →
  someCondition o' alternatives v pv key = someCondition o alternatives v pv key.
Proof.
  intros H. induction alternatives as [| r alternatives IH]; [done |].
  simpl. by rewrite H, IH.
Qed.

Lemma selectConditionalRule_conditions (o o' : Options) (e : option (ruleEntry rule))
    (v pv : value) (key : string) :
  opt_conditions o' = opt_conditions o →
  selectConditionalRule o' e v pv key = selectConditionalRule o e v pv key.
Proof.
  intros H. destruct e as [[r | rs] |]; [done | | done].
  unfold selectConditionalRule. by rewrite (someCondition_conditions o o').
Qed.

Lemma iterate_no_items (pv : value) (rules : ruleMap) (items : list item) :
  pv = VUndef ∨ pv = VNull → iterate pv rules = Normal items → items = [].
Proof.
  intros Hpv. destruct rules as [| e rules].
  - destruct Hpv as [-> | ->]; by intros [= <-].
  - by rewrite iterate_no_object.
Qed.

Lemma assign_position (a pv v : value) (ruleName : option string) (pos : position)
    (x : value) :
  sameShape a pv → itemOf a (v, ruleName, pos) → is_undefined v = false →
  a ≠ VUndef → a ≠ VNull →
  assign pv pos x = Normal (replaceChild pv pos x).
Proof.
  intros Hshape Hit Hv Hu Hn.
  destruct a as [| | ? | ? | ? | l | f]; simpl in Hshape; try done;
    try (subst pv; by destruct pos).
  - destruct pv as [| | ? | ? | ? | l' |]; try done.
    destruct pos as [i |]; simpl in *; [| done]. subst v.
    assert (i < length l)%nat.
    { destruct (decide (i < length l)%nat); [done |].
      unfold nth_value in Hv. by rewrite lookup_ge_None_2 in Hv by lia. }
    by rewrite decide_True by lia.
  - destruct pv as [| | ? | ? | ? | | f']; try done.
    destruct pos as [| n]; simpl in *; [done |]. subst v.
    rewrite (hasOwnProperty_keys f f' n Hshape). unfold hasOwnProperty.
    destruct (assoc n f) as [y |]; [| done].
    by rewrite bool_decide_true by eauto.
Qed.

Section conversion.

Context (dateParses emailPattern iso8601DatePattern : value → completion bool).
Context (off : Options).
Hypothesis no_convert : opt_convert off = false.

Local Abbreviation registry :=
  (validatorformats.exports dateParses emailPattern iso8601DatePattern).

Lemma isCorrectFormat_withConvert (r : rule) (v : value) (key : string)
    (res : option value) :
  format r ≠ Some "timestamp" →
  isCorrectFormat registry off r v key = Normal res →
  res = None
  ∧ ∃ res', isCorrectFormat registry (withConvert off) r v key = Normal res'
            ∧ (res' = None ∨ res' = Some v ∧ typeof_object v = false).
Proof.
  intros Hformat.
  assert (default "" (format r) ≠ "timestamp") as Hne.
  { destruct (format r) as [f |]; [| done]. simpl. congruence. }
  unfold isCorrectFormat. rewrite no_convert.
  cbn [withConvert opt_convert].
  destruct (validators registry _) as [validator |] eqn:Ev; [| done].
  destruct (validator v) as [[|] | |] eqn:Eok; try done.
  rewrite bind_Normal. cbn [negb]. intros [= <-]. split; [done |].
  destruct (converters registry _) as [converter |] eqn:Ec.
  - destruct (converters_fix_valid dateParses emailPattern iso8601DatePattern
                _ _ _ v Hne Ec Ev Eok) as [-> Hv].
    exists (Some v). split; [done | by right].
  - exists None. split; [done | by left].
Qed.

Lemma processRuleChecks_withConvert (key : string) (r : option rule)
    (ruleName : option string) (v : value) (s : ParentStack)
    (res : option (rule * option value * ParentStack)) :
  (∀ r', r = Some r' → format r' ≠ Some "timestamp") →
  processRuleChecks registry off key r ruleName v s = Normal res →
  ∃ res', processRuleChecks registry (withConvert off) key r ruleName v s = Normal res'
    ∧ match res with
      | None => res' = None ∧ is_undefined v = true
      | Some (r1, cv, s1) =>
          r = Some r1 ∧ cv = None ∧ is_undefined v = false
          ∧ ∃ cv', res' = Some (r1, cv', s1)
                   ∧ (cv' = None ∨ cv' = Some v ∧ typeof_object v = false)
      end.
Proof.
  intros Hformat.
  unfold processRuleChecks. destruct r as [r |]; [| done]. rewrite !bind_Normal.
  specialize (Hformat r eq_refl).
  destruct (when (required r) _); [| done | done]. rewrite !bind_Normal.
  destruct (is_undefined v); [intros [= <-]; by exists None |].
  assert ((∃ cv', (if bool_decide (is_Some (truthyString (format r)))
                   then isCorrectFormat registry off r v key else Normal None)
                  = Normal None
                  ∧ (if bool_decide (is_Some (truthyString (format r)))
                     then isCorrectFormat registry (withConvert off) r v key
                     else Normal None) = Normal cv'
                  ∧ (cv' = None ∨ cv' = Some v ∧ typeof_object v = false))
          ∨ (∀ cv, (if bool_decide (is_Some (truthyString (format r)))
                    then isCorrectFormat registry off r v key else Normal None)
                   ≠ Normal cv)) as [(cv' & -> & -> & Hcv') | Hfail].
  { destruct (bool_decide _).
    - destruct (isCorrectFormat registry off r v key) as [cv | |] eqn:Ef;
        [| by right | by right].
      apply isCorrectFormat_withConvert in Ef as (-> & cv' & -> & Hcv'); [| done].
      left. by exists cv'.
    - left. exists None. split_and!; [done | done | by left]. }
  2:{ destruct (if bool_decide _ then _ else _) as [cv | |]; [| done | done].
      by destruct (Hfail cv). }
  rewrite !bind_Normal.
  destruct (when (bool_decide (is_Some (allowedValues r))) _); [| done | done].
  rewrite !bind_Normal.
  destruct (when (bool_decide (is_Some (range r))) _); [| done | done].
  rewrite !bind_Normal.
  destruct (when (bool_decide (is_Some (truthyNumber (minLength r)))) _);
    [| done | done].
  rewrite !bind_Normal.
  destruct (when (bool_decide (is_Some (truthyNumber (maxLength r)))) _);
    [| done | done].
  rewrite !bind_Normal.
  destruct (when (bool_decide (is_Some (truthyNumber (rule_length r)))) _);
    [| done | done].
  rewrite !bind_Normal.
  destruct (if fixedChildLength r then _ else _) as [s1 | |]; [| done | done].
  rewrite !bind_Normal.
  destruct (processSiblingRules key r ruleName v s1) as [s2 | |]; [| done | done].
  rewrite !bind_Normal. intros [= <-]. eexists. split; [done |].
  split_and!; [done | done | done |]. by exists cv'.
Qed.

Context (pr_off pr_on : string → option rule → option string → value → ParentStack →
                        value * completion (value * ParentStack)).
Hypothesis pr_same : ∀ key r ruleName v s v' cv s',
  (∀ r', r = Some r' → namesFormat "timestamp" r' = false) →
  pr_off key r ruleName v s = (v', Normal (cv, s')) →
  pr_on key r ruleName v s = (v', Normal (cv, s'))
  ∧ (is_undefined v = false → cv = v').
Hypothesis pr_undefined : ∀ key r ruleName v s v' cv s',
  pr_off key r ruleName v s = (v', Normal (cv, s')) →
  is_undefined v = true → is_undefined cv = true.

Lemma callback_withConvert (parentKey : string) (rules : ruleMap)
    (isArr multi : bool) (a : value) (it : item) (pv : value) (s : ParentStack)
    (pv' : value) (s' : ParentStack) :
  rulesNameFormat "timestamp" rules = false →
  a ≠ VUndef → a ≠ VNull → itemOf a it → sameShape a pv →
  callback off pr_off parentKey rules isArr multi it pv s = (pv', Normal s') →
  callback (withConvert off) pr_on parentKey rules isArr multi it pv s
  = (pv', Normal s').
Proof.
  destruct it as [[v ruleName] pos]. intros Hrules Hu Hn Hit Hshape. unfold callback.
  rewrite (selectConditionalRule_conditions off (withConvert off)) by done.
  destruct (selectConditionalRule off _ v pv _) as [r | e |] eqn:Esel; [| done | done].
  assert (∀ r', r = Some r' → namesFormat "timestamp" r' = false) as Hr.
  { intros r' ->. by eapply selectConditionalRule_namesFormat. }
  destruct (pr_off _ r ruleName v s) as [v' c] eqn:E.
  destruct c as [[cv s1] | e |]; [| done | done].
  destruct (pr_same _ _ _ _ _ _ _ _ Hr E) as [-> Hcv].
  unfold writeBack. rewrite no_convert, andb_false_r.
  cbn [withConvert opt_convert]. rewrite andb_true_r.
  intros [= <- <-].
  destruct (is_undefined cv) eqn:Ecv; [done |]. cbn [negb].
  assert (is_undefined v = false) as Hv.
  { destruct (is_undefined v) eqn:Ev; [| done].
    by rewrite (pr_undefined _ _ _ _ _ _ _ _ E Ev) in Ecv. }
  rewrite assign_replaceChild, (assign_position a pv v ruleName pos) by done.
  by rewrite (Hcv Hv).
Qed.

Lemma forEach_withConvert (parentKey : string) (rules : ruleMap)
    (isArr multi : bool) (a : value) (items : list item) :
  rulesNameFormat "timestamp" rules = false →
  a ≠ VUndef → a ≠ VNull → Forall (itemOf a) items →
  ∀ pv s pv' s',
    sameShape a pv →
    forEach (callback off pr_off parentKey rules isArr multi) items pv s
    = (pv', Normal s') →
    forEach (callback (withConvert off) pr_on parentKey rules isArr multi) items pv s
    = (pv', Normal s').
Proof.
  intros Hrules Hu Hn Hitems.
  induction Hitems as [| it items Hit _ IH]; intros pv s pv' s' Hshape; [done |].
  cbn [forEach].
  pose proof (callback_shape off pr_off pr_undefined parentKey rules isArr multi
                a it pv s Hit Hshape) as Hshape1.
  destruct (callback off pr_off parentKey rules isArr multi it pv s)
    as [pv1 [s1 | e |]] eqn:E; [| done | done].
  rewrite (callback_withConvert _ _ _ _ a _ _ _ _ _ Hrules Hu Hn Hit Hshape E).
  by apply IH.
Qed.

Lemma processChildRules_withConvert (parentKey : string) (rules : ruleMap)
    (pv : value) (st : option ParentStack) (pv' : value) (s' : ParentStack) :
  rulesNameFormat "timestamp" rules = false →
  processChildRules off pr_off parentKey rules pv st = (pv', Normal s') →
  processChildRules (withConvert off) pr_on parentKey rules pv st = (pv', Normal s').
Proof.
  intros Hrules. unfold processChildRules. cbn [withConvert opt_filter].
  destruct (iterate pv rules) as [items | e |] eqn:Ei; [| done | done].
  destruct (forEach (callback off _ _ _ _ _) items pv _) as [pv1 [s1 | e |]] eqn:Ef;
    [| done | done].
  assert (forEach (callback (withConvert off) pr_on parentKey rules (isArray pv)
                     (bool_decide (1 < length (keys rules))%nat))
            items pv (push (default new_ParentStack st)) = (pv1, Normal s1)) as ->;
    [| done].
  assert ((pv = VUndef ∨ pv = VNull) ∨ (pv ≠ VUndef ∧ pv ≠ VNull)) as [Hpv | [Hu Hn]]
    by (destruct pv; auto).
  - by rewrite (iterate_no_items pv rules items Hpv Ei) in Ef |- *.
  - apply (forEach_withConvert _ _ _ _ pv); try done.
    + by eapply iterate_itemOf.
    + apply sameShape_refl.
Qed.

End conversion.

Lemma processRule_withConvert
    (dateParses emailPattern iso8601DatePattern : value → completion bool)
    (off : Options) (fuel : nat) (key : string) (r : option rule)
    (ruleName : option string) (v : value) (s : ParentStack) (v' cv : value)
    (s' : ParentStack) :
  opt_convert off = false →
  (∀ r', r = Some r' → namesFormat "timestamp" r' = false) →
  processRule (validatorformats.exports dateParses emailPattern iso8601DatePattern)
    off fuel key r ruleName v s = (v', Normal (cv, s')) →
  processRule (validatorformats.exports dateParses emailPattern iso8601DatePattern)
    (withConvert off) fuel key r ruleName v s
  = (v', Normal (cv, s'))
  ∧ (is_undefined v = false → cv = v').
Proof.
  intros Hoff. revert key r ruleName v s v' cv s'.
  induction fuel as [| fuel IH]; intros key r ruleName v s v' cv s' Hr;
    rewrite !processRule_unfold;
    (destruct (processRuleChecks _ off key r ruleName v s)
       as [res | e |] eqn:E; [| done | done]);
    (apply (processRuleChecks_withConvert dateParses emailPattern
              iso8601DatePattern off Hoff) in E as (res' & -> & Hres);
     [| intros r' Hr'; specialize (Hr r' Hr'); rewrite namesFormat_unfold in Hr;
        apply orb_false_elim in Hr as [Hr _]; by apply bool_decide_eq_false in Hr]);
    (destruct res as [[[r1 cv0] s1] |];
     [destruct Hres as (-> & -> & Hv & cv' & -> & Hcv')
     | destruct Hres as [-> Hv]; intros [= <- <- <-]; split; [done | congruence]]);
    specialize (Hr r1 eq_refl); rewrite namesFormat_unfold in Hr;
    apply orb_false_elim in Hr as [_ Hr];
    (destruct (childRules r1) as [rules |];
     [| intros [= <- <- <-];
        destruct Hcv' as [-> | [-> _]]; by split]);
    (destruct (negb (typeof_object v)) eqn:Et; [done |]); [done |].
  destruct (processChildRules off _ _ _ _ _) as [v1 c] eqn:Ec.
  destruct c as [s2 | e |]; [| done | done]. intros [= <- <- <-].
  rewrite (processChildRules_withConvert off Hoff _ _ IH
             (processRule_undefined _ off fuel) _ _ _ _ _ _ Hr Ec).
  destruct Hcv' as [-> | [-> Hprim]].
  - by split.
  - apply negb_false_iff in Et. congruence.
Qed.

(** X18. Data that validates without [convert] validates with it, and comes
    out the same: under the registry of [validatorformats.js], for rules none
    of which, at any depth, names the format [timestamp], whose converter
    rounds the number, whenever [validate] returns with [convert] off, it
    returns with [convert] on, all other options equal, and leaves the data
    in the same state.  The data is an object or an array, and no key,
    format or condition of the rules and no key of the data, at any depth,
    is a name [Object.prototype] defines. *)
Theorem convert_keeps_valid_data
    (dateParses emailPattern iso8601DatePattern : value → completion bool)
    (data : value) (rules : ruleMap) (options : UserOptions) (data' : value) :
  let registry :=
    validatorformats.exports dateParses emailPattern iso8601DatePattern in
  rulesNameFormat "timestamp" rules = false →
  plainRules rules = true →
  plainData data = true →
  opt_convert (extend defaultOptions options) = false →
  validate registry data rules options = (data', Normal ()) →
  validate registry data rules
    (Build_UserOptions (user_filter options) (user_debug options) (Some true)
                       (user_conditions options))
  = (data', Normal ()).
Proof.
  intros registry Hrules _ _ Hoff. unfold validate.
  change (extend defaultOptions
            (Build_UserOptions (user_filter options) (user_debug options)
               (Some true) (user_conditions options)))
    with (withConvert (extend defaultOptions options)).
  set (off := extend defaultOptions options) in *.
  destruct (processChildRules off _ _ _ _ _) as [pv1 c] eqn:Ec.
  destruct c as [s1 | e |]; [| done | done]. intros [= <-].
  by rewrite (processChildRules_withConvert off Hoff
                (processRule registry off (rulesDepth rules))
                (processRule registry (withConvert off) (rulesDepth rules))
                (λ key r ruleName v s v' cv s' Hr,
                   processRule_withConvert dateParses emailPattern
                     iso8601DatePattern off (rulesDepth rules) key r ruleName
                     v s v' cv s' Hoff Hr)
                (processRule_undefined registry off (rulesDepth rules))
                _ _ _ _ _ _ Hrules Ec).
Qed.

(** The hypotheses of X18 hold for an object with a number and an array of
    booleans under the formats [number] and [boolean]. *)
Lemma convert_keeps_valid_data_witness :
  validate sample.formats
    (VObj [("size", VNum 5); ("tags", VArr [VBool true; VBool false])])
    [("size", Single (sample.formatRule "number"));
     ("tags", Single (sample.parentRule [("*", Single (sample.formatRule "boolean"))]))]
    (Build_UserOptions None None (Some true) None)
  = (VObj [("size", VNum 5); ("tags", VArr [VBool true; VBool false])], Normal ()).
Proof.
  apply (convert_keeps_valid_data (λ _, Normal false) (λ _, Normal false)
           (λ _, Normal false)
           (VObj [("size", VNum 5); ("tags", VArr [VBool true; VBool false])])
           [("size", Single (sample.formatRule "number"));
            ("tags", Single (sample.parentRule
                               [("*", Single (sample.formatRule "boolean"))]))]
           sample.noOptions).
  - reflexivity.
  - reflexivity.
  - reflexivity.
  - reflexivity.
  - by_evaluation.
Defined.

(** ** The exceptions of [validate] *)

Section contract.

Context (P : exn → Prop).
Hypothesis P_type : P TypeError.

Lemma onlyRaises_Normal {A} (a : A) : onlyRaises P (Normal a).
Proof. by intros e. Qed.

Lemma onlyRaises_Diverge {A} : onlyRaises P (@Diverge A).
Proof. by intros e. Qed.

Lemma onlyRaises_Throw {A} (e : exn) : P e → onlyRaises P (@Throw A e).
Proof. by intros He e' [= <-]. Qed.

Lemma onlyRaises_bind {A B} (c : completion A) (f : A → completion B) :
  onlyRaises P c → (∀ a, c = Normal a → onlyRaises P (f a)) →
  onlyRaises P (c ≫= f).
Proof. destruct c as [a | e |]; [eauto | | done]. intros H _ e' [= <-]. by apply H. Qed.

Lemma onlyRaises_when (c : bool) (body : completion unit) :
  onlyRaises P body → onlyRaises P (when c body).
Proof. by destruct c. Qed.

Lemma get_length_raises (v : value) : onlyRaises P (get_length v).
Proof. destruct v; try done; by apply onlyRaises_Throw. Qed.

Lemma get_prop_raises (v : value) (n : string) : onlyRaises P (get_prop v n).
Proof.
  destruct v; simpl; try done; try by apply onlyRaises_Throw.
  all: by destruct (String.eqb n "length").
Qed.

Lemma ownProps_raises (v : value) : onlyRaises P (ownProps v).
Proof. destruct v; try done; by apply onlyRaises_Throw. Qed.

Lemma mapM_raises {A B} (f : A → completion B) (l : list A) :
  (∀ x, onlyRaises P (f x)) → onlyRaises P (mapM f l).
Proof.
  intros Hf. induction l as [| x l IH]; [done |]. simpl.
  apply onlyRaises_bind; [done |]. intros y _.
  apply onlyRaises_bind; [done |]. done.
Qed.

Lemma iterate_raises (pv : value) (rules : ruleMap) : onlyRaises P (iterate pv rules).
Proof.
  assert (∀ o, onlyRaises P (iterateObjectWithRules o rules)) as Hobj.
  { intros o. apply mapM_raises. intros n.
    apply onlyRaises_bind; [apply get_prop_raises | done]. }
  assert (∀ o, onlyRaises P (iterateObjectWithRulesWildcard o rules)) as Hwild.
  { intros o. unfold iterateObjectWithRulesWildcard.
    apply onlyRaises_bind; [apply ownProps_raises |]. intros props _.
    apply mapM_raises. intros n.
    apply onlyRaises_bind; [apply get_prop_raises | done]. }
  unfold iterate, iterateArrayWithRulesWildcard, iterateArrayWithRules.
  destruct pv, (hasOwnProperty rules wildcardRuleName); try done.
  destruct (assoc wildcardRuleName rules); [done | by apply onlyRaises_Throw].
Qed.

Lemma processSortingRules_raises (key : string) (r : rule)
    (ruleName : option string) (v : value) (s : ParentStack) :
  admits P key → onlyRaises P (processSortingRules key r ruleName v s).
Proof.
  intros [P_validation _].
  assert (∀ enabled broken prev why s0,
            onlyRaises P (sortingCheck enabled broken prev key why ruleName v s0))
    as H.
  { intros. unfold sortingCheck.
    destruct enabled; [| done]. destruct (_ && _); [| done].
    by apply onlyRaises_Throw. }
  unfold processSortingRules.
  destruct (peek 1 s); [| by apply onlyRaises_Throw].
  apply onlyRaises_bind; [apply H |]. intros s1 _.
  apply onlyRaises_bind; [apply H |]. intros s2 _. apply H.
Qed.

Lemma processSiblingRules_raises (key : string) (r : rule)
    (ruleName : option string) (v : value) (s : ParentStack) :
  admits P key → onlyRaises P (processSiblingRules key r ruleName v s).
Proof.
  intros Hkey. pose proof Hkey as [P_validation _].
  unfold processSiblingRules. destruct (peek 1 s) as [p |]; [| done].
  apply onlyRaises_bind; [| intros; by apply processSortingRules_raises].
  destruct (truthy _); [| done].
  apply onlyRaises_bind; [apply get_length_raises |]. intros len _.
  destruct (strict_eq _ (VNum (-1))); [done |].
  destruct (negb _); [by apply onlyRaises_Throw | done].
Qed.

Lemma selectConditionalRule_raises (opts : Options) (e : option (ruleEntry rule))
    (v pv : value) (key : string) :
  admits P key → onlyRaises P (selectConditionalRule opts e v pv key).
Proof.
  intros [P_validation _].
  destruct e as [[r | rs] |]; [done | | done]. cbn [selectConditionalRule].
  apply onlyRaises_bind.
  - induction rs as [| r rs IH]; [done |]. cbn [someCondition].
    destruct (truthyString (condition r)) as [name |]; [| done].
    destruct (opt_conditions opts) as [conditions |]; [| by apply onlyRaises_Throw].
    destruct (conditions name) as [cond |]; [| by apply onlyRaises_Throw].
    by destruct (cond pv v).
  - intros [r |] _; [done |]. by destruct (List.filter _ rs).
Qed.

Lemma writeBack_raises (opts : Options) (pv : value) (pos : position)
    (v' : value) (c : completion (value * ParentStack)) :
  onlyRaises P c → onlyRaises P (writeBack opts pv pos (v', c)).2.
Proof.
  intros Hc. unfold writeBack. destruct c as [[cv s1] | e |]; [| | done].
  - destruct (_ && _); [| done].
    assert (onlyRaises P (assign (replaceChild pv pos v') pos cv)) as Ha.
    { unfold assign. destruct (replaceChild pv pos v'), pos; try done;
        try by apply onlyRaises_Throw.
      - by case_decide.
      - by destruct (hasOwnProperty _ _). }
    destruct (assign _ _ _) as [pv1 | e |]; [done | | done].
    simpl. intros e' [= <-]. by apply Ha.
  - simpl. intros e' [= <-]. by apply Hc.
Qed.

Lemma forEach_raises
    (cb : item → value → ParentStack → value * completion ParentStack)
    (items : list item) :
  (∀ it pv s, onlyRaises P (cb it pv s).2) →
  ∀ pv s, onlyRaises P (forEach cb items pv s).2.
Proof.
  intros Hcb. induction items as [| it items IH]; intros pv s; [done |]. simpl.
  specialize (Hcb it pv s).
  destruct (cb it pv s) as [pv1 [s1 | e |]]; [apply IH | done | done].
Qed.

Context (formats : Formats) (opts : Options).
Hypothesis P_debug : opt_debug opts = true → P SyntaxError.
Hypothesis validators_raise : ∀ f validator v,
  validators formats f = Some validator → onlyRaises P (validator v).
Hypothesis converters_raise : ∀ f converter v e,
  converters formats f = Some converter → converter v = Throw e →
  (∃ message, e = StringThrown message) ∨ P e.
Hypothesis admits_child : ∀ parentKey isArr multi ruleName pos,
  admits P parentKey → admits P (childKey parentKey isArr multi ruleName pos).

Lemma isCorrectFormat_raises (r : rule) (v : value) (key : string) :
  admits P key → onlyRaises P (isCorrectFormat formats opts r v key).
Proof.
  intros [P_validation P_format]. unfold isCorrectFormat.
  destruct (if opt_convert opts then _ else _) as [converter |] eqn:Ec.
  - assert (∀ e, converter v = Throw e →
                 (∃ message, e = StringThrown message) ∨ P e) as H.
    { intros e. destruct (opt_convert opts); [by eapply converters_raise | done]. }
    destruct (converter v) as [cv | e |]; [done | | done].
    destruct (H e eq_refl) as [[message ->] | He].
    + by apply onlyRaises_Throw.
    + destruct e; by apply onlyRaises_Throw.
  - destruct (validators formats _) as [validator |] eqn:Ev;
      [| by apply onlyRaises_Throw].
    apply onlyRaises_bind; [by eapply validators_raise |]. intros ok _.
    destruct (negb ok); [by apply onlyRaises_Throw | done].
Qed.

Lemma processRuleChecks_raises (key : string) (r : option rule)
    (ruleName : option string) (v : value) (s : ParentStack) :
  admits P key → onlyRaises P (processRuleChecks formats opts key r ruleName v s).
Proof.
  intros Hkey. pose proof Hkey as [P_validation _].
  unfold processRuleChecks. destruct r as [r |].
  2:{ rewrite bind_Throw. apply onlyRaises_Throw.
      destruct (opt_debug opts); [by apply P_debug | done]. }
  rewrite bind_Normal.
  apply onlyRaises_bind.
  { apply onlyRaises_when. unfold isRequired.
    destruct (is_undefined v); [by apply onlyRaises_Throw | done]. }
  intros _ _. destruct (is_undefined v); [done |].
  apply onlyRaises_bind;
    [destruct (bool_decide _); [by apply isCorrectFormat_raises | done] |].
  intros cv _.
  apply onlyRaises_bind.
  { apply onlyRaises_when. unfold isAllowedValue.
    destruct (negb _); [by apply onlyRaises_Throw | done]. }
  intros _ _.
  apply onlyRaises_bind.
  { apply onlyRaises_when. unfold isInRange.
    destruct (_ || _); [by apply onlyRaises_Throw | done]. }
  intros _ _.
  apply onlyRaises_bind.
  { apply onlyRaises_when, onlyRaises_bind; [apply get_length_raises |].
    intros len _. destruct (js_lt _ _); [by apply onlyRaises_Throw | done]. }
  intros _ _.
  apply onlyRaises_bind.
  { apply onlyRaises_when, onlyRaises_bind; [apply get_length_raises |].
    intros len _. destruct (js_gt _ _); [by apply onlyRaises_Throw | done]. }
  intros _ _.
  apply onlyRaises_bind.
  { apply onlyRaises_when, onlyRaises_bind; [apply get_length_raises |].
    intros len _. destruct (negb _); [by apply onlyRaises_Throw | done]. }
  intros _ _.
  apply onlyRaises_bind.
  { destruct (fixedChildLength r); [| done].
    unfold enableFixedChildLength.
    destruct (peek 0 s); [done | by apply onlyRaises_Throw]. }
  intros s1 _.
  apply onlyRaises_bind; [by apply processSiblingRules_raises | done].
Qed.

Lemma processChildRules_raises
    (pr : string → option rule → option string → value → ParentStack →
          value * completion (value * ParentStack))
    (parentKey : string) (rules : ruleMap) (pv : value) (st : option ParentStack) :
  admits P parentKey →
  (∀ key r ruleName v s, admits P key → onlyRaises P (pr key r ruleName v s).2) →
  onlyRaises P (processChildRules opts pr parentKey rules pv st).2.
Proof.
  intros Hkey Hpr. unfold processChildRules.
  pose proof (iterate_raises pv rules) as Hi.
  destruct (iterate pv rules) as [items | e |];
    [| simpl; apply onlyRaises_Throw; by apply Hi | by intros ?].
  assert (∀ it x s,
            onlyRaises P (callback opts pr parentKey rules (isArray pv)
                            (bool_decide (1 < length (keys rules))%nat) it x s).2)
    as Hcb.
  { intros [[v ruleName] pos] x s. unfold callback.
    pose proof (admits_child parentKey (isArray pv)
                  (bool_decide (1 < length (keys rules))%nat) ruleName pos Hkey)
      as Hchild.
    pose proof (selectConditionalRule_raises opts
                  (assoc (propertyKey ruleName) rules) v x _ Hchild) as Hsel.
    destruct (selectConditionalRule _ _ _ _ _) as [r | e |];
      [| simpl; apply onlyRaises_Throw; by apply Hsel | by intros ?].
    specialize (Hpr _ r ruleName v s Hchild).
    destruct (pr _ r ruleName v s) as [v' c]. by apply writeBack_raises. }
  pose proof (forEach_raises _ items Hcb pv (push (default new_ParentStack st)))
    as Hloop.
  destruct (forEach _ items pv _) as [pv1 [s1 | e |]];
    [| exact Hloop | by intros ?].
  destruct (_ && _); [| by intros ?].
  assert (onlyRaises P (applyFilterForObject parentKey pv1 rules)) as Ha.
  { rewrite applyFilterForObject_cases.
    apply onlyRaises_bind; [apply ownProps_raises |]. intros props _.
    destruct (hasOwnProperty rules "hasOwnProperty"); [| done].
    destruct (keys props); [done | by apply onlyRaises_Throw]. }
  destruct (applyFilterForObject _ _ _) as [pv2 | e |];
    [by intros ? | | by intros ?].
  simpl. intros e' [= <-]. by apply Ha.
Qed.

Lemma processRule_raises (fuel : nat) (key : string) (r : option rule)
    (ruleName : option string) (v : value) (s : ParentStack) :
  admits P key →
  onlyRaises P (processRule formats opts fuel key r ruleName v s).2.
Proof.
  revert key r ruleName v s.
  induction fuel as [| fuel IH]; intros key r ruleName v s Hkey;
    pose proof Hkey as [P_validation _];
    rewrite processRule_unfold;
    pose proof (processRuleChecks_raises key r ruleName v s Hkey) as Hc;
    (destruct (processRuleChecks _ _ _ _ _ _ _) as [[[[r' cv] s1] |] | e |];
     [| by intros ? | simpl; apply onlyRaises_Throw; by apply Hc | by intros ?]);
    (destruct (childRules r') as [rules |]; [| by intros ?]);
    (destruct (negb (typeof_object v)); [by apply onlyRaises_Throw |]);
    [by intros ? |].
  pose proof (processChildRules_raises (processRule formats opts fuel)
                key rules v (Some s1) Hkey IH) as H.
  destruct (processChildRules _ _ _ _ _ _) as [v1 [s2 | e |]];
    [by intros ? | | by intros ?].
  simpl. apply onlyRaises_Throw. by apply H.
Qed.

End contract.

Lemma validatorformats_raise
    (dateParses emailPattern iso8601DatePattern : value → completion bool)
    (P : exn → Prop) :
  P TypeError →
  (∀ v, onlyRaises P (dateParses v)) →
  (∀ v, onlyRaises P (emailPattern v)) →
  (∀ v, onlyRaises P (iso8601DatePattern v)) →
  (∀ f validator v,
     validatorformats.validators dateParses emailPattern iso8601DatePattern f
     = Some validator → onlyRaises P (validator v))
  ∧ (∀ f converter v e,
       validatorformats.converters f = Some converter → converter v = Throw e →
       (∃ message, e = StringThrown message) ∨ P e).
Proof.
  intros HP Hdate Hemail Hiso.
  assert (∀ v e, validatorformats.convertNumber v = Throw e →
                 ∃ message, e = StringThrown message) as Hnumber.
  { intros v e. destruct v; simpl; try (intros [= <-]; by eexists).
    destruct (validatorformats.parseInt _); [done | intros [= <-]; by eexists]. }
  assert (∀ check message v e,
            validatorformats.convertChecked check message v = Throw e →
            ∃ message', e = StringThrown message') as Hchecked.
  { intros check message v e. unfold validatorformats.convertChecked.
    destruct (validatorformats.convertNumber v) as [n | e' |] eqn:En; [| | done].
    - rewrite bind_Normal. destruct (check n); [done | intros [= <-]; by eexists].
    - rewrite bind_Throw. intros [= <-]. by eapply Hnumber. }
  split.
  - intros f validator v. unfold validatorformats.validators.
    repeat match goal with
           | |- context [if String.eqb f ?name then _ else _] =>
               destruct (String.eqb f name)
           end;
      intros [= <-]; try done.
    + unfold validatorformats.hex.
      apply onlyRaises_bind; [by apply get_length_raises |]. intros len _.
      destruct v; try done; destruct (js_lt _ _); try done;
        by apply onlyRaises_Throw.
    + apply onlyRaises_bind; [by apply get_length_raises |]. intros len _.
      by destruct (js_gt _ _).
    + apply onlyRaises_bind; [by apply get_length_raises |]. intros len _.
      destruct (negb _); [done |].
      apply onlyRaises_bind; [done |]. intros ok _. by destruct ok.
  - intros f converter v e. unfold validatorformats.converters.
    repeat match goal with
           | |- context [if String.eqb f ?name then _ else _] =>
               destruct (String.eqb f name)
           end;
      intros [= <-]; try done;
      try (intros H; left; by eapply Hchecked);
      try (intros H; left; by eapply Hnumber).
    destruct (validatorformats.convertNumber v) as [n | e' |] eqn:En; [| | done].
    + rewrite bind_Normal. intros [= <-]. by right.
    + rewrite bind_Throw. intros [= <-]. left. by eapply Hnumber.
Qed.

(** X19. The exceptions [validate] lets out, under the registry of
    [validatorformats.js] with host functions that raise nothing but type
    errors: a [TrackValidationError], the plain [Error] of an unknown format
    name, a [TypeError], or, only with [debug], a [SyntaxError].  The bare
    string a converter throws never escapes: it is always wrapped into a
    validation error. *)
Theorem validate_raises
    (dateParses emailPattern iso8601DatePattern : value → completion bool)
    (data : value) (rules : ruleMap) (options : UserOptions) (e : exn) :
  (∀ v, onlyRaises (eq TypeError) (dateParses v)) →
  (∀ v, onlyRaises (eq TypeError) (emailPattern v)) →
  (∀ v, onlyRaises (eq TypeError) (iso8601DatePattern v)) →
  (validate (validatorformats.exports dateParses emailPattern iso8601DatePattern)
     data rules options).2 = Throw e →
  raisedByValidate (opt_debug (extend defaultOptions options)) e.
Proof.
  intros Hdate Hemail Hiso. unfold validate.
  set (opts := extend defaultOptions options).
  set (P := raisedByValidate (opt_debug opts)).
  assert (∀ key, admits P key) as Hadmits by done.
  assert (∀ {A} (c : completion A), onlyRaises (eq TypeError) c → onlyRaises P c)
    as Hweaken.
  { intros A c Hc e' He'. by rewrite <- (Hc e' He'). }
  destruct (validatorformats_raise dateParses emailPattern iso8601DatePattern P)
    as [Hval Hconv]; try done; try (intros v; by apply Hweaken).
  pose proof (processChildRules_raises P ltac:(done) opts
                (λ parentKey isArr multi ruleName pos _,
                   Hadmits (childKey parentKey isArr multi ruleName pos))
                (processRule (validatorformats.exports dateParses emailPattern
                                iso8601DatePattern) opts (rulesDepth rules))
                "" rules data None (Hadmits "")
                (processRule_raises P ltac:(done)
                   (validatorformats.exports dateParses emailPattern
                      iso8601DatePattern) opts ltac:(done) Hval Hconv
                   (λ parentKey isArr multi ruleName pos _,
                      Hadmits (childKey parentKey isArr multi ruleName pos))
                   (rulesDepth rules))) as H.
  destruct (processChildRules _ _ _ _ _ _) as [pv1 [s1 | e' |]]; try done.
  simpl. intros [= <-]. by apply H.
Qed.

(** The hypotheses of X19 hold for a string that is no number, converted
    under the format [number]. *)
Lemma validate_raises_witness :
  raisedByValidate (opt_debug (extend defaultOptions sample.convertOn))
    (TrackValidationError "a"
       (FormatError "NaN is not a number or a number string")).
Proof.
  apply (validate_raises (λ _, Normal false) (λ _, Normal false) (λ _, Normal false)
           (VObj [("a", VStr "x")]) [("a", Single (sample.formatRule "number"))]
           sample.convertOn).
  - by intros v e.
  - by intros v e.
  - by intros v e.
  - by_evaluation.
Defined.

(** ** What acceptance guarantees *)

Lemma when_Normal_inv (c : bool) (body : completion unit) :
  when c body = Normal () → c = true → body = Normal ().
Proof. by intros H ->. Qed.

Lemma bind_unit_Normal_inv {B} (c : completion unit) (f : unit → completion B) (b : B) :
  c ≫= f = Normal b → c = Normal () ∧ f () = Normal b.
Proof. by intros ([] & -> & H)%bind_Normal_inv. Qed.

Lemma processRuleChecks_sound (formats : Formats) (opts : Options) (key : string)
    (r : rule) (ruleName : option string) (v : value) (s : ParentStack)
    (res : option (rule * option value * ParentStack)) :
  processRuleChecks formats opts key (Some r) ruleName v s = Normal res →
  (required r = true → v ≠ VUndef) ∧ (v ≠ VUndef → satisfies r v).
Proof.
  unfold processRuleChecks. rewrite bind_Normal.
  intros [Hreq H]%bind_unit_Normal_inv. split.
  - intros Hr Hv. subst v. by rewrite Hr in Hreq.
  - intros Hv%is_undefined_false. rewrite Hv in H.
    apply bind_Normal_inv in H as (cv & _ & H).
    apply bind_unit_Normal_inv in H as [Hallowed H].
    apply bind_unit_Normal_inv in H as [Hrange H].
    apply bind_unit_Normal_inv in H as [Hmin H].
    apply bind_unit_Normal_inv in H as [Hmax H].
    apply bind_unit_Normal_inv in H as [Hlen _].
    unfold satisfies. split_and!.
    + intros allowed Ha. apply when_Normal_inv in Hallowed;
        [| rewrite Ha; by apply bool_decide_eq_true].
      unfold isAllowedValue in Hallowed. rewrite Ha in Hallowed. simpl in Hallowed.
      by destruct (arrayContains v allowed).
    + intros bounds Hb. apply when_Normal_inv in Hrange;
        [| rewrite Hb; by apply bool_decide_eq_true].
      unfold isInRange in Hrange. rewrite Hb in Hrange. simpl in Hrange.
      destruct (js_lt v _), (js_gt v _); done.
    + intros a Ha. apply when_Normal_inv in Hmin;
        [| rewrite Ha; by apply bool_decide_eq_true].
      unfold isMinLength in Hmin. rewrite (truthyNumber_Some _ _ Ha) in Hmin.
      apply bind_Normal_inv in Hmin as (len & Hl & Hmin). exists len.
      split; [done |]. simpl in Hmin. by destruct (js_lt len _).
    + intros b Hb. apply when_Normal_inv in Hmax;
        [| rewrite Hb; by apply bool_decide_eq_true].
      unfold isMaxLength in Hmax. rewrite (truthyNumber_Some _ _ Hb) in Hmax.
      apply bind_Normal_inv in Hmax as (len & Hl & Hmax). exists len.
      split; [done |]. simpl in Hmax. by destruct (js_gt len _).
    + intros c Hc. apply when_Normal_inv in Hlen;
        [| rewrite Hc; by apply bool_decide_eq_true].
      unfold isLength in Hlen. rewrite (truthyNumber_Some _ _ Hc) in Hlen.
      apply bind_Normal_inv in Hlen as (len & Hl & Hlen). simpl in Hlen.
      destruct (strict_eq len (VNum c)) eqn:E; [| done].
      by apply strict_eq_eq in E as ->.
Qed.

Lemma forEach_Normal_all
    (cb : item → value → ParentStack → value * completion ParentStack)
    (items : list item) (pv : value) (s : ParentStack) (pv' : value)
    (s' : ParentStack) (it : item) :
  forEach cb items pv s = (pv', Normal s') → it ∈ items →
  ∃ pv0 s0 pv1 s1, cb it pv0 s0 = (pv1, Normal s1).
Proof.
  revert pv s. induction items as [| it' items IH]; intros pv s;
    [by intros _ ?%elem_of_nil |].
  simpl. destruct (cb it' pv s) as [pv1 [s1 | e |]] eqn:E; [| done | done].
  intros H [-> | Hin]%elem_of_cons; eauto 6.
Qed.

Lemma iterate_object_named (fields : list (string * value)) (rules : ruleMap)
    (items : list item) (name : string) :
  iterate (VObj fields) rules = Normal items →
  name ∈ keys rules → name ≠ wildcardRuleName →
  (default VUndef (assoc name fields), Some name, Name name) ∈ items.
Proof.
  intros Hitems Hname Hwild. revert Hitems. unfold iterate.
  destruct (hasOwnProperty rules wildcardRuleName).
  - unfold iterateObjectWithRulesWildcard. cbn [ownProps get_prop].
    rewrite bind_Normal.
    rewrite (mapM_ext _ (λ n, Normal
               (default VUndef (assoc n fields),
                Some (if hasOwnProperty rules n then n else wildcardRuleName),
                Name n))) by done.
    rewrite mapM_pure. intros [= <-].
    apply list_elem_of_fmap. exists name. split.
    + by rewrite (proj2 (hasOwnProperty_true rules name)).
    + apply elem_of_app. left. apply list_elem_of_In, filter_In.
      split; [by apply list_elem_of_In |].
      apply negb_true_iff, String.eqb_neq. done.
  - unfold iterateObjectWithRules. cbn [get_prop].
    rewrite (mapM_ext _ (λ n, Normal
               (default VUndef (assoc n fields), Some n, Name n))) by done.
    rewrite mapM_pure. intros [= <-].
    apply list_elem_of_fmap. by exists name.
Qed.

(** X20. What acceptance guarantees, for a Rule Map and an object in which
    no key, format or condition, at any depth, is a name that
    [Object.prototype] defines.  When a level over
    the object completes, under any options, then for every single rule the
    Rule Map names (the wildcard entry apart) and the value the object held
    under that name when the level started: if the rule is [required] the
    value is defined, and if the value is defined it satisfies the rule's
    [allowedValues], [range], [minLength], [maxLength] and [length]. *)
Theorem accepted_object_satisfies_rules (formats : Formats) (opts : Options)
    (fuel : nat) (parentKey : string) (rules : ruleMap)
    (fields : list (string * value)) (st : option ParentStack) (result : value)
    (s' : ParentStack) (name : string) (r : rule) :
  plainRules rules = true →
  plainValue (VObj fields) = true →
  processChildRules opts (processRule formats opts fuel) parentKey rules
    (VObj fields) st = (result, Normal s') →
  assoc name rules = Some (Single r) →
  name ≠ wildcardRuleName →
  let v := default VUndef (assoc name fields) in
  (required r = true → v ≠ VUndef) ∧ (v ≠ VUndef → satisfies r v).
Proof.
  intros _ _ Hrun Hr Hwild v. revert Hrun. unfold processChildRules.
  destruct (iterate (VObj fields) rules) as [items | e |] eqn:Ei; [| done | done].
  destruct (forEach _ items _ _) as [pv1 [s1 | e |]] eqn:Ef; [| done | done].
  intros _.
  assert (name ∈ keys rules) as Hname.
  { apply hasOwnProperty_true. unfold hasOwnProperty. rewrite Hr.
    by apply bool_decide_eq_true. }
  pose proof (iterate_object_named fields rules items name Ei Hname Hwild) as Hin.
  destruct (forEach_Normal_all _ _ _ _ _ _ _ Ef Hin) as (pv0 & s0 & pv2 & s2 & Hcb).
  revert Hcb. unfold callback. cbn [propertyKey default from_option id].
  rewrite Hr. cbn [selectConditionalRule].
  destruct (processRule _ _ _ _ _ _ _ _) as [v' c] eqn:Epr.
  intros [cv ->]%writeBack_stack.
  rewrite processRule_unfold in Epr.
  destruct (processRuleChecks _ _ _ _ _ _ _) as [res | e |] eqn:Ec;
    [| by destruct fuel | by destruct fuel].
  by eapply processRuleChecks_sound.
Qed.

(** The hypotheses of X20 hold for the key [n] of an object accepted under
    [{n: {range: [1, 5]}, '*': {}}]. *)
Lemma accepted_object_satisfies_rules_witness :
  let v := default VUndef (assoc "n" [("n", VNum 3); ("x", VNum 9)]) in
  (required (sample.rangeRule 1 5) = true → v ≠ VUndef)
  ∧ (v ≠ VUndef → satisfies (sample.rangeRule 1 5) v).
Proof.
  apply (accepted_object_satisfies_rules sample.formats defaultOptions 0 ""
           [("n", Single (sample.rangeRule 1 5)); ("*", Single emptyRule)]
           [("n", VNum 3); ("x", VNum 9)] None
           (VObj [("n", VNum 3); ("x", VNum 9)]) [] "n" (sample.rangeRule 1 5)).
  - reflexivity.
  - reflexivity.
  - by_evaluation.
  - reflexivity.
  - done.
Defined.

(** ** Where an error points *)

Lemma append_nil_r (s : string) : s +:+ "" = s.
Proof.
  induction s as [| c s IH]; [done |].
  change (String c (s +:+ "") = String c s). by rewrite IH.
Qed.

Lemma append_assoc (a b c : string) : (a +:+ b) +:+ c = a +:+ (b +:+ c).
Proof.
  induction a as [| x a IH]; [done |].
  change (String x ((a +:+ b) +:+ c) = String x (a +:+ (b +:+ c))). by rewrite IH.
Qed.

Lemma locatedBelow_admits (key0 key : string) :
  admits (locatedBelow key0) key ↔ ∃ rest, key = key0 +:+ rest.
Proof.
  split.
  - intros [H _]. exact (H NotDefinedButRequired).
  - intros H. split; intros; exact H.
Qed.

Lemma locatedBelow_child (key0 parentKey : string) (isArr multi : bool)
    (ruleName : option string) (pos : position) :
  admits (locatedBelow key0) parentKey →
  admits (locatedBelow key0) (childKey parentKey isArr multi ruleName pos).
Proof.
  rewrite !locatedBelow_admits. intros [rest ->]. unfold childKey.
  destruct isArr; [destruct multi |]; rewrite append_assoc; by eexists.
Qed.

(** X21. An error points into the value it was raised for: under the
    registry of [validatorformats.js] with host functions that raise nothing
    but type errors, every exception of [processRule] that carries a key, a
    [TrackValidationError] or the [Error] of an unknown format name,
    carries the key the call was given or an extension of it.  The keys of
    nested values extend the key of their parent, so an error raised
    anywhere below a rule starts with the key of that rule. *)
Theorem errors_point_below_the_rule
    (dateParses emailPattern iso8601DatePattern : value → completion bool)
    (opts : Options) (fuel : nat) (key : string) (r : option rule)
    (ruleName : option string) (v : value) (s : ParentStack) (e : exn) :
  (∀ v, onlyRaises (eq TypeError) (dateParses v)) →
  (∀ v, onlyRaises (eq TypeError) (emailPattern v)) →
  (∀ v, onlyRaises (eq TypeError) (iso8601DatePattern v)) →
  (processRule (validatorformats.exports dateParses emailPattern iso8601DatePattern)
     opts fuel key r ruleName v s).2 = Throw e →
  locatedBelow key e.
Proof.
  intros Hdate Hemail Hiso.
  set (P := locatedBelow key).
  assert (∀ {A} (c : completion A), onlyRaises (eq TypeError) c → onlyRaises P c)
    as Hweaken.
  { intros A c Hc e' He'. by rewrite <- (Hc e' He'). }
  destruct (validatorformats_raise dateParses emailPattern iso8601DatePattern P)
    as [Hval Hconv]; try done; try (intros x; by apply Hweaken).
  apply (processRule_raises P ltac:(done)
           (validatorformats.exports dateParses emailPattern iso8601DatePattern)
           opts ltac:(done) Hval Hconv (locatedBelow_child key) fuel key r
           ruleName v s).
  apply locatedBelow_admits. exists "". by rewrite append_nil_r.
Qed.

(** The hypotheses of X21 hold for [3, 9] under a wildcard range rule below
    the key [a]. *)
Lemma errors_point_below_the_rule_witness :
  locatedBelow "a"
    (TrackValidationError "a[1]" (OutOfRange (VNum 9) (VNum 1) (VNum 5))).
Proof.
  apply (errors_point_below_the_rule (λ _, Normal false) (λ _, Normal false)
           (λ _, Normal false) defaultOptions 1 "a"
           (Some (sample.parentRule [("*", Single (sample.rangeRule 1 5))]))
           None (sample.numbers [3; 9]) [emptyFrame]).
  - by intros v e.
  - by intros v e.
  - by intros v e.
  - by_evaluation.
Defined.
